(** * String-Storage: the ternary trie of [seq.c] and its abstraction classes

    A shallow embedding of [src/seq.c] and the properties of its public
    operations [seq_new], [seq_delete], [seq_add], [seq_remove],
    [seq_valid], [seq_set_name], [seq_get_name] and [seq_equiv].

    Modelling conventions.
    - A value of [seq_t] stands for a C pointer [seq_t *] together with the
      subtree it owns: [NULL], or a node with its three owned children, its
      name and its class number.  Nodes are never shared, so the heap of
      nodes reachable from the root is a tree.
    - A function of the source that works on the subtree below its argument
      takes that subtree and gives back the subtree as it left it.
    - Inside the loops that walk down from the root, a pointer into the store
      is the path ([ptr]) leading to the node; [deref] reads through it and
      [assign] writes through it.
    - [int] is a 32-bit two's complement integer: arithmetic on the class
      counter goes through [wrap_int].  Lengths of C strings are taken to be
      below 2^31, so [(int) strlen(s)] is the length.
    - [malloc] may fail at any call: the environment carries the outcomes of
      the coming calls.  It also counts the blocks currently allocated, and
      the value of [errno].
    - Passing NULL to [strcmp] has no defined behaviour: such a run ends in
      [Undefined].  So does a run that reads through a pointer after it has
      freed the buffer the pointer leads into.
    - [seq_get_name] returns the name buffer of a node, not a copy.  A string
      argument of a later call can be that pointer, or one advanced within
      the buffer.  Two arguments are read after the call has freed name
      buffers: [s] in [seq_remove] and [n] in [seq_set_name].  For these the
      model says where the argument is held: [None] for a buffer of the
      caller, [Some q] for the name buffer of the node at [q]. *)

From Stdlib Require Import ZArith List String Ascii Bool Lia.
Import ListNotations.
Local Open Scope Z_scope.
Local Open Scope list_scope.

(** ** The C runtime: errno, the allocator, undefined behaviour *)

Definition ENOMEM : Z := 12.
Definition EINVAL : Z := 22.

Definition INT_MAX : Z := 2147483647.

(** [int] arithmetic: the result of an operation, brought back into
    [-2^31, 2^31). *)
Definition wrap_int (z : Z) : Z := (z + 2 ^ 31) mod 2 ^ 32 - 2 ^ 31.

Record env : Type := Env {
  errno : Z;
  mallocs : list bool;   (* outcome of each coming call of malloc; once the
                            list is used up every call succeeds *)
  allocated : Z          (* number of blocks allocated and not yet freed *)
}.

Inductive outcome (A : Type) : Type :=
| Done (a : A) (e : env)
| Undefined.

Arguments Done {A} a e.
Arguments Undefined {A}.

Definition M (A : Type) : Type := env -> outcome A.

Definition ret {A} (a : A) : M A := fun e => Done a e.

Definition bind {A B} (m : M A) (k : A -> M B) : M B :=
  fun e => match m e with
           | Done a e' => k a e'
           | Undefined => Undefined
           end.

Notation "x <- m ;; k" := (bind m (fun x => k))
  (at level 61, m at next level, right associativity).
Notation "' pat <- m ;; k" := (bind m (fun x => match x with pat => k end))
  (at level 61, pat pattern, m at next level, right associativity).
Notation "m ;; k" := (bind m (fun _ => k))
  (at level 61, right associativity).

Definition undefined {A} : M A := fun _ => Undefined.

Definition set_errno (v : Z) : M unit :=
  fun e => Done tt (Env v (mallocs e) (allocated e)).

(** [malloc]: [true] when a block was obtained, [false] for NULL. *)
Definition malloc : M bool :=
  fun e => match mallocs e with
           | [] => Done true (Env (errno e) [] (allocated e + 1))
           | true :: rest => Done true (Env (errno e) rest (allocated e + 1))
           | false :: rest => Done false (Env (errno e) rest (allocated e))
           end.

Definition free : M unit :=
  fun e => Done tt (Env (errno e) (mallocs e) (allocated e - 1)).

(** [strcmp], as far as the source uses it: 0 exactly when the two strings
    are equal.  A NULL argument is undefined behaviour. *)
Definition strcmp (n1 n2 : option string) : M Z :=
  match n1, n2 with
  | Some a, Some b =>
      ret (match String.compare a b with Eq => 0 | Lt => -1 | Gt => 1 end)
  | _, _ => undefined
  end.

(** ** The trie *)

Inductive seq_t : Type :=
| NULL : seq_t
| Node (next_zero next_one next_two : seq_t)
       (abstract_class_name : option string)
       (abstract_class : Z) : seq_t.

(** The store: the root node and the counter [*abstract_classes_amount]
    that every node of the store points to. *)
Record store : Type := Store {
  root : seq_t;
  abstract_classes_amount : Z
}.

Definition is_null (p : seq_t) : bool :=
  match p with NULL => true | Node _ _ _ _ _ => false end.

Definition next_zero (p : seq_t) : seq_t :=
  match p with NULL => NULL | Node z _ _ _ _ => z end.
Definition next_one (p : seq_t) : seq_t :=
  match p with NULL => NULL | Node _ o _ _ _ => o end.
Definition next_two (p : seq_t) : seq_t :=
  match p with NULL => NULL | Node _ _ t _ _ => t end.
Definition abstract_class_name (p : seq_t) : option string :=
  match p with NULL => None | Node _ _ _ n _ => n end.
Definition abstract_class (p : seq_t) : Z :=
  match p with NULL => -1 | Node _ _ _ _ c => c end.

Definition set_next_zero (p v : seq_t) : seq_t :=
  match p with NULL => NULL | Node _ o t n c => Node v o t n c end.
Definition set_next_one (p v : seq_t) : seq_t :=
  match p with NULL => NULL | Node z _ t n c => Node z v t n c end.
Definition set_next_two (p v : seq_t) : seq_t :=
  match p with NULL => NULL | Node z o _ n c => Node z o v n c end.
Definition set_name (p : seq_t) (v : option string) : seq_t :=
  match p with NULL => NULL | Node z o t _ c => Node z o t v c end.
Definition set_class (p : seq_t) (v : Z) : seq_t :=
  match p with NULL => NULL | Node z o t n _ => Node z o t n v end.

(** A pointer into the store: the symbols that lead from the root to the
    node. *)
Definition ptr : Type := list ascii.

(** [seq_t * next_seq(seq_t * p, char next_char)] *)
Definition next_seq (p : seq_t) (next_char : ascii) : seq_t :=
  match p with
  | NULL => NULL
  | Node z o t _ _ =>
      if (next_char =? "0")%char then z
      else if (next_char =? "1")%char then o
      else if (next_char =? "2")%char then t
      else NULL
  end.

(** [p->next_X = v] for the field that symbol [c] selects. *)
Definition set_next (p : seq_t) (c : ascii) (v : seq_t) : seq_t :=
  if (c =? "0")%char then set_next_zero p v
  else if (c =? "1")%char then set_next_one p v
  else if (c =? "2")%char then set_next_two p v
  else p.

Fixpoint deref (p : seq_t) (q : ptr) : seq_t :=
  match q with
  | [] => p
  | c :: q' => deref (next_seq p c) q'
  end.

(** The store [p] after the node that [q] points to has been overwritten
    with [v]. *)
Fixpoint assign (p : seq_t) (q : ptr) (v : seq_t) : seq_t :=
  match q with
  | [] => v
  | c :: q' => set_next p c (assign (next_seq p c) q' v)
  end.

Definition is_some {A} (o : option A) : bool :=
  match o with Some _ => true | None => false end.

(** What is left of [t] after its prefix [s], if [s] is a prefix of [t]. *)
Fixpoint strip_prefix (s t : ptr) : option ptr :=
  match s, t with
  | [], _ => Some t
  | c :: s', c' :: t' => if (c =? c')%char then strip_prefix s' t' else None
  | _ :: _, [] => None
  end.

Definition prefixb (s t : ptr) : bool := is_some (strip_prefix s t).

(** ** Where a string argument is held *)

(** Where the string that a [char const *] argument leads to is held, seen
    from a node of the tree. *)
Inductive origin : Type :=
| Outside             (* in a buffer that the call at hand does not free: one
                         of the caller, or a name away from the node *)
| Name_of (q : ptr)   (* in the name buffer of the node at [q] below the
                         node *)
| Freed.              (* in a buffer that has been freed *)

Definition origin_of (held : option ptr) : origin :=
  match held with Some q => Name_of q | None => Outside end.

(** The same place, seen from the child [c] of the node. *)
Definition below (h : origin) (c : ascii) : origin :=
  match h with
  | Name_of (c' :: q) => if (c' =? c)%char then Name_of q else Outside
  | Name_of [] => Outside
  | Outside => Outside
  | Freed => Freed
  end.

Definition freed (h : origin) : bool :=
  match h with Freed => true | _ => false end.

(** The argument is held in the name buffer of the node itself. *)
Definition here (h : origin) : bool :=
  match h with Name_of [] => true | _ => false end.

(** The buffer that a string argument is held in is freed along with the
    subtree at [s]: it is the name of a node at [s] or below. *)
Definition freed_with (p : seq_t) (s : ptr) (held : option ptr) : bool :=
  match held with
  | Some q => prefixb s q && is_some (abstract_class_name (deref p q))
  | None => false
  end.

(** [seq_t * seq_new(void)] *)
Definition seq_new : M store :=
  return_seq <- malloc ;;
  abstract_classes <- malloc ;;
  if negb return_seq || negb abstract_classes then
    set_errno ENOMEM ;;
    (if return_seq then free else ret tt) ;;
    (if abstract_classes then free else ret tt) ;;
    ret (Store NULL 0)
  else
    ret (Store (Node NULL NULL NULL None (-1)) 0).

Definition legal (c : ascii) : bool :=
  ((c =? "0") || (c =? "1") || (c =? "2"))%char.

(** [int check_str_for_inval(char const * s)]; NULL is [None]. *)
Definition check_str_for_inval (s : option (list ascii)) : M Z :=
  match s with
  | None => set_errno EINVAL ;; ret (-1)
  | Some s =>
      if (List.length s =? 0)%nat then set_errno EINVAL ;; ret (-1)
      else if forallb legal s then ret 0
      else set_errno EINVAL ;; ret (-1)
  end.

(** [bool check_seq_for_next(seq_t * p, char val)].  The source reads
    [p->next_zero] without a test on [p]; every caller passes a node. *)
Definition check_seq_for_next (p : seq_t) (val : ascii) : bool :=
  if (val =? "0")%char && negb (is_null (next_zero p)) then true
  else if (val =? "1")%char && negb (is_null (next_one p)) then true
  else if (val =? "2")%char && negb (is_null (next_two p)) then true
  else false.

(** [int new_seq_node(seq_t * p, char new_val)]: the result and the node
    [*p] afterwards. *)
Definition new_seq_node (p : seq_t) (new_val : ascii) : M (Z * seq_t) :=
  if negb (legal new_val) then
    set_errno EINVAL ;; ret (-1, p)
  else if check_seq_for_next p new_val then ret (0, p)
  else
    temp <- malloc ;;
    if negb temp then
      set_errno ENOMEM ;; ret (-1, p)
    else
      let temp := Node NULL NULL NULL None (-1) in
      let p := if (new_val =? "0")%char then set_next_zero p temp else p in
      let p := if (new_val =? "1")%char then set_next_one p temp else p in
      let p := if (new_val =? "2")%char then set_next_two p temp else p in
      ret (1, p).

(** [void seq_remove_recur(seq_t * p)]: frees the subtree below [p]. *)
Fixpoint seq_remove_recur (p : seq_t) : M unit :=
  match p with
  | NULL => ret tt
  | Node z o t n _ =>
      (if negb (is_null z) then seq_remove_recur z else ret tt) ;;
      (if negb (is_null o) then seq_remove_recur o else ret tt) ;;
      (if negb (is_null t) then seq_remove_recur t else ret tt) ;;
      (match n with Some _ => free | None => ret tt end) ;;
      free
  end.

(** The characters of a string argument that has passed the NULL test. *)
Definition chars_of (s : option (list ascii)) : list ascii :=
  match s with Some l => l | None => [] end.

(** The loop shared by [seq_valid], [seq_set_name], [seq_get_name] and
    [seq_equiv]:
    [for (i...) { if (!check_seq_for_next(current_seq, s[i])) return 0;
                  current_seq = next_seq(current_seq, s[i]); }]
    [None] is the early return; after a successful test [next_seq] gives the
    child, which the pointer [current_seq ++ [c]] designates. *)
Fixpoint walk (p : seq_t) (current_seq : ptr) (rest : list ascii)
  : option ptr :=
  match rest with
  | [] => Some current_seq
  | c :: rest' =>
      if negb (check_seq_for_next (deref p current_seq) c) then None
      else walk p (current_seq ++ [c]) rest'
  end.

(** The loop of [seq_add]; [rest] is what is left of [s] from index [i] on,
    [p] the root of the store as it is now. *)
Fixpoint seq_add_loop (s rest : list ascii) (i : nat) (p : seq_t)
    (first_added_seq : option ptr) (current_seq_node second_to_last : ptr)
    (first_index : nat) (added_seqs : Z) : M (Z * seq_t) :=
  match rest with
  | [] => ret ((if added_seqs >? 0 then 1 else 0), p)
  | c :: rest' =>
      '(current_adding_result, node) <-
         new_seq_node (deref p current_seq_node) c ;;
      let p := assign p current_seq_node node in
      let first :=
        match first_added_seq with None => true | Some _ => false end
        && (current_adding_result =? 1) in
      let second_to_last := if first then current_seq_node else second_to_last in
      let first_index := if first then i else first_index in
      let first_added_seq :=
        if first then Some (current_seq_node ++ [c]) else first_added_seq in
      if current_adding_result =? -1 then
        p <- match first_added_seq with
             | Some fa =>
                 seq_remove_recur (deref p fa) ;;
                 ret (match nth_error s first_index with
                      | Some c0 =>
                          assign p second_to_last
                            (set_next (deref p second_to_last) c0 NULL)
                      | None => p
                      end)
             | None => ret p
             end ;;
        set_errno ENOMEM ;;
        ret (-1, p)
      else
        seq_add_loop s rest' (S i) p first_added_seq (current_seq_node ++ [c])
          second_to_last first_index (added_seqs + current_adding_result)
  end.

(** [int seq_add(seq_t * p, char const * s)] *)
Definition seq_add (p : store) (s : option (list ascii)) : M (Z * store) :=
  if is_null (root p) then set_errno EINVAL ;; ret (-1, p)
  else match s with
  | None => set_errno EINVAL ;; ret (-1, p)
  | Some str =>
      r <- check_str_for_inval s ;;
      if r =? -1 then ret (-1, p)
      else
        '(res, rt) <- seq_add_loop str str 0 (root p) None [] [] 0 0 ;;
        ret (res, Store rt (abstract_classes_amount p))
  end.

(** The loop of [seq_remove]: [None] is the early [return 0], otherwise
    [current_seq] and [second_to_last] as the loop leaves them. *)
Fixpoint seq_remove_loop (p : seq_t) (rest : list ascii) (i length : nat)
    (current_seq second_to_last : ptr) : option (ptr * ptr) :=
  match rest with
  | [] => Some (current_seq, second_to_last)
  | c :: rest' =>
      let second_to_last :=
        if (i =? length - 1)%nat then current_seq else second_to_last in
      if negb (check_seq_for_next (deref p current_seq) c) then None
      else seq_remove_loop p rest' (S i) length (current_seq ++ [c])
             second_to_last
  end.

(** [int seq_remove(seq_t * p, char const * s)]; [s_in] tells where [s] is
    held.  [s[length - 1]] is read after [seq_remove_recur] has freed the
    subtree and its names. *)
Definition seq_remove (p : store) (s : option (list ascii))
    (s_in : option ptr) : M (Z * store) :=
  if is_null (root p) then set_errno EINVAL ;; ret (-1, p)
  else
    r <- check_str_for_inval s ;;
    if r =? -1 then ret (-1, p)
    else
      let str := chars_of s in
      let length := List.length str in
      match seq_remove_loop (root p) str 0 length [] [] with
      | None => ret (0, p)
      | Some (current_seq, second_to_last) =>
          seq_remove_recur (deref (root p) current_seq) ;;
          if freed_with (root p) current_seq s_in then undefined
          else
            let rt :=
              match nth_error str (length - 1) with
              | Some c =>
                  assign (root p) second_to_last
                    (set_next (deref (root p) second_to_last) c NULL)
              | None => root p
              end in
            ret (1, Store rt (abstract_classes_amount p))
      end.

(** [int seq_valid(seq_t * p, char const * s)] *)
Definition seq_valid (p : store) (s : option (list ascii)) : M Z :=
  r <- check_str_for_inval s ;;
  if r =? -1 then ret (-1)
  else if is_null (root p) then set_errno EINVAL ;; ret (-1)
  else match walk (root p) [] (chars_of s) with
       | None => ret 0
       | Some _ => ret 1
       end.

(** [int replace_or_set_seq_name(seq_t * p, char const * n)]; [n] is never
    NULL here, and [h] tells where it is held.  [strlen(n)] comes first;
    the name of the node is freed before [strcpy] reads [n].  The third
    component of the result tells whether the buffer of [n] has been
    freed. *)
Definition replace_or_set_seq_name (p : seq_t) (n : string) (h : origin)
  : M (Z * seq_t * bool) :=
  if freed h then undefined
  else
  match p with
  | NULL => ret (0, p, false)
  | Node _ _ _ name _ =>
      (match name with Some _ => free | None => ret tt end) ;;
      let gone := is_some name && here h in
      let p := set_name p None in
      a <- malloc ;;
      if negb a then set_errno ENOMEM ;; ret (-1, p, gone)
      else if gone then undefined
      else ret (1, set_name p (Some n), false)
  end.

(** [int recur_seq_name(seq_t * p, char const * n, int current_abs_class)];
    [h] tells where [n] is held, and the third component of the result
    whether the buffer of [n] has been freed. *)
Fixpoint recur_seq_name (p : seq_t) (n : string) (h : origin)
    (current_abs_class : Z) : M (Z * seq_t * bool) :=
  match p with
  | NULL => ret (0, NULL, freed h)
  | Node z o t name c =>
      '(next_zero, z, f) <-
         recur_seq_name z n (below h "0") current_abs_class ;;
      let h := if f then Freed else h in
      '(next_one, o, f) <-
         recur_seq_name o n (below h "1") current_abs_class ;;
      let h := if f then Freed else h in
      '(next_two, t, f) <-
         recur_seq_name t n (below h "2") current_abs_class ;;
      let h := if f then Freed else h in
      let p := Node z o t name c in
      if (next_zero =? -1) || (next_one =? -1) || (next_two =? -1)
      then ret (-1, p, freed h)
      else if abstract_class p =? current_abs_class then
        '(r, p, f) <- replace_or_set_seq_name p n h ;;
        ret ((if r =? 1 then 1 else 0), p, f)
      else ret (1, p, freed h)
  end.

(** [int seq_set_name(seq_t * p, char const * s, char const * n)]; [n_in]
    tells where [n] is held. *)
Definition seq_set_name (p : store) (s : option (list ascii))
    (n : option string) (n_in : option ptr) : M (Z * store) :=
  if is_null (root p) then set_errno EINVAL ;; ret (-1, p)
  else
    r <- check_str_for_inval s ;;
    if r =? -1 then ret (-1, p)
    else match n with
    | None => set_errno EINVAL ;; ret (-1, p)
    | Some n =>
        let n_length := Z.of_nat (String.length n) + 1 in
        if n_length - 1 =? 0 then set_errno EINVAL ;; ret (-1, p)
        else match walk (root p) [] (chars_of s) with
        | None => ret (0, p)
        | Some current_seq =>
            let node := deref (root p) current_seq in
            let amount := abstract_classes_amount p in
            let current_abs_class := abstract_class node in
            if current_abs_class =? -1 then
              a <- malloc ;;
              if negb a then
                set_errno ENOMEM ;;
                ret (-1, Store (assign (root p) current_seq
                                  (set_name node None)) amount)
              else
                let node := set_name node (Some n) in
                let amount := wrap_int (amount + 1) in
                let node := set_class node amount in
                ret (1, Store (assign (root p) current_seq node) amount)
            else
              let current_name := abstract_class_name node in
              same <- match current_name with
                      | Some _ =>
                          c <- strcmp (Some n) current_name ;; ret (c =? 0)
                      | None => ret false
                      end ;;
              if same then ret (0, p)
              else
                '(r, rt, _) <-
                   recur_seq_name (root p) n (origin_of n_in)
                     current_abs_class ;;
                ret (r, Store rt amount)
        end
    end.

(** [char const * seq_get_name(seq_t * p, char const * s)]: the string the
    returned pointer leads to, [None] for NULL. *)
Definition seq_get_name (p : store) (s : option (list ascii))
  : M (option string) :=
  if is_null (root p) then set_errno EINVAL ;; ret None
  else
    r <- check_str_for_inval s ;;
    if r =? -1 then ret None
    else match walk (root p) [] (chars_of s) with
    | None => set_errno 0 ;; ret None
    | Some current_seq =>
        let node := deref (root p) current_seq in
        if negb (is_null node)
           && match abstract_class_name node with
              | None => true
              | Some _ => false
              end
        then set_errno 0 ;; ret None
        else ret (abstract_class_name node)
    end.

(** [char * singular_name(char const * n)]: [strlen(n)] comes first, so a
    NULL [n] is undefined; [None] is the NULL of a failed allocation. *)
Definition singular_name (n : option string) : M (option string) :=
  match n with
  | None => undefined
  | Some str =>
      new_name <- malloc ;;
      if negb new_name then set_errno ENOMEM ;; ret None
      else ret (Some str)
  end.

(** [char * merge_names(char const * n1, char const * n2)].  With both
    arguments NULL the buffer is handed back unwritten; its contents are
    indeterminate. *)
Definition merge_names (n1 n2 : option string) : M (option string) :=
  new_name <- malloc ;;
  if negb new_name then set_errno ENOMEM ;; ret None
  else match n1, n2 with
       | Some a, Some b => ret (Some (a ++ b)%string)
       | Some a, None => ret (Some a)
       | None, Some b => ret (Some b)
       | None, None => undefined
       end.

(** [int node_change(seq_t * p, char const * n1, char const * n2,
                     int abs_class_val)] *)
Definition node_change (p : seq_t) (n1 n2 : option string)
    (abs_class_val : Z) : M (Z * seq_t) :=
  match p with
  | NULL => ret (0, p)
  | Node _ _ _ name _ =>
      (match name with Some _ => free | None => ret tt end) ;;
      let p := set_name p None in
      let p := set_class p abs_class_val in
      if negb (is_some n1) && negb (is_some n2) then ret (1, p)
      else
        first <- (if is_some n1 && negb (is_some n2) then ret true
                  else c <- strcmp n1 n2 ;; ret (c =? 0)) ;;
        if first then
          name <- singular_name n1 ;;
          let p := set_name p name in
          if negb (is_some name) then ret (-1, p) else ret (1, p)
        else
          second <- (if negb (is_some n1) && is_some n2 then ret true
                     else c <- strcmp n1 n2 ;; ret (c =? 0)) ;;
          if second then
            name <- singular_name n2 ;;
            let p := set_name p name in
            if negb (is_some name) then ret (-1, p) else ret (1, p)
          else
            name <- merge_names n1 n2 ;;
            let p := set_name p name in
            if negb (is_some name) then ret (-1, p) else ret (1, p)
  end.

(** [int recur_equiv(seq_t * p, int abs_class_1, int abs_class_2,
                     int abs_class_n, char const * name_1,
                     char const * name_2)] *)
Fixpoint recur_equiv (p : seq_t) (abs_class_1 abs_class_2 abs_class_n : Z)
    (name_1 name_2 : option string) : M (Z * seq_t) :=
  match p with
  | NULL => ret (0, NULL)
  | Node z o t name c =>
      let p_abs := c in
      '(result_zero, z) <-
         recur_equiv z abs_class_1 abs_class_2 abs_class_n name_1 name_2 ;;
      '(result_one, o) <-
         recur_equiv o abs_class_1 abs_class_2 abs_class_n name_1 name_2 ;;
      '(result_two, t) <-
         recur_equiv t abs_class_1 abs_class_2 abs_class_n name_1 name_2 ;;
      let p := Node z o t name c in
      if (result_one =? -1) || (result_two =? -1) || (result_zero =? -1)
      then ret (-1, p)
      else if negb (p_abs =? -1)
              && ((p_abs =? abs_class_1) || (p_abs =? abs_class_2))
      then node_change p name_1 name_2 abs_class_n
      else ret (0, p)
  end.

(** A [char const *] argument of [seq_equiv].  The function compares its two
    arguments as pointers ([s1 == s2]), so an argument carries the address it
    holds besides the characters found there. *)
Record char_ptr : Type := CharPtr {
  address : Z;
  chars : list ascii
}.

(** [int seq_equiv(seq_t * p, char const * s1, char const * s2)] *)
Definition seq_equiv (p : store) (s1 s2 : option char_ptr)
  : M (Z * store) :=
  if is_null (root p) then set_errno EINVAL ;; ret (-1, p)
  else match s1, s2 with
  | Some s1, Some s2 =>
      r <- check_str_for_inval (Some (chars s1)) ;;
      if r =? -1 then ret (-1, p) else
      r <- check_str_for_inval (Some (chars s2)) ;;
      if r =? -1 then ret (-1, p) else
      if address s1 =? address s2 then ret (0, p) else
      match walk (root p) [] (chars s1) with
      | None => ret (0, p)
      | Some current_seq_1 =>
      match walk (root p) [] (chars s2) with
      | None => ret (0, p)
      | Some current_seq_2 =>
          let rt := root p in
          let amount := abstract_classes_amount p in
          let abs_class_1 := abstract_class (deref rt current_seq_1) in
          let abs_class_2 := abstract_class (deref rt current_seq_2) in
          if negb (abs_class_1 =? -1) && (abs_class_1 =? abs_class_2)
          then ret (0, p) else
          let abs_class_n := wrap_int (amount + 1) in
          let rt := assign rt current_seq_1
                      (set_class (deref rt current_seq_1) abs_class_n) in
          let rt := assign rt current_seq_2
                      (set_class (deref rt current_seq_2) abs_class_n) in
          let amount := wrap_int (amount + 1) in
          let name_1 := abstract_class_name (deref rt current_seq_1) in
          a1 <- (if is_some name_1 then malloc else ret true) ;;
          if negb a1 then set_errno ENOMEM ;; ret (-1, Store rt amount) else
          let name_2 := abstract_class_name (deref rt current_seq_2) in
          a2 <- (if is_some name_2 then malloc else ret true) ;;
          if negb a2 then set_errno ENOMEM ;; ret (-1, Store rt amount) else
          '(r1, node) <-
             node_change (deref rt current_seq_1) name_1 name_2 abs_class_n ;;
          let rt := assign rt current_seq_1 node in
          if r1 =? -1 then ret (-1, Store rt amount) else
          '(r2, node) <-
             node_change (deref rt current_seq_2) name_1 name_2 abs_class_n ;;
          let rt := assign rt current_seq_2 node in
          if r2 =? -1 then ret (-1, Store rt amount) else
          '(zero_seqs, z) <-
             recur_equiv (next_zero rt) abs_class_1 abs_class_2 abs_class_n
               name_1 name_2 ;;
          let rt := set_next_zero rt z in
          '(one_seqs, o) <-
             recur_equiv (next_one rt) abs_class_1 abs_class_2 abs_class_n
               name_1 name_2 ;;
          let rt := set_next_one rt o in
          '(two_seqs, t) <-
             recur_equiv (next_two rt) abs_class_1 abs_class_2 abs_class_n
               name_1 name_2 ;;
          let rt := set_next_two rt t in
          (if is_some name_1 then free else ret tt) ;;
          (if is_some name_2 then free else ret tt) ;;
          if negb (zero_seqs =? -1) && negb (one_seqs =? -1)
             && negb (two_seqs =? -1)
          then ret (1, Store rt amount)
          else ret (-1, Store rt amount)
      end
      end
  | _, _ => set_errno EINVAL ;; ret (-1, p)
  end.

(** ** Running the public operations *)

Inductive op : Type :=
| OAdd (s : option (list ascii))
| ORemove (s : option (list ascii)) (s_in : option ptr)
| OValid (s : option (list ascii))
| OSetName (s : option (list ascii)) (n : option string)
    (n_in : option ptr)
| OGetName (s : option (list ascii))
| OEquiv (s1 s2 : option char_ptr).

(** One call: the store afterwards. *)
Definition step (o : op) (p : store) : M store :=
  match o with
  | OAdd s => '(_, p) <- seq_add p s ;; ret p
  | ORemove s s_in => '(_, p) <- seq_remove p s s_in ;; ret p
  | OValid s => seq_valid p s ;; ret p
  | OSetName s n n_in => '(_, p) <- seq_set_name p s n n_in ;; ret p
  | OGetName s => seq_get_name p s ;; ret p
  | OEquiv s1 s2 => '(_, p) <- seq_equiv p s1 s2 ;; ret p
  end.

Fixpoint run (ops : list op) (p : store) : M store :=
  match ops with
  | [] => ret p
  | o :: ops' => p <- step o p ;; run ops' p
  end.

(** The sequence written as a string literal. *)
Definition sq (s : string) : option (list ascii) :=
  Some (list_ascii_of_string s).

Definition e0 : env := Env 0 [] 0.

(** ** Vocabulary of the properties *)

(** A sequence the validator accepts: not empty, symbols among 0, 1, 2. *)
Definition valid (s : list ascii) : Prop :=
  s <> [] /\ forallb legal s = true.

Definition prefix (t s : list ascii) : Prop := exists u, s = t ++ u.

(** The node that [q] leads to exists. *)
Definition present (p : seq_t) (q : ptr) : bool := negb (is_null (deref p q)).

(** What [seq_valid] ("contains") answers, whatever the environment. *)
Definition contains (p : store) (s : list ascii) : Prop :=
  forall e, seq_valid p (Some s) e = Done 1 e.

Definition lacks (p : store) (s : list ascii) : Prop :=
  forall e, seq_valid p (Some s) e = Done 0 e.

(** Every allocation still to come succeeds. *)
Definition all_succeed (e : env) : Prop := forallb (fun b => b) (mallocs e) = true.

(** The class numbers found on the nodes below (and at) [p]. *)
Fixpoint classes (p : seq_t) : list Z :=
  match p with
  | NULL => []
  | Node z o t _ c => c :: classes z ++ classes o ++ classes t
  end.

(** Number of nodes and of names below (and at) [p]: the blocks that
    [seq_remove_recur p] gives back. *)
Fixpoint blocks (p : seq_t) : Z :=
  match p with
  | NULL => 0
  | Node z o t n _ =>
      blocks z + blocks o + blocks t + (if is_some n then 1 else 0) + 1
  end.

(** A node as [new_seq_node] creates it. *)
Definition leaf : seq_t := Node NULL NULL NULL None (-1).

(** The nodes [seq_add] creates along [u] below a fresh node. *)
Fixpoint chain (u : list ascii) : seq_t :=
  match u with
  | [] => leaf
  | c :: u' => set_next leaf c (chain u')
  end.

(** [recur_seq_name] when no allocation fails: every node of class
    [current_abs_class] takes the name [n]. *)
Fixpoint renamed (p : seq_t) (n : string) (current_abs_class : Z) : seq_t :=
  match p with
  | NULL => NULL
  | Node z o t name c =>
      Node (renamed z n current_abs_class) (renamed o n current_abs_class)
           (renamed t n current_abs_class)
           (if c =? current_abs_class then Some n else name) c
  end.

(** The class counter is a non-negative [int], and every class number on a
    node is -1 or was handed out by the counter. *)
Definition store_inv (p : store) : Prop :=
  0 <= abstract_classes_amount p <= INT_MAX /\
  forall c, In c (classes (root p)) ->
            c = -1 \/ 1 <= c <= abstract_classes_amount p.

(** What a call of the loop of [seq_add] on the store [q] for the sequence [s]
    can end in: nothing to add, the missing nodes added below the last node
    that was there, or an allocation failure with the store put back. *)
Definition add_result (q : seq_t) (s : list ascii) (e : env)
    (r : Z) (p' : seq_t) (e' : env) : Prop :=
  (r = 0 /\ p' = q /\ e' = e /\ present q s = true) \/
  (r = 1 /\ errno e' = errno e /\
   exists pre c0 u,
     s = pre ++ c0 :: u /\
     is_null (deref q pre) = false /\
     is_null (next_seq (deref q pre) c0) = true /\
     p' = assign q pre (set_next (deref q pre) c0 (chain u)) /\
     allocated e' = allocated e + Z.of_nat (List.length u) + 1) \/
  (r = -1 /\ p' = q /\ errno e' = ENOMEM /\ allocated e' = allocated e).

(** A store holding "0", "01" and "02", no node named. *)
Definition store_0_01_02 : store :=
  Store (Node (Node NULL leaf leaf None (-1)) NULL NULL None (-1)) 0.

(** The empty store, as [seq_new] makes it. *)
Definition store_empty : store := Store leaf 0.

(** "0" and "1" in the store, both in class 1 under the name "A". *)
Definition store_class_of_two : store :=
  Store (Node (Node NULL NULL NULL (Some "A"%string) 1)
              (Node NULL NULL NULL (Some "A"%string) 1)
              NULL None (-1)) 1.

(** The argument [s] of [seq_equiv] holding the characters of the literal
    [str] at address [a]. *)
Definition at_address (a : Z) (str : string) : option char_ptr :=
  Some (CharPtr a (list_ascii_of_string str)).

(** [reclass n p p']: the tree [p'] has the nodes of [p], and each node has
    the class it has in [p] or the class [n]; names are free. *)
Inductive reclass (n : Z) : seq_t -> seq_t -> Prop :=
| reclass_NULL : reclass n NULL NULL
| reclass_Node z o t name c z' o' t' name' c' :
    reclass n z z' -> reclass n o o' -> reclass n t t' ->
    c' = c \/ c' = n ->
    reclass n (Node z o t name c) (Node z' o' t' name' c').

(** "0" and "01" in one class after [seq_equiv], "02" outside it. *)
Definition store_merged : store :=
  Store (Node (Node NULL (Node NULL NULL NULL None 1) leaf None 1)
              NULL NULL None (-1)) 1.

(** "0" in class 1 under the name "A". *)
Definition store_named : store :=
  Store (Node (Node NULL NULL NULL (Some "A"%string) 1) NULL NULL None (-1)) 1.



(** The name the merge of two classes is meant to give: the four cases. *)
Definition merged_name (n1 n2 : option string) : option string :=
  match n1, n2 with
  | None, None => None
  | Some a, None => Some a
  | None, Some b => Some b
  | Some a, Some b => if String.eqb a b then Some a else Some (a ++ b)%string
  end.

(** "0" without a name, "1" in class 1 under the name "B". *)
Definition store_second_named : store :=
  Store (Node leaf (Node NULL NULL NULL (Some "B"%string) 1) NULL None (-1)) 1.

(** "0" named "A" in class 1, "1" named "B" in class 2, "2" named "A" in
    class 3, "00" without a name. *)
Definition store_three_named : store :=
  Store (Node (Node leaf NULL NULL (Some "A"%string) 1)
              (Node NULL NULL NULL (Some "B"%string) 2)
              (Node NULL NULL NULL (Some "A"%string) 3) None (-1)) 3.

(** [seq_equiv] of [s1] and [s2] (held at addresses 1 and 2), then the names
    [seq_get_name] gives for the two. *)
Definition names_after_equiv (p : store) (s1 s2 : string)
  : M (option string * option string) :=
  p <- step (OEquiv (at_address 1 s1) (at_address 2 s2)) p ;;
  a <- seq_get_name p (sq s1) ;;
  b <- seq_get_name p (sq s2) ;;
  ret (a, b).

(** What [node_change] makes of a node when no allocation fails. *)
Definition relabel (p : seq_t) (abs_class_val : Z) (name : option string)
  : seq_t :=
  set_name (set_class p abs_class_val) name.

(** What [recur_equiv] makes of a tree when no allocation fails: the nodes of
    the two old classes get the new class and the name [name]. *)
Fixpoint migrated (p : seq_t) (abs_class_1 abs_class_2 abs_class_n : Z)
    (name : option string) : seq_t :=
  match p with
  | NULL => NULL
  | Node z o t nm c =>
      let z := migrated z abs_class_1 abs_class_2 abs_class_n name in
      let o := migrated o abs_class_1 abs_class_2 abs_class_n name in
      let t := migrated t abs_class_1 abs_class_2 abs_class_n name in
      if negb (c =? -1) && ((c =? abs_class_1) || (c =? abs_class_2))
      then Node z o t name abs_class_n
      else Node z o t nm c
  end.

(** The tree after the two assignments [current_seq_1->abstract_class =
    abs_class_n] and [current_seq_2->abstract_class = abs_class_n] of
    [seq_equiv]. *)
Definition classed (p : seq_t) (s1 s2 : ptr) (n : Z) : seq_t :=
  let rt := assign p s1 (set_class (deref p s1) n) in
  assign rt s2 (set_class (deref rt s2) n).

(** The tree [seq_equiv] leaves when it goes all the way and no allocation
    fails; [s1] and [s2] lead to the two endpoints, [n] is the new class and
    [name] the name handed to all its members. *)
Definition merged (p : seq_t) (s1 s2 : ptr) (n : Z) (name : option string)
  : seq_t :=
  let abs_class_1 := abstract_class (deref p s1) in
  let abs_class_2 := abstract_class (deref p s2) in
  let rt := classed p s1 s2 n in
  let rt := assign rt s1 (relabel (deref rt s1) n name) in
  let rt := assign rt s2 (relabel (deref rt s2) n name) in
  let rt := set_next_zero rt
              (migrated (next_zero rt) abs_class_1 abs_class_2 n name) in
  let rt := set_next_one rt
              (migrated (next_one rt) abs_class_1 abs_class_2 n name) in
  set_next_two rt (migrated (next_two rt) abs_class_1 abs_class_2 n name).

(** What can be read at the node that [q] leads to: whether it is there, its
    class and its name. *)
Definition fields (p : seq_t) (q : ptr) : bool * Z * option string :=
  (is_null (deref p q), abstract_class (deref p q),
   abstract_class_name (deref p q)).

Definition same_children (v w : seq_t) : Prop :=
  is_null v = is_null w /\ forall c, next_seq v c = next_seq w c.

Definition ptr_eqb (q s : ptr) : bool :=
  if list_eq_dec ascii_dec q s then true else false.

(** The nodes [seq_equiv] puts in the new class: the two endpoints, and every
    node below the root that is in a class and whose class is that of one of
    the endpoints. *)
Definition member (p : seq_t) (s1 s2 q : ptr) : bool :=
  ptr_eqb q s1 || ptr_eqb q s2
  || (negb (is_null (deref p q))
      && negb (ptr_eqb q [])
      && negb (abstract_class (deref p q) =? -1)
      && ((abstract_class (deref p q) =? abstract_class (deref p s1))
          || (abstract_class (deref p q) =? abstract_class (deref p s2)))).

(** [void seq_delete(seq_t * p)].  The store is gone afterwards; what is left
    is the environment. *)
Definition seq_delete (p : store) : M unit :=
  if is_null (root p) then ret tt
  else
    '(_, p) <- seq_remove p (sq "0") None ;;
    '(_, p) <- seq_remove p (sq "1") None ;;
    '(_, p) <- seq_remove p (sq "2") None ;;
    free ;;
    (match abstract_class_name (root p) with
     | Some _ => free
     | None => ret tt
     end) ;;
    free.

(** A sequence argument the validator turns down: NULL, the empty string, or
    a string with a character other than 0, 1, 2. *)
Definition invalid (s : option (list ascii)) : Prop :=
  match s with
  | None => True
  | Some l => l = [] \/ forallb legal l = false
  end.

(** The environment after a call that was turned down. *)
Definition rejected (e : env) : env := Env EINVAL (mallocs e) (allocated e).

(** No node without a class has a name. *)
Fixpoint tidy (p : seq_t) : bool :=
  match p with
  | NULL => true
  | Node z o t name c =>
      (negb (c =? -1) || negb (is_some name)) && tidy z && tidy o && tidy t
  end.

(** The store and the environment keep the account: the root is there, no
    node without a class has a name, no allocation to come fails, and the
    blocks handed out are those of the tree and [k] more. *)
Definition account (p : store) (e : env) (k : Z) : Prop :=
  is_null (root p) = false /\ tidy (root p) = true /\ all_succeed e /\
  allocated e - blocks (root p) = k.

(** The nodes of one class carry one name. *)
Definition coherent (p : seq_t) : Prop :=
  forall q1 q2,
    is_null (deref p q1) = false -> is_null (deref p q2) = false ->
    abstract_class (deref p q1) <> -1 ->
    abstract_class (deref p q1) = abstract_class (deref p q2) ->
    abstract_class_name (deref p q1) = abstract_class_name (deref p q2).

(** The string argument is held in the name buffer of a node of class
    [cls]: renaming the class frees that buffer. *)
Definition renames_buffer (p : seq_t) (h : origin) (cls : Z) : bool :=
  match h with
  | Name_of q =>
      is_some (abstract_class_name (deref p q))
      && (abstract_class (deref p q) =? cls)
  | _ => false
  end.

(** "0" and "1" are put in one class named "A"; naming the class "B" fails
    to allocate for "0", which is left without a name, and names "1".  Then
    "0" is named with the name [seq_get_name] gives for "1", held where
    [n_in] says.  The result: the two names before the last call, and what
    the last call returns. *)
Definition rename_after_failure (n_in : option ptr)
  : outcome (option string * option string * (Z * store)) :=
  (p <- run [OAdd (sq "0"); OAdd (sq "1");
             OSetName (sq "0") (Some "A"%string) None;
             OEquiv (at_address 1 "0") (at_address 2 "1");
             OSetName (sq "0") (Some "B"%string) None] store_empty ;;
   n0 <- seq_get_name p (sq "0") ;;
   n1 <- seq_get_name p (sq "1") ;;
   r <- seq_set_name p (sq "0") n1 n_in ;;
   ret (n0, n1, r))
    (Env 0 [true; true; true; true; true; true; false] 2).

(** ** The monad *)

Lemma bind_Done A B (m : M A) (k : A -> M B) e b e' :
  bind m k e = Done b e' ->
  exists a e1, m e = Done a e1 /\ k a e1 = Done b e'.
Proof.
  unfold bind. destruct (m e) as [a e1|]; [|discriminate].
  intros H. exists a, e1. split; [reflexivity|exact H].
Qed.

Lemma bind_eq A B (m : M A) (k : A -> M B) e a e1 :
  m e = Done a e1 -> bind m k e = k a e1.
Proof. unfold bind. intros ->. reflexivity. Qed.

Ltac inv_bind H :=
  let a := fresh "a" in
  let e1 := fresh "e" in
  let H1 := fresh "H" in
  apply bind_Done in H; destruct H as (a & e1 & H1 & H).

Ltac inv_bind_as H a e H1 :=
  apply bind_Done in H; destruct H as (a & e & H1 & H).

Ltac inv_done H := unfold ret, set_errno, free in H; injection H as; subst.

(** ** Pointers into the tree *)

Lemma deref_NULL q : deref NULL q = NULL.
Proof. induction q; simpl; auto. Qed.

Lemma deref_app p a b : deref p (a ++ b) = deref (deref p a) b.
Proof. revert p. induction a; simpl; intros; auto. Qed.

Lemma assign_app p a b v :
  assign p (a ++ b) v = assign p a (assign (deref p a) b v).
Proof. revert p. induction a; simpl; intros; auto. rewrite IHa. reflexivity. Qed.

Lemma legal_cases c :
  legal c = true -> c = "0"%char \/ c = "1"%char \/ c = "2"%char.
Proof.
  unfold legal. rewrite !orb_true_iff, !Ascii.eqb_eq. tauto.
Qed.

Lemma check_seq_for_next_next_seq p c :
  check_seq_for_next p c = negb (is_null (next_seq p c)).
Proof.
  unfold check_seq_for_next, next_seq. destruct p as [|z o t n k]; simpl.
  - rewrite !andb_false_r. reflexivity.
  - destruct (c =? "0")%char eqn:E0.
    + apply Ascii.eqb_eq in E0. subst. simpl. destruct z; reflexivity.
    + destruct (c =? "1")%char eqn:E1.
      * apply Ascii.eqb_eq in E1. subst. simpl. destruct o; reflexivity.
      * destruct (c =? "2")%char eqn:E2; simpl; [|reflexivity].
        destruct t; reflexivity.
Qed.

Lemma next_seq_legal p c : is_null (next_seq p c) = false -> legal c = true.
Proof.
  destruct p; simpl; [discriminate|]. unfold legal.
  destruct (c =? "0")%char, (c =? "1")%char, (c =? "2")%char; simpl; auto.
Qed.

Lemma next_seq_node p c : is_null (next_seq p c) = false -> is_null p = false.
Proof. destruct p; simpl; auto. Qed.

Lemma deref_node p q : is_null (deref p q) = false -> is_null p = false.
Proof.
  revert p. induction q; simpl; intros p H; auto.
  apply IHq in H. eapply next_seq_node; eauto.
Qed.

Lemma deref_prefix_node p a b :
  is_null (deref p (a ++ b)) = false -> is_null (deref p a) = false.
Proof. rewrite deref_app. apply deref_node. Qed.

Lemma walk_deref p cur rest :
  is_null (deref p cur) = false ->
  walk p cur rest =
    if is_null (deref p (cur ++ rest)) then None else Some (cur ++ rest).
Proof.
  revert cur. induction rest as [|c rest IH]; intros cur H; simpl.
  - rewrite app_nil_r, H. reflexivity.
  - rewrite check_seq_for_next_next_seq, negb_involutive.
    replace (cur ++ c :: rest) with ((cur ++ [c]) ++ rest)
      by (rewrite <- app_assoc; reflexivity).
    destruct (is_null (next_seq (deref p cur) c)) eqn:E.
    + rewrite deref_app with (a := cur ++ [c]), deref_app with (a := cur).
      simpl. destruct (next_seq (deref p cur) c); [|discriminate].
      rewrite deref_NULL. reflexivity.
    + apply IH. rewrite deref_app. simpl. exact E.
Qed.

Lemma walk_root p s :
  is_null p = false ->
  walk p [] s = if present p s then Some s else None.
Proof.
  intros H. rewrite walk_deref by exact H. unfold present. simpl.
  destruct (is_null (deref p s)); reflexivity.
Qed.

Lemma set_next_null p c v : is_null (set_next p c v) = is_null p.
Proof.
  unfold set_next.
  destruct (c =? "0")%char; [destruct p; reflexivity|].
  destruct (c =? "1")%char; [destruct p; reflexivity|].
  destruct (c =? "2")%char; [destruct p; reflexivity|reflexivity].
Qed.

Lemma next_seq_set_next_same p c v :
  is_null p = false -> legal c = true -> next_seq (set_next p c v) c = v.
Proof.
  intros Hp Hc. destruct p as [|z o t n k]; [discriminate|].
  destruct (legal_cases _ Hc) as [-> | [-> | ->]]; reflexivity.
Qed.

Lemma next_seq_set_next_other p c c' v :
  c <> c' -> next_seq (set_next p c v) c' = next_seq p c'.
Proof.
  intros Hne. unfold set_next.
  destruct (c =? "0")%char eqn:E0.
  { apply Ascii.eqb_eq in E0. subst. destruct p; simpl; auto.
    destruct (c' =? "0")%char eqn:E; auto.
    apply Ascii.eqb_eq in E. congruence. }
  destruct (c =? "1")%char eqn:E1.
  { apply Ascii.eqb_eq in E1. subst. destruct p; simpl; auto.
    destruct (c' =? "0")%char; auto.
    destruct (c' =? "1")%char eqn:E; auto.
    apply Ascii.eqb_eq in E. congruence. }
  destruct (c =? "2")%char eqn:E2; auto.
  apply Ascii.eqb_eq in E2. subst. destruct p; simpl; auto.
  destruct (c' =? "0")%char; auto.
  destruct (c' =? "1")%char; auto.
  destruct (c' =? "2")%char eqn:E; auto.
  apply Ascii.eqb_eq in E. congruence.
Qed.

Lemma set_next_next_seq p c : set_next p c (next_seq p c) = p.
Proof.
  unfold set_next, next_seq. destruct p as [|z o t n k].
  - destruct (c =? "0")%char, (c =? "1")%char, (c =? "2")%char; reflexivity.
  - destruct (c =? "0")%char; [reflexivity|].
    destruct (c =? "1")%char; [reflexivity|].
    destruct (c =? "2")%char; reflexivity.
Qed.

Lemma set_next_set_next p c v w :
  set_next (set_next p c v) c w = set_next p c w.
Proof.
  unfold set_next. destruct p as [|z o t n k].
  - destruct (c =? "0")%char, (c =? "1")%char, (c =? "2")%char; reflexivity.
  - destruct (c =? "0")%char; [reflexivity|].
    destruct (c =? "1")%char; [reflexivity|].
    destruct (c =? "2")%char; reflexivity.
Qed.

Lemma assign_deref p q : assign p q (deref p q) = p.
Proof.
  revert p. induction q as [|c q IH]; simpl; intros p; auto.
  rewrite IH. apply set_next_next_seq.
Qed.

Lemma deref_assign_under p q r v :
  is_null (deref p q) = false -> deref (assign p q v) (q ++ r) = deref v r.
Proof.
  revert p. induction q as [|c q IH]; simpl; intros p H; auto.
  pose proof (deref_node _ _ H) as Hn.
  rewrite next_seq_set_next_same.
  - apply IH. exact H.
  - eapply next_seq_node; eauto.
  - eapply next_seq_legal; eauto.
Qed.

Lemma deref_assign_same p q v :
  is_null (deref p q) = false -> deref (assign p q v) q = v.
Proof.
  intros H. rewrite <- (app_nil_r q) at 2.
  rewrite deref_assign_under by exact H. reflexivity.
Qed.

Lemma prefix_cons c s t : prefix (c :: s) (c :: t) <-> prefix s t.
Proof.
  unfold prefix. split; intros [u Hu]; exists u.
  - simpl in Hu. injection Hu as ->. reflexivity.
  - simpl. rewrite Hu. reflexivity.
Qed.

Lemma null_assign_off_path p s t v :
  is_null (deref p s) = false -> ~ prefix s t ->
  is_null (deref (assign p s v) t) = is_null (deref p t).
Proof.
  revert p t. induction s as [|c s IH]; intros p t H Hnp.
  - exfalso. apply Hnp. exists t. reflexivity.
  - simpl in H. pose proof (deref_node _ _ H) as Hn.
    destruct t as [|c' t]; simpl.
    + apply set_next_null.
    + destruct (ascii_dec c c') as [<- | Hne].
      * rewrite next_seq_set_next_same.
        -- apply IH; [exact H|]. intros Hp. apply Hnp.
           apply prefix_cons. exact Hp.
        -- eapply next_seq_node; eauto.
        -- eapply next_seq_legal; eauto.
      * rewrite next_seq_set_next_other by exact Hne. reflexivity.
Qed.

(** ** The validator and [seq_valid] *)

Lemma check_str_valid s e :
  valid s -> check_str_for_inval (Some s) e = Done 0 e.
Proof.
  intros [Hne Hl]. unfold check_str_for_inval.
  destruct s; [congruence|]. simpl List.length. simpl Nat.eqb.
  rewrite Hl. reflexivity.
Qed.

Lemma seq_valid_present p s e :
  is_null (root p) = false -> valid s ->
  seq_valid p (Some s) e = Done (if present (root p) s then 1 else 0) e.
Proof.
  intros Hr Hv. unfold seq_valid.
  rewrite (bind_eq _ _ _ _ _ _ _ (check_str_valid s e Hv)).
  change (0 =? -1) with false. cbv iota.
  rewrite Hr. unfold chars_of. rewrite walk_root by exact Hr.
  destruct (present (root p) s); reflexivity.
Qed.

Lemma contains_present p s :
  valid s -> contains p s <-> (is_null (root p) = false /\ present (root p) s = true).
Proof.
  intros Hv. split.
  - intros H. specialize (H e0).
    destruct (is_null (root p)) eqn:Hr.
    + unfold seq_valid in H.
      rewrite (bind_eq _ _ _ _ _ _ _ (check_str_valid s e0 Hv)) in H. simpl in H.
      rewrite Hr in H. discriminate.
    + split; [reflexivity|].
      rewrite seq_valid_present in H by assumption.
      destruct (present (root p) s); [reflexivity|discriminate].
  - intros [Hr Hp] e. rewrite seq_valid_present by assumption.
    rewrite Hp. reflexivity.
Qed.

Lemma lacks_present p s :
  valid s -> lacks p s <-> (is_null (root p) = false /\ present (root p) s = false).
Proof.
  intros Hv. split.
  - intros H. specialize (H e0).
    destruct (is_null (root p)) eqn:Hr.
    + unfold seq_valid in H.
      rewrite (bind_eq _ _ _ _ _ _ _ (check_str_valid s e0 Hv)) in H. simpl in H.
      rewrite Hr in H. discriminate.
    + split; [reflexivity|].
      rewrite seq_valid_present in H by assumption.
      destruct (present (root p) s); [discriminate|reflexivity].
  - intros [Hr Hp] e. rewrite seq_valid_present by assumption.
    rewrite Hp. reflexivity.
Qed.

Lemma valid_prefix t s : valid s -> t <> [] -> prefix t s -> valid t.
Proof.
  intros [_ Hl] Hne [u ->]. split; [exact Hne|].
  rewrite forallb_app in Hl. apply andb_true_iff in Hl. tauto.
Qed.

Lemma present_prefix p t s : prefix t s -> present p s = true -> present p t = true.
Proof.
  intros [u ->]. unfold present. rewrite !negb_true_iff.
  apply deref_prefix_node.
Qed.

(** ** [seq_get_name] *)

Lemma seq_get_name_cases p s e :
  is_null (root p) = false -> valid s ->
  seq_get_name p (Some s) e =
    if present (root p) s then
      match abstract_class_name (deref (root p) s) with
      | Some n => Done (Some n) e
      | None => Done None (Env 0 (mallocs e) (allocated e))
      end
    else Done None (Env 0 (mallocs e) (allocated e)).
Proof.
  intros Hr Hv. unfold seq_get_name. rewrite Hr.
  rewrite (bind_eq _ _ _ _ _ _ _ (check_str_valid s e Hv)).
  change (0 =? -1) with false. cbv iota.
  unfold chars_of. rewrite walk_root by exact Hr.
  destruct (present (root p) s) eqn:Hp; [|reflexivity].
  unfold present in Hp. apply negb_true_iff in Hp. rewrite Hp.
  destruct (abstract_class_name (deref (root p) s)); reflexivity.
Qed.

(** ** [seq_remove] *)

Lemma seq_remove_recur_done p e :
  seq_remove_recur p e =
    Done tt (Env (errno e) (mallocs e) (allocated e - blocks p)).
Proof.
  revert e. induction p as [|z IHz o IHo t IHt n c]; intros e.
  - simpl. unfold ret. destruct e; simpl. f_equal. f_equal. lia.
  - simpl. unfold bind.
    assert (Hsub : forall q e1,
      (forall e, seq_remove_recur q e =
         Done tt (Env (errno e) (mallocs e) (allocated e - blocks q))) ->
      (if negb (is_null q) then seq_remove_recur q else ret tt) e1 =
         Done tt (Env (errno e1) (mallocs e1) (allocated e1 - blocks q))).
    { intros q e1 Hq. destruct q; simpl.
      - unfold ret. destruct e1; simpl. f_equal. f_equal. lia.
      - apply Hq. }
    rewrite (Hsub z e IHz), (Hsub o _ IHo), (Hsub t _ IHt).
    destruct n; unfold free, ret; simpl; f_equal; f_equal; lia.
Qed.

Lemma seq_remove_loop_spec p rest i len cur stl :
  is_null (deref p cur) = false -> rest <> [] ->
  len = (i + List.length rest)%nat ->
  seq_remove_loop p rest i len cur stl =
    if present p (cur ++ rest)
    then Some (cur ++ rest, cur ++ removelast rest) else None.
Proof.
  revert i cur stl. induction rest as [|c rest IH]; intros i cur stl Hc Hne Hl.
  - congruence.
  - cbn [seq_remove_loop]. rewrite check_seq_for_next_next_seq, negb_involutive.
    replace (cur ++ c :: rest) with ((cur ++ [c]) ++ rest)
      by (rewrite <- app_assoc; reflexivity).
    assert (Hd : deref p (cur ++ [c]) = next_seq (deref p cur) c).
    { rewrite deref_app. reflexivity. }
    destruct (is_null (next_seq (deref p cur) c)) eqn:E.
    + unfold present. rewrite deref_app, Hd.
      destruct (next_seq (deref p cur) c); [|discriminate].
      rewrite deref_NULL. reflexivity.
    + destruct rest as [|c' rest].
      * cbn [seq_remove_loop]. simpl List.length in Hl.
        replace (i =? len - 1)%nat with true
          by (symmetry; apply Nat.eqb_eq; lia).
        unfold present. rewrite app_nil_r, Hd, E. simpl.
        rewrite app_nil_r. reflexivity.
      * replace (i =? len - 1)%nat with false
          by (symmetry; apply Nat.eqb_neq; simpl List.length in Hl; lia).
        rewrite IH.
        -- change (removelast (c :: c' :: rest)) with (c :: removelast (c' :: rest)).
           rewrite <- !app_assoc. reflexivity.
        -- rewrite Hd. exact E.
        -- discriminate.
        -- simpl List.length in *. lia.
Qed.

Lemma nth_error_last (s : list ascii) c q :
  s = q ++ [c] -> nth_error s (List.length s - 1) = Some c.
Proof.
  intros ->. rewrite length_app. simpl.
  replace (List.length q + 1 - 1)%nat with (List.length q) by lia.
  rewrite nth_error_app2 by lia. rewrite Nat.sub_diag. reflexivity.
Qed.

Lemma assign_snoc p q c v :
  assign p (q ++ [c]) v = assign p q (set_next (deref p q) c v).
Proof. rewrite assign_app. reflexivity. Qed.

Lemma seq_remove_found p s s_in e :
  is_null (root p) = false -> valid s -> present (root p) s = true ->
  seq_remove p (Some s) s_in e =
    if freed_with (root p) s s_in then Undefined
    else
      Done (1, Store (assign (root p) s NULL) (abstract_classes_amount p))
           (Env (errno e) (mallocs e)
                (allocated e - blocks (deref (root p) s))).
Proof.
  intros Hr Hv Hp. unfold seq_remove. rewrite Hr.
  rewrite (bind_eq _ _ _ _ _ _ _ (check_str_valid s e Hv)).
  change (0 =? -1) with false. cbv iota. unfold chars_of.
  destruct Hv as [Hne Hl].
  rewrite seq_remove_loop_spec by (auto; reflexivity).
  rewrite !app_nil_l, Hp.
  rewrite (bind_eq _ _ _ _ _ _ _ (seq_remove_recur_done _ e)).
  destruct (freed_with (root p) s s_in); [reflexivity|].
  destruct (exists_last Hne) as (q & c & Hs).
  rewrite (nth_error_last s c q Hs).
  subst s. rewrite !removelast_last, assign_snoc. reflexivity.
Qed.

Lemma seq_remove_present p s e :
  is_null (root p) = false -> valid s -> present (root p) s = true ->
  seq_remove p (Some s) None e =
    Done (1, Store (assign (root p) s NULL) (abstract_classes_amount p))
         (Env (errno e) (mallocs e) (allocated e - blocks (deref (root p) s))).
Proof. apply seq_remove_found. Qed.

Lemma seq_remove_absent p s s_in e :
  is_null (root p) = false -> valid s -> present (root p) s = false ->
  seq_remove p (Some s) s_in e = Done (0, p) e.
Proof.
  intros Hr Hv Hp. unfold seq_remove. rewrite Hr.
  rewrite (bind_eq _ _ _ _ _ _ _ (check_str_valid s e Hv)).
  change (0 =? -1) with false. cbv iota. unfold chars_of.
  destruct Hv as [Hne Hl].
  rewrite seq_remove_loop_spec by (auto; reflexivity).
  rewrite !app_nil_l, Hp. reflexivity.
Qed.

(** ** [seq_add] *)

Lemma set_next_illegal p c v : legal c = false -> set_next p c v = p.
Proof.
  unfold legal, set_next. intros H.
  destruct (c =? "0")%char; [discriminate|].
  destruct (c =? "1")%char; [discriminate|].
  destruct (c =? "2")%char; [discriminate|reflexivity].
Qed.

Lemma set_next_NULL c v : set_next NULL c v = NULL.
Proof.
  unfold set_next.
  destruct (c =? "0")%char, (c =? "1")%char, (c =? "2")%char; reflexivity.
Qed.

Lemma assign_assign p q v w : assign (assign p q v) q w = assign p q w.
Proof.
  revert p. induction q as [|c q IH]; intros p; simpl; auto.
  destruct (legal c) eqn:Hc.
  - destruct (is_null p) eqn:Hp.
    + destruct p; [|discriminate]. rewrite !set_next_NULL. reflexivity.
    + rewrite next_seq_set_next_same by assumption.
      rewrite IH. apply set_next_set_next.
  - rewrite !set_next_illegal by exact Hc. reflexivity.
Qed.

Lemma chain_deref u : forallb legal u = true -> deref (chain u) u = leaf.
Proof.
  induction u as [|c u IH]; simpl; intros H; [reflexivity|].
  apply andb_true_iff in H. destruct H as [Hc Hu].
  rewrite next_seq_set_next_same by auto. apply IH. exact Hu.
Qed.

Lemma chain_snoc u c :
  forallb legal u = true ->
  assign (chain u) u (set_next leaf c leaf) = chain (u ++ [c]).
Proof.
  induction u as [|a u IH]; simpl; intros H; [reflexivity|].
  apply andb_true_iff in H. destruct H as [Ha Hu].
  rewrite next_seq_set_next_same by auto.
  rewrite IH by exact Hu. apply set_next_set_next.
Qed.

Lemma blocks_chain u :
  forallb legal u = true -> blocks (chain u) = Z.of_nat (List.length u) + 1.
Proof.
  induction u as [|c u IH]; intros H; [reflexivity|].
  simpl in H. apply andb_true_iff in H. destruct H as [Hc Hu].
  specialize (IH Hu). cbn [chain List.length].
  destruct (legal_cases _ Hc) as [-> | [-> | ->]]; cbn; lia.
Qed.

Lemma new_seq_node_old p c e :
  legal c = true -> is_null (next_seq p c) = false ->
  new_seq_node p c e = Done (0, p) e.
Proof.
  intros Hc Hn. unfold new_seq_node.
  rewrite Hc, check_seq_for_next_next_seq, Hn. reflexivity.
Qed.

Lemma new_seq_node_new p c e :
  legal c = true -> is_null (next_seq p c) = true ->
  new_seq_node p c e =
    match mallocs e with
    | false :: rest => Done (-1, p) (Env ENOMEM rest (allocated e))
    | _ => Done (1, set_next p c leaf)
                (Env (errno e) (tl (mallocs e)) (allocated e + 1))
    end.
Proof.
  intros Hc Hn. unfold new_seq_node.
  rewrite Hc, check_seq_for_next_next_seq, Hn.
  change (negb true) with false. cbv iota.
  unfold bind, malloc.
  destruct (mallocs e) as [|[|] rest]; simpl;
    destruct (legal_cases _ Hc) as [-> | [-> | ->]]; reflexivity.
Qed.

Lemma next_seq_leaf c : next_seq leaf c = NULL.
Proof.
  unfold leaf, next_seq.
  destruct (c =? "0")%char, (c =? "1")%char, (c =? "2")%char; reflexivity.
Qed.

Lemma seq_add_loop_fresh s q stl c0 fi :
  is_null (deref q stl) = false -> legal c0 = true ->
  is_null (next_seq (deref q stl) c0) = true ->
  nth_error s fi = Some c0 ->
  forall rest u i added e,
  forallb legal u = true -> forallb legal rest = true -> 1 <= added ->
  exists r p' e',
    seq_add_loop s rest i
      (assign q stl (set_next (deref q stl) c0 (chain u)))
      (Some (stl ++ [c0])) ((stl ++ [c0]) ++ u) stl fi added e
    = Done (r, p') e' /\
    ((r = -1 /\ p' = q /\ errno e' = ENOMEM /\
      allocated e' = allocated e - (Z.of_nat (List.length u) + 1)) \/
     (r = 1 /\
      p' = assign q stl (set_next (deref q stl) c0 (chain (u ++ rest))) /\
      errno e' = errno e /\
      allocated e' = allocated e + Z.of_nat (List.length rest))).
Proof.
  intros Hstl Hc0 Hnew Hfi.
  set (N := deref q stl) in *.
  assert (HN : is_null N = false) by exact Hstl.
  induction rest as [|c rest IH]; intros u i added e Hu Hrest Hadd.
  - cbn [seq_add_loop]. do 3 eexists. split; [reflexivity|]. right.
    rewrite app_nil_r. replace (added >? 0) with true
      by (symmetry; apply Z.gtb_lt; lia).
    repeat split. simpl. lia.
  - simpl in Hrest. apply andb_true_iff in Hrest. destruct Hrest as [Hc Hrest].
    set (p := assign q stl (set_next N c0 (chain u))).
    assert (Hpstl : deref p stl = set_next N c0 (chain u)).
    { unfold p. apply deref_assign_same. exact Hstl. }
    assert (Hcur : deref p ((stl ++ [c0]) ++ u) = leaf).
    { rewrite <- app_assoc. rewrite deref_app, Hpstl. simpl.
      rewrite next_seq_set_next_same by auto. apply chain_deref. exact Hu. }
    cbn [seq_add_loop]. fold p. rewrite Hcur.
    unfold bind at 1.
    rewrite new_seq_node_new by (auto; rewrite next_seq_leaf; reflexivity).
    destruct (mallocs e) as [|[|] ms] eqn:Hm.
    + (* the list of outcomes is used up: success *)
      change (1 =? 1) with true. rewrite andb_false_l. cbv iota.
      change (1 =? -1) with false. cbv iota.
      replace (assign p ((stl ++ [c0]) ++ u) (set_next leaf c leaf))
        with (assign q stl (set_next N c0 (chain (u ++ [c])))).
      2:{ rewrite <- app_assoc, assign_app, Hpstl. unfold p.
          rewrite assign_assign. f_equal. simpl.
          rewrite next_seq_set_next_same by auto.
          rewrite set_next_set_next, chain_snoc by exact Hu. reflexivity. }
      replace (((stl ++ [c0]) ++ u) ++ [c]) with ((stl ++ [c0]) ++ (u ++ [c]))
        by (rewrite !app_assoc; reflexivity).
      destruct (IH (u ++ [c]) (S i) (added + 1)
                  (Env (errno e) (tl []) (allocated e + 1)))
        as (r & p' & e' & Hrun & Hres).
      { rewrite forallb_app, Hu. simpl. rewrite Hc. reflexivity. }
      { exact Hrest. }
      { lia. }
      exists r, p', e'. split; [exact Hrun|].
      destruct Hres as [(-> & -> & He & Ha) | (-> & -> & He & Ha)].
      * left. repeat split; auto. rewrite Ha, length_app. simpl. lia.
      * right. repeat split; auto.
        -- rewrite <- app_assoc. reflexivity.
        -- rewrite Ha. simpl. lia.
    + change (1 =? 1) with true. rewrite andb_false_l. cbv iota.
      change (1 =? -1) with false. cbv iota.
      replace (assign p ((stl ++ [c0]) ++ u) (set_next leaf c leaf))
        with (assign q stl (set_next N c0 (chain (u ++ [c])))).
      2:{ rewrite <- app_assoc, assign_app, Hpstl. unfold p.
          rewrite assign_assign. f_equal. simpl.
          rewrite next_seq_set_next_same by auto.
          rewrite set_next_set_next, chain_snoc by exact Hu. reflexivity. }
      replace (((stl ++ [c0]) ++ u) ++ [c]) with ((stl ++ [c0]) ++ (u ++ [c]))
        by (rewrite !app_assoc; reflexivity).
      destruct (IH (u ++ [c]) (S i) (added + 1)
                  (Env (errno e) (tl (true :: ms)) (allocated e + 1)))
        as (r & p' & e' & Hrun & Hres).
      { rewrite forallb_app, Hu. simpl. rewrite Hc. reflexivity. }
      { exact Hrest. }
      { lia. }
      exists r, p', e'. split; [exact Hrun|].
      destruct Hres as [(-> & -> & He & Ha) | (-> & -> & He & Ha)].
      * left. repeat split; auto. rewrite Ha, length_app. simpl. lia.
      * right. repeat split; auto.
        -- rewrite <- app_assoc. reflexivity.
        -- rewrite Ha. simpl. lia.
    + (* malloc fails: the nodes created so far are given back *)
      change (-1 =? 1) with false. rewrite andb_false_r. cbv iota.
      change (-1 =? -1) with true. cbv iota.
      assert (Hap : assign p ((stl ++ [c0]) ++ u) leaf = p).
      { rewrite <- Hcur. apply assign_deref. }
      rewrite Hap.
      assert (Hfa : deref p (stl ++ [c0]) = chain u).
      { rewrite deref_app, Hpstl. simpl.
        apply next_seq_set_next_same; auto. }
      rewrite Hfa, Hfi, Hpstl.
      unfold bind. rewrite seq_remove_recur_done.
      unfold ret, set_errno. cbn [errno mallocs allocated].
      do 3 eexists. split; [reflexivity|]. left.
      repeat split.
      * unfold p. rewrite assign_assign, set_next_set_next.
        destruct (next_seq N c0) eqn:E; [|discriminate].
        rewrite <- E, set_next_next_seq. unfold N. apply assign_deref.
      * rewrite blocks_chain by exact Hu. reflexivity.
Qed.

Lemma seq_add_loop_spec s q :
  forall rest cur i stl fi e,
  is_null (deref q cur) = false -> s = cur ++ rest -> i = List.length cur ->
  forallb legal rest = true ->
  exists r p' e',
    seq_add_loop s rest i q None cur stl fi 0 e = Done (r, p') e' /\
    add_result q s e r p' e'.
Proof.
  induction rest as [|c rest IH]; intros cur i stl fi e Hcur Hs Hi Hl.
  - cbn [seq_add_loop]. do 3 eexists. split; [reflexivity|]. left.
    repeat split. rewrite Hs, app_nil_r. unfold present. rewrite Hcur.
    reflexivity.
  - simpl in Hl. apply andb_true_iff in Hl. destruct Hl as [Hc Hl].
    cbn [seq_add_loop]. unfold bind at 1.
    destruct (is_null (next_seq (deref q cur) c)) eqn:Hn.
    + rewrite new_seq_node_new by assumption.
      destruct (mallocs e) as [|[|] ms] eqn:Hm.
      * change (1 =? 1) with true. cbn [andb]. cbv iota.
        change (1 =? -1) with false. cbv iota.
        assert (Hfi : nth_error s i = Some c).
        { rewrite Hs, Hi, nth_error_app2, Nat.sub_diag by lia. reflexivity. }
        destruct (seq_add_loop_fresh s q cur c i Hcur Hc Hn Hfi rest [] (S i)
                    (0 + 1) (Env (errno e) (tl []) (allocated e + 1)))
          as (r & p' & e' & Hrun & Hres); [reflexivity|exact Hl|lia|].
        rewrite app_nil_r in Hrun. exists r, p', e'. split; [exact Hrun|].
        destruct Hres as [(-> & -> & He & Ha) | (-> & -> & He & Ha)].
        -- right. right. repeat split; auto. rewrite Ha. simpl. lia.
        -- right. left. repeat split; auto.
           exists cur, c, rest. repeat split; auto.
           rewrite Ha. simpl. lia.
      * change (1 =? 1) with true. cbn [andb]. cbv iota.
        change (1 =? -1) with false. cbv iota.
        assert (Hfi : nth_error s i = Some c).
        { rewrite Hs, Hi, nth_error_app2, Nat.sub_diag by lia. reflexivity. }
        destruct (seq_add_loop_fresh s q cur c i Hcur Hc Hn Hfi rest [] (S i)
                    (0 + 1) (Env (errno e) (tl (true :: ms)) (allocated e + 1)))
          as (r & p' & e' & Hrun & Hres); [reflexivity|exact Hl|lia|].
        rewrite app_nil_r in Hrun. exists r, p', e'. split; [exact Hrun|].
        destruct Hres as [(-> & -> & He & Ha) | (-> & -> & He & Ha)].
        -- right. right. repeat split; auto. rewrite Ha. simpl. lia.
        -- right. left. repeat split; auto.
           exists cur, c, rest. repeat split; auto.
           rewrite Ha. simpl. lia.
      * change (-1 =? 1) with false. rewrite andb_false_r. cbv iota.
        change (-1 =? -1) with true. cbv iota.
        rewrite assign_deref. unfold bind, ret, set_errno.
        do 3 eexists. split; [reflexivity|]. right. right.
        repeat split.
    + rewrite new_seq_node_old by assumption.
      change (0 =? 1) with false. rewrite andb_false_r. cbv iota.
      change (0 =? -1) with false. cbv iota.
      rewrite assign_deref. change (0 + 0) with 0.
      apply IH.
      * rewrite deref_app. exact Hn.
      * rewrite <- app_assoc. exact Hs.
      * rewrite length_app. simpl. lia.
      * exact Hl.
Qed.

Lemma seq_add_spec p s e :
  is_null (root p) = false -> valid s ->
  exists r p' e',
    seq_add p (Some s) e = Done (r, Store p' (abstract_classes_amount p)) e' /\
    add_result (root p) s e r p' e'.
Proof.
  intros Hr Hv. unfold seq_add. rewrite Hr.
  rewrite (bind_eq _ _ _ _ _ _ _ (check_str_valid s e Hv)).
  change (0 =? -1) with false. cbv iota.
  destruct (seq_add_loop_spec s (root p) s [] 0%nat [] 0%nat e)
    as (r & p' & e' & Hrun & Hres); auto.
  { apply Hv. }
  exists r, p', e'. split; [|exact Hres].
  unfold bind. rewrite Hrun. reflexivity.
Qed.

Lemma assign_node p q v : q <> [] -> is_null (assign p q v) = is_null p.
Proof. destruct q; [congruence|]. intros _. simpl. apply set_next_null. Qed.

(** ** C9: [seq_remove] *)

(** C9.  For a valid sequence [s]: when some non-empty prefix of [s] is not in
    the store, [seq_remove] returns 0 and changes nothing.  When [s] is in the
    store and is held in a buffer that the removal does not free, it returns
    1, and afterwards [seq_valid] answers 0 for [s] and for every sequence
    that has [s] as a prefix, and answers for every other sequence what it
    answered before.  But [seq_remove] frees the subtree, names included,
    before it reads [s[length - 1]] to detach the node: when [s] is held in
    the name buffer of a node at [s] or below, the call reads a freed buffer
    and has no defined behaviour.  So it is in the store where "0" has the
    name "0", for [seq_remove] of the pointer that [seq_get_name] gives for
    "0". *)
Theorem seq_remove_cascades :
  (forall p s s_in e,
     valid s ->
     ((exists t, t <> [] /\ prefix t s /\ lacks p t) ->
      seq_remove p (Some s) s_in e = Done (0, p) e) /\
     ((forall t, t <> [] -> prefix t s -> contains p t) ->
      (freed_with (root p) s s_in = true ->
       seq_remove p (Some s) s_in e = Undefined) /\
      (freed_with (root p) s s_in = false ->
       exists p' e',
         seq_remove p (Some s) s_in e = Done (1, p') e' /\
         forall t, valid t ->
           (prefix s t -> lacks p' t) /\
           (~ prefix s t -> (contains p' t <-> contains p t))))) /\
  (p <- run [OAdd (sq "0"); OSetName (sq "0") (Some "0"%string) None]
         store_empty ;;
   n <- seq_get_name p (sq "0") ;;
   seq_remove p (option_map list_ascii_of_string n)
     (Some (list_ascii_of_string "0"))) e0
  = Undefined.
Proof.
  split; [|vm_compute; reflexivity].
  intros p s s_in e Hv. split.
  - intros (t & Hne & Hpre & Hlack).
    apply lacks_present in Hlack; [|eapply valid_prefix; eauto].
    destruct Hlack as [Hr Hlack]. apply seq_remove_absent; auto.
    destruct (present (root p) s) eqn:Hp; [|reflexivity].
    rewrite (present_prefix _ _ _ Hpre Hp) in Hlack. discriminate.
  - intros Hall.
    assert (Hc : contains p s).
    { apply Hall; [apply Hv|]. exists []. rewrite app_nil_r. reflexivity. }
    apply contains_present in Hc; [|exact Hv]. destruct Hc as [Hr Hp].
    rewrite seq_remove_found by assumption.
    split; intros Hf; rewrite Hf; [reflexivity|].
    do 2 eexists. split; [reflexivity|].
    assert (Hs : is_null (deref (root p) s) = false).
    { unfold present in Hp. apply negb_true_iff in Hp. exact Hp. }
    assert (Hr' : is_null (assign (root p) s NULL) = false).
    { rewrite assign_node; [exact Hr|apply Hv]. }
    intros t Ht. split.
    + intros [u ->]. apply lacks_present; [exact Ht|]. simpl. split; [exact Hr'|].
      unfold present. rewrite deref_assign_under by exact Hs.
      rewrite deref_NULL. reflexivity.
    + intros Hnp. rewrite !contains_present by exact Ht. simpl.
      unfold present. rewrite null_assign_off_path by assumption.
      rewrite Hr, Hr'. tauto.
Qed.

Lemma seq_remove_cascades_witness :
  seq_remove store_0_01_02 (sq "1") None e0 = Done (0, store_0_01_02) e0 /\
  exists p' e',
    seq_remove store_0_01_02 (sq "0") None e0 = Done (1, p') e' /\
    forall t, valid t ->
      (prefix (list_ascii_of_string "0") t -> lacks p' t) /\
      (~ prefix (list_ascii_of_string "0") t ->
       (contains p' t <-> contains store_0_01_02 t)).
Proof.
  split.
  - apply (proj1 seq_remove_cascades store_0_01_02
             (list_ascii_of_string "1") None e0).
    + split; [discriminate|reflexivity].
    + exists (list_ascii_of_string "1"). split; [discriminate|]. split.
      * exists []. reflexivity.
      * intros e. reflexivity.
  - apply (proj1 seq_remove_cascades store_0_01_02
             (list_ascii_of_string "0") None e0).
    + split; [discriminate|reflexivity].
    + intros t Hne [u Hu]. destruct t as [|c t]; [congruence|].
      destruct t; [|destruct t; discriminate].
      injection Hu as <-. intros e. reflexivity.
    + reflexivity.
Defined.

(** ** C4: [seq_get_name] *)

(** C4, as the code has it.  For a valid sequence [s], [seq_get_name] returns
    NULL and sets [errno] to 0 both when the path for [s] is missing and when
    the node is there without a name: the caller gets the same result in the
    two cases.  When the node is there with a name, that name is returned and
    [errno] is left alone. *)
Theorem seq_get_name_outcomes p s e :
  valid s ->
  (lacks p s ->
   seq_get_name p (Some s) e = Done None (Env 0 (mallocs e) (allocated e))) /\
  (contains p s -> abstract_class_name (deref (root p) s) = None ->
   seq_get_name p (Some s) e = Done None (Env 0 (mallocs e) (allocated e))) /\
  (forall n, contains p s ->
     abstract_class_name (deref (root p) s) = Some n ->
     seq_get_name p (Some s) e = Done (Some n) e).
Proof.
  intros Hv. repeat split.
  - intros H. apply lacks_present in H; [|exact Hv]. destruct H as [Hr Hp].
    rewrite seq_get_name_cases, Hp by assumption. reflexivity.
  - intros H Hn. apply contains_present in H; [|exact Hv].
    destruct H as [Hr Hp].
    rewrite seq_get_name_cases, Hp, Hn by assumption. reflexivity.
  - intros n H Hn. apply contains_present in H; [|exact Hv].
    destruct H as [Hr Hp].
    rewrite seq_get_name_cases, Hp, Hn by assumption. reflexivity.
Qed.

Lemma seq_get_name_outcomes_witness :
  seq_get_name store_0_01_02 (sq "1") (Env EINVAL [] 0) = Done None e0 /\
  seq_get_name store_0_01_02 (sq "0") (Env EINVAL [] 0) = Done None e0 /\
  seq_get_name (Store (Node (Node NULL NULL NULL (Some "A"%string) 1)
                        NULL NULL None (-1)) 1)
    (sq "0") (Env EINVAL [] 0) = Done (Some "A"%string) (Env EINVAL [] 0).
Proof.
  assert (Hv1 : valid (list_ascii_of_string "1"))
    by (split; [discriminate|reflexivity]).
  assert (Hv0 : valid (list_ascii_of_string "0"))
    by (split; [discriminate|reflexivity]).
  split; [|split].
  - apply (proj1 (seq_get_name_outcomes store_0_01_02 _ (Env EINVAL [] 0) Hv1)).
    intros e. reflexivity.
  - apply (proj1 (proj2 (seq_get_name_outcomes store_0_01_02 _
                           (Env EINVAL [] 0) Hv0))).
    + intros e. reflexivity.
    + reflexivity.
  - apply (proj2 (proj2 (seq_get_name_outcomes _ _ (Env EINVAL [] 0) Hv0))).
    + intros e. reflexivity.
    + reflexivity.
Defined.

(** C4, as stated, fails: in a store where "1" is missing and "0" is there
    without a name, the caller of [seq_get_name] cannot tell the two apart,
    neither by the pointer returned nor by [errno] nor by the store. *)
Lemma seq_get_name_missing_like_unnamed :
  lacks store_0_01_02 (list_ascii_of_string "1") /\
  contains store_0_01_02 (list_ascii_of_string "0") /\
  abstract_class_name
    (deref (root store_0_01_02) (list_ascii_of_string "0")) = None /\
  forall e,
    seq_get_name store_0_01_02 (sq "1") e
    = seq_get_name store_0_01_02 (sq "0") e.
Proof.
  split; [|split; [|split]].
  - intros e. reflexivity.
  - intros e. reflexivity.
  - reflexivity.
  - intros e. reflexivity.
Qed.

(** ** C2: allocation failure inside [seq_add] *)

(** C2.  For a valid sequence [s], [seq_add] always returns; and when it
    returns -1 (an allocation failed while nodes were being created) the
    store is what it was before the call: the tree is the same, every block
    allocated during the call has been freed, [seq_valid] answers as before
    for every argument, and [errno] is ENOMEM. *)
Theorem seq_add_failure_restores p s e :
  is_null (root p) = false -> valid s ->
  (exists r p' e', seq_add p (Some s) e = Done (r, p') e') /\
  (forall r p' e',
     seq_add p (Some s) e = Done (r, p') e' -> r = -1 ->
     p' = p /\ errno e' = ENOMEM /\ allocated e' = allocated e /\
     forall t e1, seq_valid p' t e1 = seq_valid p t e1).
Proof.
  intros Hr Hv.
  destruct (seq_add_spec p s e Hr Hv) as (r & p' & e' & Hrun & Hres).
  split; [eauto|].
  intros r1 p1 e1 Hrun1 ->. rewrite Hrun in Hrun1.
  injection Hrun1 as -> <- <-.
  destruct Hres as [(H & _) | [(H & _) | (_ & -> & He & Ha)]];
    try discriminate.
  destruct p as [rt amt]. simpl. auto.
Qed.

Lemma seq_add_failure_restores_witness :
  seq_add store_0_01_02 (sq "0120") (Env 0 [true; false] 5)
  = Done (-1, store_0_01_02) (Env ENOMEM [] 5) /\
  (store_0_01_02 = store_0_01_02 /\
   errno (Env ENOMEM [] 5) = ENOMEM /\
   allocated (Env ENOMEM [] 5) = allocated (Env 0 [true; false] 5) /\
   forall t e1, seq_valid store_0_01_02 t e1 = seq_valid store_0_01_02 t e1).
Proof.
  assert (Hv : valid (list_ascii_of_string "0120"))
    by (split; [discriminate|reflexivity]).
  assert (Hrun : seq_add store_0_01_02 (sq "0120") (Env 0 [true; false] 5)
                 = Done (-1, store_0_01_02) (Env ENOMEM [] 5))
    by (vm_compute; reflexivity).
  split; [exact Hrun|].
  exact (proj2 (seq_add_failure_restores store_0_01_02
                  (list_ascii_of_string "0120") (Env 0 [true; false] 5)
                  eq_refl Hv)
               (-1) store_0_01_02 (Env ENOMEM [] 5) Hrun eq_refl).
Defined.

(** ** C7: prefix closure *)

Lemma contains_prefix p s t :
  valid s -> t <> [] -> prefix t s -> contains p s -> contains p t.
Proof.
  intros Hv Hne Hpre Hc.
  pose proof (valid_prefix t s Hv Hne Hpre) as Hvt.
  apply contains_present in Hc; [|exact Hv]. destruct Hc as [Hr Hp].
  apply contains_present; [exact Hvt|]. split; [exact Hr|].
  eapply present_prefix; eauto.
Qed.

Lemma seq_add_null p s e :
  is_null (root p) = true -> exists e', seq_add p s e = Done (-1, p) e'.
Proof.
  intros Hr. unfold seq_add. rewrite Hr. eexists. reflexivity.
Qed.

Lemma seq_add_contains p s e r p' e' :
  valid s -> seq_add p (Some s) e = Done (r, p') e' -> r <> -1 ->
  contains p' s.
Proof.
  intros Hv Hrun Hr.
  destruct (is_null (root p)) eqn:Hn.
  { destruct (seq_add_null p (Some s) e Hn) as (e1 & H1).
    rewrite H1 in Hrun. injection Hrun as <- _ _. congruence. }
  destruct (seq_add_spec p s e Hn Hv) as (r1 & q & e1 & Hrun1 & Hres).
  rewrite Hrun1 in Hrun. injection Hrun as -> <- ->.
  apply contains_present; [exact Hv|]. simpl.
  assert (Hp : present q s = true).
  { destruct Hres as [(_ & -> & _ & Hp) | [(_ & _ & Hex) | (-> & _)]];
      [exact Hp| |congruence].
    destruct Hex as (pre & c0 & u & -> & Hpre & Hnew & -> & _).
    destruct Hv as [_ Hl]. rewrite forallb_app in Hl.
    apply andb_true_iff in Hl. destruct Hl as [_ Hl]. simpl in Hl.
    apply andb_true_iff in Hl. destruct Hl as [Hc0 Hu].
    unfold present. rewrite deref_assign_under by exact Hpre. simpl.
    rewrite next_seq_set_next_same by auto.
    rewrite chain_deref by exact Hu. reflexivity. }
  split; [|exact Hp].
  unfold present in Hp. apply negb_true_iff in Hp.
  eapply deref_node; eauto.
Qed.

(** C7.  In every store reached from [seq_new] by calls of the public
    operations, a sequence that [seq_valid] finds has all its non-empty
    prefixes found too; and after a call of [seq_add] for [s] that did not
    fail, [s] and all its non-empty prefixes are found. *)
Theorem prefix_closure ops e p0 e1 p e2 :
  seq_new e = Done p0 e1 -> run ops p0 e1 = Done p e2 ->
  (forall s t, valid s -> t <> [] -> prefix t s ->
     contains p s -> contains p t) /\
  (forall s e3 r p' e4,
     valid s -> seq_add p (Some s) e3 = Done (r, p') e4 -> r <> -1 ->
     forall t, t <> [] -> prefix t s -> contains p' t).
Proof.
  intros _ _. split.
  - intros s t. apply contains_prefix.
  - intros s e3 r p' e4 Hv Hrun Hr t Hne Hpre.
    eapply contains_prefix; eauto. eapply seq_add_contains; eauto.
Qed.

Lemma prefix_closure_witness :
  contains (Store (Node (Node NULL (Node NULL NULL leaf None (-1)) NULL
                           None (-1)) NULL NULL None (-1)) 0)
           (list_ascii_of_string "01") /\
  contains (Store (Node (Node NULL (Node NULL NULL leaf None (-1)) leaf
                           None (-1)) NULL NULL None (-1)) 0)
           (list_ascii_of_string "0").
Proof.
  assert (Hnew : seq_new e0 = Done store_empty (Env 0 [] 2))
    by (vm_compute; reflexivity).
  assert (Hrun : run [OAdd (sq "012")] store_empty (Env 0 [] 2)
                 = Done (Store (Node (Node NULL (Node NULL NULL leaf None (-1))
                                        NULL None (-1)) NULL NULL None (-1)) 0)
                        (Env 0 [] 5))
    by (vm_compute; reflexivity).
  assert (Hv : valid (list_ascii_of_string "012"))
    by (split; [discriminate|reflexivity]).
  assert (Hv2 : valid (list_ascii_of_string "02"))
    by (split; [discriminate|reflexivity]).
  split.
  - apply (proj1 (prefix_closure _ _ _ _ _ _ Hnew Hrun)
             (list_ascii_of_string "012") (list_ascii_of_string "01") Hv).
    + discriminate.
    + exists (list_ascii_of_string "2"). reflexivity.
    + intros e. reflexivity.
  - apply (proj2 (prefix_closure _ _ _ _ _ _ Hnew Hrun)
             (list_ascii_of_string "02") (Env 0 [] 5) 1 _ (Env 0 [] 6) Hv2).
    + vm_compute. reflexivity.
    + discriminate.
    + discriminate.
    + exists (list_ascii_of_string "2"). reflexivity.
Defined.

(** ** [recur_seq_name] and [seq_set_name] *)

Lemma replace_or_set_seq_name_node z o t name c n h e :
  freed h = false ->
  replace_or_set_seq_name (Node z o t name c) n h e =
    let e1 := if is_some name
              then Env (errno e) (mallocs e) (allocated e - 1) else e in
    let gone := is_some name && here h in
    match mallocs e1 with
    | false :: rest =>
        Done (-1, Node z o t None c, gone) (Env ENOMEM rest (allocated e1))
    | _ => if gone then Undefined
           else Done (1, Node z o t (Some n) c, false)
                     (Env (errno e1) (tl (mallocs e1)) (allocated e1 + 1))
    end.
Proof.
  intros Hf. unfold replace_or_set_seq_name. rewrite Hf.
  unfold bind, malloc, free, ret, set_errno, undefined.
  destruct name; cbn [is_some set_name mallocs andb]; cbv zeta.
  - destruct (mallocs e) as [|[|] ms]; destruct (here h); reflexivity.
  - destruct (mallocs e) as [|[|] ms]; reflexivity.
Qed.

Lemma recur_seq_name_result p n cls e :
  exists r p' e',
    recur_seq_name p n Outside cls e = Done (r, p', false) e' /\
    (r = 0 \/ r = 1).
Proof.
  revert e. induction p as [|z IHz o IHo t IHt name c]; intros e.
  - do 3 eexists. split; [reflexivity|]. auto.
  - cbn [recur_seq_name below]. unfold bind at 1.
    destruct (IHz e) as (rz & z' & e1 & -> & Hz).
    cbv beta iota zeta. cbn [below]. unfold bind at 1.
    destruct (IHo e1) as (ro & o' & e2 & -> & Ho).
    cbv beta iota zeta. cbn [below]. unfold bind at 1.
    destruct (IHt e2) as (rt & t' & e3 & -> & Ht).
    cbv beta iota zeta.
    replace ((rz =? -1) || (ro =? -1) || (rt =? -1)) with false
      by (destruct Hz as [-> | ->], Ho as [-> | ->], Ht as [-> | ->];
          reflexivity).
    cbv iota. cbn [abstract_class].
    destruct (c =? cls).
    + unfold bind. rewrite replace_or_set_seq_name_node by reflexivity.
      cbv zeta. cbn [here]. rewrite andb_false_r.
      destruct (mallocs _) as [|[|] ms];
        do 3 eexists; (split; [reflexivity|]); auto.
    + do 3 eexists. split; [reflexivity|]. auto.
Qed.

Lemma replace_or_set_seq_name_returns z o t name c n h e r p' f e' :
  replace_or_set_seq_name (Node z o t name c) n h e = Done (r, p', f) e' ->
  (r = 1 \/ r = -1) /\ exists name', p' = Node z o t name' c.
Proof.
  destruct (freed h) eqn:Hf.
  { unfold replace_or_set_seq_name. rewrite Hf. discriminate. }
  rewrite replace_or_set_seq_name_node by exact Hf. cbv zeta.
  destruct (mallocs _) as [|[|] ms]; try destruct (is_some name && here h);
    intros H; try discriminate; injection H as <- <- <- <-;
    (split; [auto|eexists; reflexivity]).
Qed.

Lemma recur_seq_name_returns p n cls : forall h e r p' f e',
  recur_seq_name p n h cls e = Done (r, p', f) e' -> r = 0 \/ r = 1.
Proof.
  induction p as [|z IHz o IHo t IHt name c]; intros h e r p' f e' H.
  - injection H as <- _ _ _. auto.
  - cbn [recur_seq_name] in H.
    inv_bind_as H x e1 H1. destruct x as [[rz z'] fz].
    apply IHz in H1.
    inv_bind_as H x e2 H2. destruct x as [[ro o'] fo].
    apply IHo in H2.
    inv_bind_as H x e3 H3. destruct x as [[rt t'] ft].
    apply IHt in H3.
    replace ((rz =? -1) || (ro =? -1) || (rt =? -1)) with false in H
      by (destruct H1 as [-> | ->], H2 as [-> | ->], H3 as [-> | ->];
          reflexivity).
    cbv zeta in H. cbn [abstract_class] in H. destruct (c =? cls).
    + inv_bind_as H x e4 H4. destruct x as [[r1 q] f1]. inv_done H.
      destruct (r1 =? 1); auto.
    + injection H as <- _ _ _. auto.
Qed.

(** C3.  The scan of [recur_seq_name] neither stops at an allocation failure
    nor reports it: the function never returns -1, because the -1 of
    [replace_or_set_seq_name] goes through [== 1] and comes out as 0.  In the
    store with "0" and "1" in class 1 named "A", renaming through "0" with the
    first allocation failing returns 1; node "0" is left without a name, the
    scan goes on to node "1" and renames it. *)
Theorem recur_seq_name_hides_failure :
  (forall p n cls e,
     exists r p' e',
       recur_seq_name p n Outside cls e = Done (r, p', false) e' /\
       r <> -1) /\
  (forall p n h cls e r p' f e',
     recur_seq_name p n h cls e = Done (r, p', f) e' -> r <> -1) /\
  seq_set_name store_class_of_two (sq "0") (Some "B"%string) None
    (Env 0 [false] 4)
  = Done (1, Store (Node (Node NULL NULL NULL None 1)
                         (Node NULL NULL NULL (Some "B"%string) 1)
                         NULL None (-1)) 1)
         (Env ENOMEM [] 3).
Proof.
  split; [|split].
  - intros p n cls e.
    destruct (recur_seq_name_result p n cls e) as (r & p' & e' & H & Hr).
    exists r, p', e'. split; [exact H|]. lia.
  - intros p n h cls e r p' f e' H.
    apply recur_seq_name_returns in H. lia.
  - vm_compute. reflexivity.
Qed.

Lemma malloc_all_succeed e :
  all_succeed e ->
  malloc e = Done true (Env (errno e) (tl (mallocs e)) (allocated e + 1)) /\
  all_succeed (Env (errno e) (tl (mallocs e)) (allocated e + 1)).
Proof.
  unfold all_succeed, malloc. destruct (mallocs e) as [|[|] ms]; simpl;
    intros H; try discriminate; auto.
Qed.

Lemma recur_seq_name_renamed p n cls e :
  all_succeed e ->
  exists e',
    recur_seq_name p n Outside cls e
    = Done ((if is_null p then 0 else 1), renamed p n cls, false) e' /\
    all_succeed e' /\ errno e' = errno e.
Proof.
  revert e. induction p as [|z IHz o IHo t IHt name c]; intros e He.
  - exists e. repeat split. exact He.
  - cbn [recur_seq_name renamed is_null below]. unfold bind at 1.
    destruct (IHz e He) as (e1 & -> & He1 & Hn1).
    cbv beta iota zeta. cbn [below]. unfold bind at 1.
    destruct (IHo e1 He1) as (e2 & -> & He2 & Hn2).
    cbv beta iota zeta. cbn [below]. unfold bind at 1.
    destruct (IHt e2 He2) as (e3 & -> & He3 & Hn3).
    cbv beta iota zeta.
    replace (((if is_null z then 0 else 1) =? -1)
             || ((if is_null o then 0 else 1) =? -1)
             || ((if is_null t then 0 else 1) =? -1)) with false
      by (destruct (is_null z), (is_null o), (is_null t); reflexivity).
    cbv iota. cbn [abstract_class].
    destruct (c =? cls).
    + unfold bind. rewrite replace_or_set_seq_name_node by reflexivity.
      cbv zeta. cbn [here]. rewrite andb_false_r.
      set (e4 := if is_some name
                 then Env (errno e3) (mallocs e3) (allocated e3 - 1) else e3).
      assert (He4 : all_succeed e4 /\ errno e4 = errno e3).
      { unfold e4. destruct (is_some name); auto. }
      destruct He4 as [He4 Hn4]. unfold all_succeed in He4.
      destruct (mallocs e4) as [|[|] ms] eqn:Hm; simpl in He4;
        try discriminate.
      * eexists. split; [reflexivity|]. split; [reflexivity|].
        simpl. congruence.
      * eexists. split; [reflexivity|]. split; [exact He4|].
        simpl. congruence.
    + eexists. split; [reflexivity|]. split; [exact He3|]. congruence.
Qed.

Lemma next_seq_renamed p n cls c :
  next_seq (renamed p n cls) c = renamed (next_seq p c) n cls.
Proof.
  destruct p; simpl; [reflexivity|].
  destruct (c =? "0")%char; [reflexivity|].
  destruct (c =? "1")%char; [reflexivity|].
  destruct (c =? "2")%char; reflexivity.
Qed.

Lemma deref_renamed p n cls q :
  deref (renamed p n cls) q = renamed (deref p q) n cls.
Proof.
  revert p. induction q as [|c q IH]; intros p; simpl; [reflexivity|].
  rewrite next_seq_renamed. apply IH.
Qed.

Lemma string_compare_refl s : (s ?= s)%string = Eq.
Proof.
  pose proof (String.compare_antisym s s) as H.
  destruct (s ?= s)%string; simpl in H; congruence.
Qed.

Lemma strcmp_some a b e :
  strcmp (Some a) (Some b) e
  = Done (match (a ?= b)%string with Eq => 0 | Lt => -1 | Gt => 1 end) e.
Proof. reflexivity. Qed.

Lemma strcmp_zero a b :
  (match (a ?= b)%string with Eq => 0 | Lt => -1 | Gt => 1 end =? 0) = true
  <-> a = b.
Proof.
  split.
  - destruct (a ?= b)%string eqn:E; try discriminate.
    intros _. apply String.compare_eq_iff. exact E.
  - intros ->. rewrite string_compare_refl. reflexivity.
Qed.

Lemma name_nonempty n :
  n <> ""%string -> (Z.of_nat (String.length n) + 1 - 1 =? 0) = false.
Proof.
  intros H. apply Z.eqb_neq. destruct n; [congruence|]. simpl String.length. lia.
Qed.

Lemma freed_below h c : freed h = false -> freed (below h c) = false.
Proof.
  destruct h as [|[|c' q]|]; simpl; auto. destruct (c' =? c)%char; auto.
Qed.

Lemma renames_buffer_below p h cls c :
  renames_buffer (next_seq p c) (below h c) cls = true ->
  renames_buffer p h cls = true.
Proof.
  destruct h as [|[|c' q]|]; simpl; try discriminate.
  destruct (c' =? c)%char eqn:E; [|discriminate].
  apply Ascii.eqb_eq in E. subst c'. auto.
Qed.

Lemma renames_buffer_child z o t name c0 h cls c :
  renames_buffer (Node z o t name c0) h cls = false ->
  renames_buffer (next_seq (Node z o t name c0) c) (below h c) cls = false.
Proof.
  intros H. destruct (renames_buffer (next_seq _ c) _ cls) eqn:E; [|auto].
  apply renames_buffer_below in E. congruence.
Qed.

(** An argument that is not held in a name of the class is read as one held
    by the caller. *)
Lemma recur_seq_name_outside p n cls : forall h e r p' e',
  recur_seq_name p n Outside cls e = Done (r, p', false) e' ->
  freed h = false -> renames_buffer p h cls = false ->
  recur_seq_name p n h cls e = Done (r, p', false) e'.
Proof.
  induction p as [|z IHz o IHo t IHt name c]; intros h e r p' e' H Hf Hb.
  - cbn [recur_seq_name] in *. unfold ret in *. rewrite Hf. exact H.
  - cbn [recur_seq_name below] in H.
    inv_bind_as H x e1 H1. destruct x as [[rz z'] fz].
    destruct (recur_seq_name_result z n cls e) as (a1 & b1 & c1 & R1 & _).
    rewrite R1 in H1. injection H1 as <- <- <- <-. cbv beta iota zeta in H.
    cbn [below] in H.
    inv_bind_as H x e2 H2. destruct x as [[ro o'] fo].
    destruct (recur_seq_name_result o n cls c1) as (a2 & b2 & c2 & R2 & _).
    rewrite R2 in H2. injection H2 as <- <- <- <-. cbv beta iota zeta in H.
    cbn [below] in H.
    inv_bind_as H x e3 H3. destruct x as [[rt t'] ft].
    destruct (recur_seq_name_result t n cls c2) as (a3 & b3 & c3 & R3 & _).
    rewrite R3 in H3. injection H3 as <- <- <- <-. cbv beta iota zeta in H.
    cbn [recur_seq_name].
    rewrite (bind_eq _ _ _ _ _ _ _
               (IHz (below h "0"%char) _ _ _ _ R1 (freed_below _ _ Hf)
                  (renames_buffer_child z o t name c h cls "0"%char Hb))).
    cbv beta iota zeta.
    rewrite (bind_eq _ _ _ _ _ _ _
               (IHo (below h "1"%char) _ _ _ _ R2 (freed_below _ _ Hf)
                  (renames_buffer_child z o t name c h cls "1"%char Hb))).
    cbv beta iota zeta.
    rewrite (bind_eq _ _ _ _ _ _ _
               (IHt (below h "2"%char) _ _ _ _ R3 (freed_below _ _ Hf)
                  (renames_buffer_child z o t name c h cls "2"%char Hb))).
    cbv beta iota zeta.
    destruct ((a1 =? -1) || (a2 =? -1) || (a3 =? -1)).
    { unfold ret in *. rewrite Hf. exact H. }
    cbn [abstract_class] in *. destruct (c =? cls) eqn:Ec.
    + unfold bind in *.
      rewrite replace_or_set_seq_name_node in * by (exact Hf || reflexivity).
      cbv zeta in *. cbn [here] in H. rewrite andb_false_r in H.
      replace (is_some name && here h) with false; [exact H|].
      destruct h as [|[|c' q]|]; cbn [here]; rewrite ?andb_false_r; auto.
      cbn [renames_buffer deref abstract_class_name abstract_class] in Hb.
      rewrite Ec, andb_true_r in Hb. rewrite Hb. reflexivity.
    + unfold ret in *. rewrite Hf. exact H.
Qed.

(** An argument held in a name of the class is read after the name has been
    freed. *)
Lemma recur_seq_name_freed n cls : forall q p e,
  renames_buffer p (Name_of q) cls = true -> all_succeed e ->
  recur_seq_name p n (Name_of q) cls e = Undefined.
Proof.
  induction q as [|c q IH]; intros p e Hb He.
  - destruct p as [|z o t name c0]; [discriminate|].
    cbn [renames_buffer deref abstract_class_name abstract_class] in Hb.
    apply andb_true_iff in Hb. destruct Hb as [Hname Hcls].
    cbn [recur_seq_name below].
    destruct (recur_seq_name_renamed z n cls e He) as (e1 & Hz & He1 & _).
    rewrite (bind_eq _ _ _ _ _ _ _ Hz). cbv beta iota zeta. cbn [below].
    destruct (recur_seq_name_renamed o n cls e1 He1) as (e2 & Ho & He2 & _).
    rewrite (bind_eq _ _ _ _ _ _ _ Ho). cbv beta iota zeta. cbn [below].
    destruct (recur_seq_name_renamed t n cls e2 He2) as (e3 & Ht & He3 & _).
    rewrite (bind_eq _ _ _ _ _ _ _ Ht). cbv beta iota zeta.
    replace (((if is_null z then 0 else 1) =? -1)
             || ((if is_null o then 0 else 1) =? -1)
             || ((if is_null t then 0 else 1) =? -1)) with false
      by (destruct (is_null z), (is_null o), (is_null t); reflexivity).
    cbn [abstract_class]. rewrite Hcls. unfold bind.
    rewrite replace_or_set_seq_name_node by reflexivity. cbv zeta.
    rewrite Hname. cbn [here andb mallocs].
    unfold all_succeed in He3.
    destruct (mallocs e3) as [|[|] ms]; simpl in He3; try discriminate;
      reflexivity.
  - destruct p as [|z o t name c0];
      [cbn [renames_buffer] in Hb; rewrite deref_NULL in Hb; discriminate|].
    cbn [renames_buffer deref next_seq] in Hb.
    cbn [recur_seq_name below].
    destruct (c =? "0")%char eqn:E0.
    { apply Ascii.eqb_eq in E0. subst c. cbn [Ascii.eqb Bool.eqb].
      unfold bind at 1. rewrite (IH z e Hb He). reflexivity. }
    destruct (recur_seq_name_renamed z n cls e He) as (e1 & Hz & He1 & _).
    rewrite (bind_eq _ _ _ _ _ _ _ Hz). cbv beta iota zeta. cbn [below].
    destruct (c =? "1")%char eqn:E1.
    { apply Ascii.eqb_eq in E1. subst c. cbn [Ascii.eqb Bool.eqb].
      unfold bind at 1. rewrite (IH o e1 Hb He1). reflexivity. }
    destruct (recur_seq_name_renamed o n cls e1 He1) as (e2 & Ho & He2 & _).
    rewrite (bind_eq _ _ _ _ _ _ _ Ho). cbv beta iota zeta. cbn [below].
    destruct (c =? "2")%char eqn:E2.
    { apply Ascii.eqb_eq in E2. subst c. cbn [Ascii.eqb Bool.eqb].
      unfold bind at 1. rewrite (IH t e2 Hb He2). reflexivity. }
    rewrite deref_NULL in Hb. discriminate.
Qed.

Lemma seq_set_name_enter p s n n_in e :
  valid s -> n <> ""%string -> contains p s ->
  abstract_class (deref (root p) s) <> -1 ->
  abstract_class_name (deref (root p) s) <> Some n ->
  seq_set_name p (Some s) (Some n) n_in e
  = ('(r, rt, _) <-
       recur_seq_name (root p) n (origin_of n_in)
         (abstract_class (deref (root p) s)) ;;
     ret (r, Store rt (abstract_classes_amount p))) e.
Proof.
  intros Hv Hn Hc Hcls Hname.
  apply contains_present in Hc; [|exact Hv]. destruct Hc as [Hr Hp].
  unfold seq_set_name. rewrite Hr.
  rewrite (bind_eq _ _ _ _ _ _ _ (check_str_valid s e Hv)).
  change (0 =? -1) with false. cbv iota.
  rewrite name_nonempty by exact Hn. unfold chars_of.
  rewrite walk_root, Hp by exact Hr. cbv zeta.
  apply Z.eqb_neq in Hcls. rewrite Hcls.
  destruct (abstract_class_name (deref (root p) s)) as [cn|] eqn:Hcn.
  - unfold bind at 1. unfold bind at 1. rewrite strcmp_some. unfold ret at 1.
    destruct (_ =? 0) eqn:E; [|reflexivity].
    apply strcmp_zero in E. congruence.
  - reflexivity.
Qed.

Lemma seq_set_name_rename p s n n_in e :
  valid s -> n <> ""%string -> contains p s ->
  abstract_class (deref (root p) s) <> -1 ->
  abstract_class_name (deref (root p) s) <> Some n ->
  all_succeed e ->
  renames_buffer (root p) (origin_of n_in) (abstract_class (deref (root p) s))
  = false ->
  exists e',
    seq_set_name p (Some s) (Some n) n_in e
    = Done (1, Store (renamed (root p) n (abstract_class (deref (root p) s)))
                     (abstract_classes_amount p)) e'.
Proof.
  intros Hv Hn Hc Hcls Hname He Hb.
  rewrite seq_set_name_enter by assumption.
  apply contains_present in Hc; [|exact Hv]. destruct Hc as [Hr Hp].
  destruct (recur_seq_name_renamed (root p) n
              (abstract_class (deref (root p) s)) e He) as (e' & Hrun & _).
  rewrite Hr in Hrun.
  apply (recur_seq_name_outside _ _ _ (origin_of n_in)) in Hrun;
    [|destruct n_in; reflexivity|exact Hb].
  exists e'. unfold bind. rewrite Hrun. reflexivity.
Qed.

Lemma seq_set_name_freed p s n q e :
  valid s -> n <> ""%string -> contains p s ->
  abstract_class (deref (root p) s) <> -1 ->
  abstract_class_name (deref (root p) s) <> Some n ->
  all_succeed e ->
  renames_buffer (root p) (Name_of q) (abstract_class (deref (root p) s))
  = true ->
  seq_set_name p (Some s) (Some n) (Some q) e = Undefined.
Proof.
  intros Hv Hn Hc Hcls Hname He Hb.
  rewrite seq_set_name_enter by assumption.
  unfold bind. cbn [origin_of]. rewrite recur_seq_name_freed by assumption.
  reflexivity.
Qed.

(** C5.  When the node of [s] has a class, its name is not [n], and no
    allocation fails: if [n] is held in a buffer of the caller, or in a name
    of the store that is not a name of that class, [seq_set_name] returns 1
    and afterwards every node of the store whose class is that of the node
    of [s] has the name [n]; the nodes, their classes, and the names of the
    nodes of other classes are as before.  So in the store with "0" named "A"
    and "01" joined to it by [seq_equiv], naming "0" as "Z" makes
    [seq_get_name] answer "Z" for "01".  But [replace_or_set_seq_name] frees
    the name of a node before it copies [n]: when [n] is held in the name
    buffer of a node of the class, the copy reads a freed buffer and the call
    has no defined behaviour.  Two reachable cases: "0" and "1" in one class,
    "1" named "B" and "0" left without a name by a failed allocation, and "0"
    is named with the pointer that [seq_get_name] gives for "1"; and "0"
    named "AB" is named "B" with the pointer [seq_get_name] gives for "0",
    advanced by one character. *)
Theorem seq_set_name_broadcast :
  (forall p s n n_in e,
     valid s -> n <> ""%string -> contains p s ->
     abstract_class (deref (root p) s) <> -1 ->
     abstract_class_name (deref (root p) s) <> Some n ->
     all_succeed e ->
     (renames_buffer (root p) (origin_of n_in)
        (abstract_class (deref (root p) s)) = true ->
      seq_set_name p (Some s) (Some n) n_in e = Undefined) /\
     (renames_buffer (root p) (origin_of n_in)
        (abstract_class (deref (root p) s)) = false ->
      exists p' e',
        seq_set_name p (Some s) (Some n) n_in e = Done (1, p') e' /\
        abstract_classes_amount p' = abstract_classes_amount p /\
        forall q,
          is_null (deref (root p') q) = is_null (deref (root p) q) /\
          abstract_class (deref (root p') q)
          = abstract_class (deref (root p) q) /\
          (is_null (deref (root p) q) = false ->
           abstract_class (deref (root p) q)
           = abstract_class (deref (root p) s) ->
           abstract_class_name (deref (root p') q) = Some n) /\
          (abstract_class (deref (root p) q)
           <> abstract_class (deref (root p) s) ->
           abstract_class_name (deref (root p') q)
           = abstract_class_name (deref (root p) q)))) /\
  (p <- run [OAdd (sq "0"); OAdd (sq "01");
             OSetName (sq "0") (Some "A"%string) None;
             OEquiv (at_address 1 "0") (at_address 2 "01");
             OSetName (sq "0") (Some "Z"%string) None] store_empty ;;
   seq_get_name p (sq "01")) e0
  = Done (Some "Z"%string) (Env 0 [] 4) /\
  rename_after_failure None
  = Done (None, Some "B"%string,
          (1, Store (Node (Node NULL NULL NULL (Some "B"%string) 2)
                          (Node NULL NULL NULL (Some "B"%string) 2)
                          NULL None (-1)) 2))
         (Env 0 [] 6) /\
  rename_after_failure (Some (list_ascii_of_string "1")) = Undefined /\
  (p <- run [OAdd (sq "0"); OSetName (sq "0") (Some "AB"%string) None]
         store_empty ;;
   seq_set_name p (sq "0") (Some "B"%string)
     (Some (list_ascii_of_string "0"))) e0
  = Undefined.
Proof.
  split; [|split; [|split; [|split]]]; [|vm_compute; reflexivity..].
  intros p s n n_in e Hv Hn Hc Hcls Hname He. split.
  { intros Hb. destruct n_in as [q|]; [|discriminate].
    apply seq_set_name_freed; assumption. }
  intros Hb.
  destruct (seq_set_name_rename p s n n_in e Hv Hn Hc Hcls Hname He Hb)
    as (e' & Hrun).
  do 2 eexists. split; [exact Hrun|]. split; [reflexivity|].
  intros q. cbn [root]. rewrite deref_renamed.
  destruct (deref (root p) q) as [|z o t name c]; cbn.
  - repeat split; auto. discriminate.
  - repeat split.
    + intros _ ->. rewrite Z.eqb_refl. reflexivity.
    + intros Hne. apply Z.eqb_neq in Hne. rewrite Hne. reflexivity.
Qed.

Lemma seq_set_name_broadcast_witness :
  exists p' e',
    seq_set_name store_class_of_two (sq "0") (Some "Z"%string) None e0
    = Done (1, p') e' /\
    abstract_class_name (deref (root p') (list_ascii_of_string "1"))
    = Some "Z"%string.
Proof.
  destruct (proj2 (proj1 seq_set_name_broadcast store_class_of_two
                     (list_ascii_of_string "0") "Z"%string None e0
                     ltac:(split; [discriminate|reflexivity])
                     ltac:(discriminate)
                     ltac:(intros e; reflexivity)
                     ltac:(discriminate)
                     ltac:(discriminate)
                     eq_refl) eq_refl)
    as (p' & e' & Hrun & _ & Hall).
  exists p', e'. split; [exact Hrun|].
  apply (Hall (list_ascii_of_string "1")); reflexivity.
Defined.

(** ** Trees that differ in names and in nodes moved to one new class *)

Lemma reclass_refl n p : reclass n p p.
Proof. induction p; constructor; auto. Qed.

Lemma reclass_trans n p1 p2 p3 :
  reclass n p1 p2 -> reclass n p2 p3 -> reclass n p1 p3.
Proof.
  intros H12. revert p3.
  induction H12 as [|z o t nm c z' o' t' nm' c' Hz IHz Ho IHo Ht IHt Hc];
    intros p3 H23.
  - exact H23.
  - inversion H23 as [|? ? ? ? ? z3 o3 t3 nm3 c3 Hz3 Ho3 Ht3 Hc3]; subst.
    constructor; auto.
    destruct Hc; destruct Hc3; subst; auto.
Qed.

Lemma reclass_null n p p' : reclass n p p' -> is_null p' = is_null p.
Proof. destruct 1; reflexivity. Qed.

Lemma reclass_class n p p' :
  reclass n p p' ->
  abstract_class p' = abstract_class p \/ abstract_class p' = n.
Proof. destruct 1; simpl; auto. Qed.

Lemma reclass_next_seq n p p' c :
  reclass n p p' -> reclass n (next_seq p c) (next_seq p' c).
Proof.
  destruct 1; simpl; [constructor|].
  destruct (c =? "0")%char; auto.
  destruct (c =? "1")%char; auto.
  destruct (c =? "2")%char; auto. constructor.
Qed.

Lemma reclass_deref n p p' q :
  reclass n p p' -> reclass n (deref p q) (deref p' q).
Proof.
  revert p p'. induction q as [|c q IH]; intros p p' H; simpl; auto.
  apply IH. apply reclass_next_seq. exact H.
Qed.

Lemma reclass_set_next n p c v v' :
  reclass n v v' -> reclass n (set_next p c v) (set_next p c v').
Proof.
  intros H. unfold set_next.
  destruct (c =? "0")%char.
  { destruct p; simpl; constructor; auto using reclass_refl. }
  destruct (c =? "1")%char.
  { destruct p; simpl; constructor; auto using reclass_refl. }
  destruct (c =? "2")%char.
  { destruct p; simpl; constructor; auto using reclass_refl. }
  apply reclass_refl.
Qed.

Lemma reclass_assign n p q v :
  reclass n (deref p q) v -> reclass n p (assign p q v).
Proof.
  revert p. induction q as [|c q IH]; intros p H; simpl in *; auto.
  rewrite <- (set_next_next_seq p c) at 1.
  apply reclass_set_next. apply IH. exact H.
Qed.

Lemma reclass_classes n p p' c :
  reclass n p p' -> In c (classes p') -> In c (classes p) \/ c = n.
Proof.
  induction 1 as [|z o t nm k z' o' t' nm' k' Hz IHz Ho IHo Ht IHt Hk];
    simpl; intros Hin; [tauto|].
  rewrite !in_app_iff in *.
  destruct Hin as [<- | [Hin | [Hin | Hin]]].
  - destruct Hk; subst; auto.
  - destruct (IHz Hin); auto.
  - destruct (IHo Hin); auto.
  - destruct (IHt Hin); auto.
Qed.

Lemma reclass_set_class n p : reclass n p (set_class p n).
Proof. destruct p; simpl; constructor; auto using reclass_refl. Qed.

Lemma reclass_set_name n p name : reclass n p (set_name p name).
Proof. destruct p; simpl; constructor; auto using reclass_refl. Qed.

Lemma reclass_present n p p' q :
  reclass n p p' -> present p' q = present p q.
Proof.
  intros H. unfold present. f_equal.
  apply (reclass_null n). apply reclass_deref. exact H.
Qed.

(** ** [node_change] and [recur_equiv] *)

Lemma node_change_NULL n1 n2 v e : node_change NULL n1 n2 v e = Done (0, NULL) e.
Proof. reflexivity. Qed.

Lemma node_change_node z o t name c n1 n2 v e r p' e' :
  node_change (Node z o t name c) n1 n2 v e = Done (r, p') e' ->
  exists name', p' = Node z o t name' v /\ (r = 1 \/ r = -1).
Proof.
  unfold node_change, singular_name, merge_names, strcmp, bind, malloc,
    free, ret, set_errno, undefined.
  destruct name, n1 as [a|], n2 as [b|]; cbn;
    try destruct (a ?= b)%string; cbn;
    destruct (mallocs e) as [|[|] ms]; cbn;
    intros H; try discriminate; injection H as <- <- <-;
    eexists; (split; [reflexivity|]); auto.
Qed.

Lemma node_change_reclass p n1 n2 v e r p' e' :
  node_change p n1 n2 v e = Done (r, p') e' ->
  reclass v p p' /\ (is_null p = false -> abstract_class p' = v).
Proof.
  destruct p as [|z o t name c].
  - rewrite node_change_NULL. intros H. injection H as <- <- <-.
    split; [constructor|discriminate].
  - intros H. apply node_change_node in H. destruct H as (name' & -> & _).
    split; [|reflexivity]. constructor; auto using reclass_refl.
Qed.

Lemma recur_equiv_reclass p a b n n1 n2 e r p' e' :
  recur_equiv p a b n n1 n2 e = Done (r, p') e' -> reclass n p p'.
Proof.
  revert e r p' e'. induction p as [|z IHz o IHo t IHt name c];
    intros e r p' e' H.
  - injection H as <- <- <-. constructor.
  - cbn [recur_equiv] in H.
    inv_bind H. destruct a0 as [rz z']. apply IHz in H0.
    inv_bind H. destruct a0 as [ro o']. apply IHo in H1.
    inv_bind H. destruct a0 as [rt t']. apply IHt in H2.
    destruct ((ro =? -1) || (rt =? -1) || (rz =? -1)).
    + injection H as <- <- <-. constructor; auto.
    + destruct (negb (c =? -1) && ((c =? a) || (c =? b))).
      * apply node_change_node in H. destruct H as (name' & -> & _).
        constructor; auto.
      * injection H as <- <- <-. constructor; auto.
Qed.

(** ** [seq_equiv] *)

Lemma check_str_cases s e :
  (valid s /\ check_str_for_inval (Some s) e = Done 0 e) \/
  (exists e', check_str_for_inval (Some s) e = Done (-1) e').
Proof.
  unfold check_str_for_inval.
  destruct s as [|c s]; [right; eexists; reflexivity|].
  cbn [List.length Nat.eqb].
  destruct (forallb legal (c :: s)) eqn:Hl.
  - left. split; [|reflexivity]. split; [discriminate|exact Hl].
  - right. eexists. reflexivity.
Qed.

Lemma seq_equiv_outcome p s1 s2 e r p' e' :
  seq_equiv p s1 s2 e = Done (r, p') e' ->
  (p' = p /\ r <> 1) \/
  (exists c1 c2,
     s1 = Some c1 /\ s2 = Some c2 /\
     is_null (root p) = false /\ valid (chars c1) /\ valid (chars c2) /\
     address c1 <> address c2 /\
     present (root p) (chars c1) = true /\
     present (root p) (chars c2) = true /\
     abstract_classes_amount p' = wrap_int (abstract_classes_amount p + 1) /\
     reclass (abstract_classes_amount p') (root p) (root p') /\
     (r = 1 \/ r = -1) /\
     (r = 1 ->
      abstract_class (deref (root p') (chars c1)) = abstract_classes_amount p' /\
      abstract_class (deref (root p') (chars c2)) = abstract_classes_amount p')).
Proof.
  unfold seq_equiv. destruct (is_null (root p)) eqn:Hr.
  { intros H. inv_bind H. inv_done H. left. split; [reflexivity|lia]. }
  destruct s1 as [c1|]; [|intros H; inv_bind H; inv_done H; left;
                           split; [reflexivity|lia]].
  destruct s2 as [c2|]; [|intros H; inv_bind H; inv_done H; left;
                           split; [reflexivity|lia]].
  destruct (check_str_cases (chars c1) e) as [[Hv1 Hk1] | [e1 Hk1]];
    rewrite (bind_eq _ _ _ _ _ _ _ Hk1).
  2:{ intros H. inv_done H. left. split; [reflexivity|lia]. }
  change (0 =? -1) with false. cbv iota.
  destruct (check_str_cases (chars c2) e) as [[Hv2 Hk2] | [e2 Hk2]];
    rewrite (bind_eq _ _ _ _ _ _ _ Hk2).
  2:{ intros H. inv_done H. left. split; [reflexivity|lia]. }
  change (0 =? -1) with false. cbv iota.
  destruct (address c1 =? address c2) eqn:Ha.
  { intros H. inv_done H. left. split; [reflexivity|lia]. }
  apply Z.eqb_neq in Ha.
  rewrite !walk_root by exact Hr.
  destruct (present (root p) (chars c1)) eqn:Hp1;
    [|intros H; inv_done H; left; split; [reflexivity|lia]].
  destruct (present (root p) (chars c2)) eqn:Hp2;
    [|intros H; inv_done H; left; split; [reflexivity|lia]].
  cbv zeta.
  destruct (negb (abstract_class (deref (root p) (chars c1)) =? -1)
            && (abstract_class (deref (root p) (chars c1))
                =? abstract_class (deref (root p) (chars c2)))).
  { intros H. inv_done H. left. split; [reflexivity|lia]. }
  set (n := wrap_int (abstract_classes_amount p + 1)).
  set (rt1 := assign (root p) (chars c1)
                (set_class (deref (root p) (chars c1)) n)).
  set (rt2 := assign rt1 (chars c2) (set_class (deref rt1 (chars c2)) n)).
  assert (R1 : reclass n (root p) rt1).
  { apply reclass_assign, reclass_set_class. }
  assert (R2 : reclass n (root p) rt2).
  { eapply reclass_trans; [exact R1|].
    apply reclass_assign, reclass_set_class. }
  intros H. right. exists c1, c2.
  do 8 (split; [solve [auto]|]).
  inv_bind H. destruct (negb a).
  { inv_bind H. inv_done H. cbn [abstract_classes_amount root]. fold n.
    repeat split; auto. discriminate. discriminate. }
  inv_bind H. destruct (negb a0).
  { inv_bind H. inv_done H. cbn [abstract_classes_amount root]. fold n.
    repeat split; auto. discriminate. discriminate. }
  inv_bind H. destruct a1 as [r1 node1].
  pose proof (node_change_reclass _ _ _ _ _ _ _ _ H2) as [N1 C1].
  set (rt3 := assign rt2 (chars c1) node1) in *.
  assert (R3 : reclass n rt2 rt3) by (apply reclass_assign; exact N1).
  assert (P3 : forall q, present rt3 q = present (root p) q).
  { intros q. rewrite (reclass_present n rt2 rt3), (reclass_present n (root p) rt2);
      auto. }
  assert (D31 : abstract_class (deref rt3 (chars c1)) = n).
  { unfold rt3. rewrite deref_assign_same.
    - apply C1. rewrite <- (reclass_present n (root p) rt2) in Hp1 by exact R2.
      unfold present in Hp1. apply negb_true_iff in Hp1. exact Hp1.
    - rewrite <- (reclass_present n (root p) rt2) in Hp1 by exact R2.
      unfold present in Hp1. apply negb_true_iff in Hp1. exact Hp1. }
  destruct (r1 =? -1).
  { inv_done H. cbn [abstract_classes_amount root]. fold n.
    split; [reflexivity|]. split; [eapply reclass_trans; eauto|].
    split; [auto|discriminate]. }
  inv_bind H. destruct a1 as [r2 node2].
  pose proof (node_change_reclass _ _ _ _ _ _ _ _ H3) as [N2 C2].
  set (rt4 := assign rt3 (chars c2) node2) in *.
  assert (R4 : reclass n rt3 rt4) by (apply reclass_assign; exact N2).
  assert (Hn32 : is_null (deref rt3 (chars c2)) = false).
  { specialize (P3 (chars c2)). rewrite Hp2 in P3. unfold present in P3.
    apply negb_true_iff in P3. exact P3. }
  assert (D42 : abstract_class (deref rt4 (chars c2)) = n).
  { unfold rt4. rewrite deref_assign_same by exact Hn32. apply C2. exact Hn32. }
  assert (D41 : abstract_class (deref rt4 (chars c1)) = n).
  { destruct (reclass_class n _ _ (reclass_deref n rt3 rt4 (chars c1) R4));
      congruence. }
  destruct (r2 =? -1).
  { inv_done H. cbn [abstract_classes_amount root]. fold n.
    split; [reflexivity|].
    split; [eapply reclass_trans; [|exact R4]; eapply reclass_trans; eauto|].
    split; [auto|discriminate]. }
  inv_bind H. destruct a1 as [rz z']. apply recur_equiv_reclass in H4.
  inv_bind H. destruct a1 as [ro o'].
  assert (Hn4 : is_null rt4 = false).
  { rewrite (reclass_null n rt3 rt4 R4), (reclass_null n rt2 rt3 R3),
      (reclass_null n (root p) rt2 R2). exact Hr. }
  destruct rt4 as [|z4 o4 t4 nm4 k4] eqn:E4; [discriminate|].
  cbn [set_next_zero next_one next_zero next_two set_next_one set_next_two]
    in *.
  apply recur_equiv_reclass in H5.
  inv_bind H. destruct a1 as [rt t'].
  apply recur_equiv_reclass in H6.
  assert (R5 : reclass n (Node z4 o4 t4 nm4 k4) (Node z' o' t' nm4 k4)).
  { constructor; auto. }
  assert (R05 : reclass n (root p) (Node z' o' t' nm4 k4)).
  { eapply reclass_trans; [exact R2|]. eapply reclass_trans; [exact R3|].
    eapply reclass_trans; [exact R4|]. exact R5. }
  assert (D51 : abstract_class (deref (Node z' o' t' nm4 k4) (chars c1)) = n).
  { destruct (reclass_class n _ _ (reclass_deref n _ _ (chars c1) R5));
      congruence. }
  assert (D52 : abstract_class (deref (Node z' o' t' nm4 k4) (chars c2)) = n).
  { destruct (reclass_class n _ _ (reclass_deref n _ _ (chars c2) R5));
      congruence. }
  inv_bind H. inv_bind H.
  destruct (negb (rz =? -1) && negb (ro =? -1) && negb (rt =? -1));
    inv_done H; cbn [abstract_classes_amount root]; fold n;
    repeat split; auto; discriminate.
Qed.

Lemma seq_equiv_same_class p s1 s2 e :
  valid (chars s1) -> valid (chars s2) ->
  contains p (chars s1) -> contains p (chars s2) ->
  abstract_class (deref (root p) (chars s1)) <> -1 ->
  abstract_class (deref (root p) (chars s1))
  = abstract_class (deref (root p) (chars s2)) ->
  seq_equiv p (Some s1) (Some s2) e = Done (0, p) e.
Proof.
  intros Hv1 Hv2 Hc1 Hc2 Hne Heq.
  apply contains_present in Hc1; [|exact Hv1]. destruct Hc1 as [Hr Hp1].
  apply contains_present in Hc2; [|exact Hv2]. destruct Hc2 as [_ Hp2].
  unfold seq_equiv. rewrite Hr.
  rewrite (bind_eq _ _ _ _ _ _ _ (check_str_valid _ e Hv1)).
  change (0 =? -1) with false. cbv iota.
  rewrite (bind_eq _ _ _ _ _ _ _ (check_str_valid _ e Hv2)).
  change (0 =? -1) with false. cbv iota.
  destruct (address s1 =? address s2); [reflexivity|].
  rewrite !walk_root, Hp1, Hp2 by exact Hr. cbv zeta.
  rewrite <- Heq, Z.eqb_refl.
  apply Z.eqb_neq in Hne. rewrite Hne. reflexivity.
Qed.

Lemma wrap_int_succ a : 0 <= a < INT_MAX -> wrap_int (a + 1) = a + 1.
Proof.
  unfold wrap_int, INT_MAX. intros H.
  rewrite Z.mod_small; lia.
Qed.

Lemma wrap_int_succ_not_none a : 0 <= a <= INT_MAX -> wrap_int (a + 1) <> -1.
Proof.
  intros H. destruct (Z.eq_dec a INT_MAX) as [-> | Hne].
  - vm_compute. discriminate.
  - rewrite wrap_int_succ by lia. lia.
Qed.

(** ** C8: the class counter *)

Lemma classes_next_seq p c k : In k (classes (next_seq p c)) -> In k (classes p).
Proof.
  destruct p as [|z o t name x]; simpl; [tauto|].
  rewrite !in_app_iff.
  destruct (c =? "0")%char; [tauto|].
  destruct (c =? "1")%char; [tauto|].
  destruct (c =? "2")%char; [tauto|]. simpl. tauto.
Qed.

Lemma classes_deref p q k : In k (classes (deref p q)) -> In k (classes p).
Proof.
  revert p. induction q as [|c q IH]; intros p; simpl; auto.
  intros H. apply IH in H. eapply classes_next_seq; eauto.
Qed.

Lemma classes_set_next p c v k :
  In k (classes (set_next p c v)) -> In k (classes p) \/ In k (classes v).
Proof.
  unfold set_next.
  destruct (c =? "0")%char.
  { destruct p; simpl; rewrite ?in_app_iff; tauto. }
  destruct (c =? "1")%char.
  { destruct p; simpl; rewrite ?in_app_iff; tauto. }
  destruct (c =? "2")%char.
  { destruct p; simpl; rewrite ?in_app_iff; tauto. }
  tauto.
Qed.

Lemma classes_assign p q v k :
  In k (classes (assign p q v)) -> In k (classes p) \/ In k (classes v).
Proof.
  revert p. induction q as [|c q IH]; intros p; simpl; auto.
  intros H. apply classes_set_next in H. destruct H as [H | H]; auto.
  apply IH in H. destruct H as [H | H]; auto.
  left. eapply classes_next_seq; eauto.
Qed.

Lemma classes_chain u k : In k (classes (chain u)) -> k = -1.
Proof.
  induction u as [|c u IH]; simpl.
  - intros [H | []]. auto.
  - intros H. apply classes_set_next in H. destruct H as [[H | []] | H]; auto.
Qed.

Lemma seq_add_classes p s e r p' e' :
  seq_add p s e = Done (r, p') e' ->
  abstract_classes_amount p' = abstract_classes_amount p /\
  forall k, In k (classes (root p')) -> In k (classes (root p)) \/ k = -1.
Proof.
  intros H. destruct (is_null (root p)) eqn:Hr.
  { destruct (seq_add_null p s e Hr) as (e1 & H1). rewrite H1 in H.
    injection H as <- <- <-. auto. }
  destruct s as [s|].
  - destruct (check_str_cases s e) as [[Hv Hk] | [e1 Hk]].
    + destruct (seq_add_spec p s e Hr Hv) as (r1 & q & e1 & Hrun & Hres).
      rewrite Hrun in H. injection H as <- <- <-.
      split; [reflexivity|]. cbn [root].
      destruct Hres as [(_ & -> & _) | [(_ & _ & Hex) | (_ & -> & _)]]; auto.
      destruct Hex as (pre & c0 & u & _ & _ & _ & -> & _).
      intros k Hin. apply classes_assign in Hin.
      destruct Hin as [Hin | Hin]; auto.
      apply classes_set_next in Hin. destruct Hin as [Hin | Hin].
      * left. eapply classes_deref; eauto.
      * right. eapply classes_chain; eauto.
    + unfold seq_add in H. rewrite Hr in H.
      rewrite (bind_eq _ _ _ _ _ _ _ Hk) in H. inv_done H. auto.
  - unfold seq_add in H. rewrite Hr in H. inv_bind H. inv_done H. auto.
Qed.

Lemma seq_remove_classes p s s_in e r p' e' :
  seq_remove p s s_in e = Done (r, p') e' ->
  abstract_classes_amount p' = abstract_classes_amount p /\
  forall k, In k (classes (root p')) -> In k (classes (root p)) \/ k = -1.
Proof.
  intros H. unfold seq_remove in H.
  destruct (is_null (root p)) eqn:Hr.
  { inv_bind H. inv_done H. auto. }
  inv_bind H. destruct (a =? -1); [inv_done H; auto|].
  cbv zeta in H.
  destruct (seq_remove_loop _ _ _ _ _ _) as [[cur stl]|];
    [|inv_done H; auto].
  inv_bind H. destruct (freed_with _ _ _); [discriminate|].
  inv_done H. split; [reflexivity|]. cbn [root].
  destruct (nth_error _ _); auto.
  intros k Hin. apply classes_assign in Hin.
  destruct Hin as [Hin | Hin]; auto.
  apply classes_set_next in Hin. destruct Hin as [Hin | []].
  left. eapply classes_deref; eauto.
Qed.

Lemma recur_seq_name_reclass k p n cls : forall h e r p' f e',
  recur_seq_name p n h cls e = Done (r, p', f) e' -> reclass k p p'.
Proof.
  induction p as [|z IHz o IHo t IHt name c]; intros h e r p' f e' H.
  - injection H as _ <- _ _. constructor.
  - cbn [recur_seq_name] in H.
    inv_bind_as H x e1 H1. destruct x as [[rz z'] fz]. apply IHz in H1.
    inv_bind_as H x e2 H2. destruct x as [[ro o'] fo]. apply IHo in H2.
    inv_bind_as H x e3 H3. destruct x as [[rt t'] ft]. apply IHt in H3.
    cbv zeta in H. destruct ((rz =? -1) || (ro =? -1) || (rt =? -1)).
    + injection H as _ <- _ _. constructor; auto.
    + cbn [abstract_class] in H. destruct (c =? cls).
      * inv_bind_as H x e4 H4. destruct x as [[r1 q] f1].
        apply replace_or_set_seq_name_returns in H4.
        destruct H4 as (_ & name' & ->).
        inv_done H. constructor; auto.
      * injection H as _ <- _ _. constructor; auto.
Qed.

Lemma seq_set_name_outcome p s n n_in e r p' e' :
  seq_set_name p s n n_in e = Done (r, p') e' ->
  (abstract_classes_amount p' = abstract_classes_amount p /\
   reclass (-1) (root p) (root p')) \/
  (abstract_classes_amount p' = wrap_int (abstract_classes_amount p + 1) /\
   reclass (abstract_classes_amount p') (root p) (root p')).
Proof.
  intros H. unfold seq_set_name in H.
  destruct (is_null (root p)) eqn:Hr.
  { inv_bind H. inv_done H. left. auto using reclass_refl. }
  inv_bind H. destruct (a =? -1).
  { inv_done H. left. auto using reclass_refl. }
  destruct n as [n|]; [|inv_bind H; inv_done H; left; auto using reclass_refl].
  cbv zeta in H. destruct (_ =? 0).
  { inv_bind H. inv_done H. left. auto using reclass_refl. }
  destruct (walk _ _ _) as [cur|];
    [|inv_done H; left; auto using reclass_refl].
  destruct (abstract_class (deref (root p) cur) =? -1).
  - inv_bind H. destruct (negb a0).
    + inv_bind H. inv_done H. left. split; [reflexivity|]. cbn [root].
      apply reclass_assign, reclass_set_name.
    + inv_done H. right. split; [reflexivity|]. cbn [root abstract_classes_amount].
      apply reclass_assign.
      eapply reclass_trans; [apply reclass_set_name|apply reclass_set_class].
  - inv_bind H. destruct a0.
    + inv_done H. left. auto using reclass_refl.
    + inv_bind H. destruct a0 as [[r1 rt] f1]. inv_done H. left.
      split; [reflexivity|]. cbn [root].
      eapply recur_seq_name_reclass; eauto.
Qed.

Lemma step_outcome o p e p' e' :
  step o p e = Done p' e' ->
  (abstract_classes_amount p' = abstract_classes_amount p /\
   forall k, In k (classes (root p')) -> In k (classes (root p)) \/ k = -1) \/
  (abstract_classes_amount p' = wrap_int (abstract_classes_amount p + 1) /\
   forall k, In k (classes (root p')) ->
             In k (classes (root p)) \/ k = abstract_classes_amount p').
Proof.
  destruct o as [s | s s_in | s | s n n_in | s | s1 s2]; cbn [step];
    intros H.
  - inv_bind H. destruct a as [r q]. inv_done H. left.
    eapply seq_add_classes; eauto.
  - inv_bind H. destruct a as [r q]. inv_done H. left.
    eapply seq_remove_classes; eauto.
  - inv_bind H. inv_done H. left. auto.
  - inv_bind H. destruct a as [r q]. inv_done H.
    apply seq_set_name_outcome in H0.
    destruct H0 as [[Ha R] | [Ha R]]; [left | right];
      (split; [exact Ha|]); intros k Hin; eapply reclass_classes; eauto.
  - inv_bind H. inv_done H. left. auto.
  - inv_bind H. destruct a as [r q]. inv_done H.
    apply seq_equiv_outcome in H0.
    destruct H0 as [[-> _] | (c1 & c2 & _ & _ & _ & _ & _ & _ & _ & _ & Ha & R & _)].
    + left. auto.
    + right. split; [exact Ha|]. intros k Hin. eapply reclass_classes; eauto.
Qed.

Lemma step_inv o p e p' e' :
  store_inv p -> abstract_classes_amount p < INT_MAX ->
  step o p e = Done p' e' ->
  store_inv p' /\
  abstract_classes_amount p <= abstract_classes_amount p'
  <= abstract_classes_amount p + 1.
Proof.
  intros [Hamt Hcls] Hlt H. apply step_outcome in H.
  destruct H as [[Ha Hk] | [Ha Hk]].
  - split; [|lia]. split; [lia|]. intros k Hin. rewrite Ha.
    destruct (Hk k Hin) as [Hin' | ->]; auto.
  - rewrite wrap_int_succ in Ha by lia.
    split; [|lia]. split; [unfold INT_MAX in *; lia|]. intros k Hin.
    destruct (Hk k Hin) as [Hin' | ->].
    + destruct (Hcls k Hin'); [auto|right; lia].
    + right. lia.
Qed.


Lemma seq_new_inv e p0 e1 :
  seq_new e = Done p0 e1 -> abstract_classes_amount p0 = 0 /\ store_inv p0.
Proof.
  unfold seq_new. intros H. inv_bind H. inv_bind H.
  destruct (negb a || negb a0).
  - do 3 inv_bind H. inv_done H. split; [reflexivity|].
    split; [cbn; unfold INT_MAX; lia|]. intros k [].
  - inv_done H. split; [reflexivity|].
    split; [cbn; unfold INT_MAX; lia|]. intros k [<- | []]. auto.
Qed.



(** ** C1: the name of a merged class *)

Lemma node_change_first_NULL z o t name c b v e :
  node_change (Node z o t name c) None (Some b) v e = Undefined.
Proof.
  unfold node_change, bind, free, ret. destruct name; reflexivity.
Qed.

(** C1.  When only the second endpoint has a name, [node_change] hands a
    NULL first name to [strcmp]: the call has no defined behaviour, and so
    has [seq_equiv] on the store where "0" has no name and "1" is named "B"
    (with the arguments the other way round both get the name "B").  In the
    other cases the policy holds: with no name on either endpoint both stay
    unnamed; on the store with "0" named "A", "1" named "B", "2" named "A"
    and "00" unnamed, merging "0" with "00" names both "A", merging "0" with
    "2" names both "A", and merging "0" with "1" names both "AB". *)
Theorem seq_equiv_second_name_only_undefined :
  (forall z o t name c b v e,
     node_change (Node z o t name c) None (Some b) v e = Undefined) /\
  seq_equiv store_second_named (at_address 1 "0") (at_address 2 "1") e0
  = Undefined /\
  names_after_equiv store_second_named "1" "0" e0
  = Done (Some "B"%string, Some "B"%string) (Env 0 [] 1) /\
  names_after_equiv store_0_01_02 "0" "01" e0 = Done (None, None) e0 /\
  names_after_equiv store_three_named "0" "00" e0
  = Done (Some "A"%string, Some "A"%string) (Env 0 [] 1) /\
  names_after_equiv store_three_named "0" "2" e0
  = Done (Some "A"%string, Some "A"%string) e0 /\
  names_after_equiv store_three_named "0" "1" e0
  = Done (Some "AB"%string, Some "AB"%string) e0.
Proof.
  split; [exact node_change_first_NULL|].
  repeat split; vm_compute; reflexivity.
Qed.

(** ** C10: [seq_equiv] of a sequence with itself *)

Lemma seq_equiv_same_pointer p s e :
  is_null (root p) = false -> valid (chars s) ->
  seq_equiv p (Some s) (Some s) e = Done (0, p) e.
Proof.
  intros Hr Hv. unfold seq_equiv. rewrite Hr.
  rewrite (bind_eq _ _ _ _ _ _ _ (check_str_valid _ e Hv)).
  change (0 =? -1) with false. cbv iota.
  rewrite (bind_eq _ _ _ _ _ _ _ (check_str_valid _ e Hv)).
  change (0 =? -1) with false. cbv iota.
  rewrite Z.eqb_refl. reflexivity.
Qed.

(** C10.  [seq_equiv] tests [s1 == s2] on the pointers.  Given the same
    pointer twice it returns 0 and changes nothing.  Given two buffers that
    hold the same sequence "0", whose node has no class, it goes on: it
    returns 1, the counter goes from 0 to 1 and the node of "0" is put in the
    new class 1. *)
Theorem seq_equiv_equal_sequences_mint :
  seq_equiv store_0_01_02 (at_address 1 "0") (at_address 1 "0") e0
  = Done (0, store_0_01_02) e0 /\
  seq_equiv store_0_01_02 (at_address 1 "0") (at_address 2 "0") e0
  = Done (1, Store (Node (Node NULL leaf leaf None 1) NULL NULL None (-1)) 1)
         e0.
Proof. split; vm_compute; reflexivity. Qed.

(** ** [seq_equiv] when no allocation fails *)

Lemma all_succeed_malloc e :
  all_succeed e ->
  exists e', malloc e = Done true e' /\ all_succeed e' /\ errno e' = errno e.
Proof.
  intros H. destruct (malloc_all_succeed e H) as [Hm Hs].
  eexists. split; [exact Hm|]. split; [exact Hs|reflexivity].
Qed.

Lemma all_succeed_free e :
  all_succeed e ->
  exists e', free e = Done tt e' /\ all_succeed e' /\ errno e' = errno e.
Proof. intros H. eexists. split; [reflexivity|]. split; [exact H|reflexivity]. Qed.

Lemma node_change_relabel p n1 n2 v e :
  all_succeed e -> (n1 = None -> n2 = None) ->
  exists e',
    node_change p n1 n2 v e
    = Done ((if is_null p then 0 else 1), relabel p v (merged_name n1 n2)) e'
    /\ all_succeed e' /\ errno e' = errno e.
Proof.
  intros He Hn. destruct p as [|z o t name c].
  { exists e. repeat split. exact He. }
  unfold node_change. cbn [is_null relabel set_class set_name].
  assert (Hfree : exists e1,
            (match name with Some _ => free | None => ret tt end) e
            = Done tt e1 /\ all_succeed e1 /\ errno e1 = errno e).
  { destruct name; [apply all_succeed_free; exact He|].
    exists e. repeat split. exact He. }
  destruct Hfree as (e1 & Hf & He1 & Hn1).
  rewrite (bind_eq _ _ _ _ _ _ _ Hf).
  destruct (all_succeed_malloc e1 He1) as (e2 & Hm & He2 & Hn2).
  destruct n1 as [a|], n2 as [b|]; try (specialize (Hn eq_refl); discriminate);
    cbn [is_some negb andb merged_name].
  - unfold bind at 1. unfold bind at 1. rewrite strcmp_some.
    unfold ret at 1. destruct (String.eqb a b) eqn:E.
    + apply String.eqb_eq in E. subst b.
      rewrite string_compare_refl. change (0 =? 0) with true. cbv iota.
      unfold bind, singular_name, bind. rewrite Hm. cbn.
      exists e2. repeat split; [exact He2|congruence].
    + assert (Hc : (match (a ?= b)%string with
                    | Eq => 0 | Lt => -1 | Gt => 1 end =? 0) = false).
      { destruct (_ =? 0) eqn:E0; [|reflexivity].
        apply strcmp_zero in E0. subst b. rewrite String.eqb_refl in E.
        discriminate. }
      rewrite Hc. unfold bind at 1. unfold bind at 1. rewrite strcmp_some.
      unfold ret at 1. rewrite Hc.
      unfold bind, merge_names, bind. rewrite Hm. cbn.
      exists e2. repeat split; [exact He2|congruence].
  - unfold bind at 1. unfold ret at 1.
    unfold bind, singular_name, bind. rewrite Hm. cbn.
    exists e2. repeat split; [exact He2|congruence].
  - exists e1. repeat split; [exact He1|exact Hn1].
Qed.

Lemma recur_equiv_migrated p a b n n1 n2 e :
  all_succeed e -> (n1 = None -> n2 = None) ->
  exists r e',
    recur_equiv p a b n n1 n2 e
    = Done (r, migrated p a b n (merged_name n1 n2)) e'
    /\ r <> -1 /\ all_succeed e' /\ errno e' = errno e.
Proof.
  intros He Hn. revert e He.
  induction p as [|z IHz o IHo t IHt name c]; intros e He.
  - exists 0, e. repeat split; [lia|exact He].
  - cbn [recur_equiv migrated]. unfold bind at 1.
    destruct (IHz e He) as (rz & e1 & -> & Hz & He1 & Hn1). unfold bind at 1.
    destruct (IHo e1 He1) as (ro & e2 & -> & Ho & He2 & Hn2). unfold bind at 1.
    destruct (IHt e2 He2) as (rt & e3 & -> & Ht & He3 & Hn3).
    apply Z.eqb_neq in Hz, Ho, Ht. rewrite Hz, Ho, Ht. cbn [orb]. cbv iota zeta.
    destruct (negb (c =? -1) && ((c =? a) || (c =? b))).
    + destruct (node_change_relabel
                  (Node (migrated z a b n (merged_name n1 n2))
                        (migrated o a b n (merged_name n1 n2))
                        (migrated t a b n (merged_name n1 n2)) name c)
                  n1 n2 n e3 He3 Hn) as (e4 & Hrun & He4 & Hn4).
      exists 1, e4. split; [exact Hrun|]. repeat split; [lia|exact He4|congruence].
    + exists 0, e3. repeat split; [lia|exact He3|congruence].
Qed.

Lemma reclass_relabel n p name : reclass n p (relabel p n name).
Proof. destruct p; simpl; constructor; auto using reclass_refl. Qed.

Lemma reclass_classed n p s1 s2 : reclass n p (classed p s1 s2 n).
Proof.
  unfold classed. eapply reclass_trans; apply reclass_assign, reclass_set_class.
Qed.

Lemma present_node p q : present p q = true -> is_null (deref p q) = false.
Proof. unfold present. apply negb_true_iff. Qed.

Lemma seq_equiv_merges p s1 s2 e :
  is_null (root p) = false -> valid (chars s1) -> valid (chars s2) ->
  address s1 <> address s2 ->
  present (root p) (chars s1) = true -> present (root p) (chars s2) = true ->
  negb (abstract_class (deref (root p) (chars s1)) =? -1)
  && (abstract_class (deref (root p) (chars s1))
      =? abstract_class (deref (root p) (chars s2))) = false ->
  let n := wrap_int (abstract_classes_amount p + 1) in
  let rt2 := classed (root p) (chars s1) (chars s2) n in
  let name_1 := abstract_class_name (deref rt2 (chars s1)) in
  let name_2 := abstract_class_name (deref rt2 (chars s2)) in
  (name_1 = None -> name_2 = None) ->
  all_succeed e ->
  exists e',
    seq_equiv p (Some s1) (Some s2) e
    = Done (1, Store (merged (root p) (chars s1) (chars s2) n
                        (merged_name name_1 name_2)) n) e'
    /\ all_succeed e' /\ errno e' = errno e.
Proof.
  intros Hr Hv1 Hv2 Ha Hp1 Hp2 Hcls n rt2 name_1 name_2 Hn He.
  unfold seq_equiv. rewrite Hr.
  rewrite (bind_eq _ _ _ _ _ _ _ (check_str_valid _ e Hv1)).
  change (0 =? -1) with false. cbv iota.
  rewrite (bind_eq _ _ _ _ _ _ _ (check_str_valid _ e Hv2)).
  change (0 =? -1) with false. cbv iota.
  apply Z.eqb_neq in Ha. rewrite Ha.
  rewrite !walk_root, Hp1, Hp2 by exact Hr. cbv zeta. rewrite Hcls.
  fold n. change (assign (assign (root p) (chars s1)
                            (set_class (deref (root p) (chars s1)) n))
                    (chars s2)
                    (set_class
                       (deref (assign (root p) (chars s1)
                                 (set_class (deref (root p) (chars s1)) n))
                          (chars s2)) n)) with rt2.
  fold name_1 name_2.
  assert (R2 : reclass n (root p) rt2) by apply reclass_classed.
  assert (H1 : exists e1,
            (if is_some name_1 then malloc else ret true) e = Done true e1
            /\ all_succeed e1 /\ errno e1 = errno e).
  { destruct (is_some name_1); [apply all_succeed_malloc; exact He|].
    exists e. repeat split. exact He. }
  destruct H1 as (e1 & Hm1 & He1 & Hn1).
  rewrite (bind_eq _ _ _ _ _ _ _ Hm1). cbn [negb]. cbv iota.
  assert (H2 : exists e2,
            (if is_some name_2 then malloc else ret true) e1 = Done true e2
            /\ all_succeed e2 /\ errno e2 = errno e1).
  { destruct (is_some name_2); [apply all_succeed_malloc; exact He1|].
    exists e1. repeat split. exact He1. }
  destruct H2 as (e2 & Hm2 & He2 & Hn2).
  rewrite (bind_eq _ _ _ _ _ _ _ Hm2). cbn [negb]. cbv iota.
  destruct (node_change_relabel (deref rt2 (chars s1)) name_1 name_2 n e2
              He2 Hn) as (e3 & Hc1 & He3 & Hn3).
  rewrite (bind_eq _ _ _ _ _ _ _ Hc1).
  assert (N1 : is_null (deref rt2 (chars s1)) = false).
  { apply present_node. rewrite (reclass_present n (root p) rt2 _ R2).
    exact Hp1. }
  rewrite N1. change (1 =? -1) with false. cbv iota.
  set (rt3 := assign rt2 (chars s1)
                (relabel (deref rt2 (chars s1)) n (merged_name name_1 name_2))).
  assert (R3 : reclass n rt2 rt3) by apply reclass_assign, reclass_relabel.
  destruct (node_change_relabel (deref rt3 (chars s2)) name_1 name_2 n e3
              He3 Hn) as (e4 & Hc2 & He4 & Hn4).
  rewrite (bind_eq _ _ _ _ _ _ _ Hc2).
  assert (N2 : is_null (deref rt3 (chars s2)) = false).
  { apply present_node. rewrite (reclass_present n rt2 rt3 _ R3).
    rewrite (reclass_present n (root p) rt2 _ R2). exact Hp2. }
  rewrite N2. change (1 =? -1) with false. cbv iota.
  set (rt4 := assign rt3 (chars s2)
                (relabel (deref rt3 (chars s2)) n (merged_name name_1 name_2))).
  set (c1 := abstract_class (deref (root p) (chars s1))).
  set (c2 := abstract_class (deref (root p) (chars s2))).
  destruct (recur_equiv_migrated (next_zero rt4) c1 c2 n name_1 name_2 e4
              He4 Hn) as (rz & e5 & Hz & Hrz & He5 & Hn5).
  rewrite (bind_eq _ _ _ _ _ _ _ Hz).
  destruct (recur_equiv_migrated
              (next_one (set_next_zero rt4
                 (migrated (next_zero rt4) c1 c2 n (merged_name name_1 name_2))))
              c1 c2 n name_1 name_2 e5 He5 Hn) as (ro & e6 & Ho & Hro & He6 & Hn6).
  rewrite (bind_eq _ _ _ _ _ _ _ Ho).
  match goal with
  | |- context [recur_equiv (next_two ?x) _ _ _ _ _] =>
      destruct (recur_equiv_migrated (next_two x) c1 c2 n name_1 name_2 e6
                  He6 Hn) as (rt & e7 & Ht & Hrt & He7 & Hn7)
  end.
  rewrite (bind_eq _ _ _ _ _ _ _ Ht).
  assert (F1 : exists e8,
            (if is_some name_1 then free else ret tt) e7 = Done tt e8
            /\ all_succeed e8 /\ errno e8 = errno e7).
  { destruct (is_some name_1); [apply all_succeed_free; exact He7|].
    exists e7. repeat split. exact He7. }
  destruct F1 as (e8 & Hf1 & He8 & Hn8).
  rewrite (bind_eq _ _ _ _ _ _ _ Hf1).
  assert (F2 : exists e9,
            (if is_some name_2 then free else ret tt) e8 = Done tt e9
            /\ all_succeed e9 /\ errno e9 = errno e8).
  { destruct (is_some name_2); [apply all_succeed_free; exact He8|].
    exists e8. repeat split. exact He8. }
  destruct F2 as (e9 & Hf2 & He9 & Hn9).
  rewrite (bind_eq _ _ _ _ _ _ _ Hf2).
  apply Z.eqb_neq in Hrz, Hro, Hrt. rewrite Hrz, Hro, Hrt. cbn [negb andb].
  exists e9. split; [reflexivity|]. split; [exact He9|congruence].
Qed.

(** ** Reading the nodes after a write through a pointer *)

Lemma ptr_eqb_eq q s : ptr_eqb q s = true <-> q = s.
Proof. unfold ptr_eqb. destruct (list_eq_dec ascii_dec q s); split; congruence. Qed.

Lemma ptr_eqb_refl q : ptr_eqb q q = true.
Proof. apply ptr_eqb_eq. reflexivity. Qed.

Lemma set_next_fields p c v :
  is_null (set_next p c v) = is_null p /\
  abstract_class (set_next p c v) = abstract_class p /\
  abstract_class_name (set_next p c v) = abstract_class_name p.
Proof.
  unfold set_next.
  destruct (c =? "0")%char; [destruct p; auto|].
  destruct (c =? "1")%char; [destruct p; auto|].
  destruct (c =? "2")%char; [destruct p; auto|auto].
Qed.

Lemma fields_assign_other p s v q :
  is_null (deref p s) = false -> same_children v (deref p s) -> q <> s ->
  fields (assign p s v) q = fields p q.
Proof.
  revert p q. induction s as [|c s IH]; intros p q Hs Hv Hne.
  - destruct q as [|c q]; [congruence|]. unfold fields. simpl in *.
    destruct Hv as [_ Hv]. rewrite Hv. reflexivity.
  - simpl in Hs. pose proof (deref_node _ _ Hs) as Hn.
    destruct q as [|c' q].
    + unfold fields. simpl.
      destruct (set_next_fields p c (assign (next_seq p c) s v)) as (-> & -> & ->).
      reflexivity.
    + unfold fields. simpl. destruct (ascii_dec c c') as [<- | Hcc].
      * rewrite next_seq_set_next_same.
        -- apply (IH (next_seq p c) q Hs Hv). congruence.
        -- eapply next_seq_node; eauto.
        -- eapply next_seq_legal; eauto.
      * rewrite next_seq_set_next_other by exact Hcc. reflexivity.
Qed.

Lemma same_children_set_class p n : same_children (set_class p n) p.
Proof. destruct p; split; reflexivity. Qed.

Lemma same_children_relabel p n name : same_children (relabel p n name) p.
Proof. destruct p; split; reflexivity. Qed.

Lemma fields_assign_set_class p s n q :
  is_null (deref p s) = false ->
  fields (assign p s (set_class (deref p s) n)) q
  = if ptr_eqb q s then (false, n, abstract_class_name (deref p s))
    else fields p q.
Proof.
  intros Hs. destruct (ptr_eqb q s) eqn:E.
  - apply ptr_eqb_eq in E. subst q. unfold fields.
    rewrite deref_assign_same by exact Hs.
    destruct (deref p s); [discriminate|reflexivity].
  - apply fields_assign_other; [exact Hs|apply same_children_set_class|].
    intros ->. rewrite ptr_eqb_refl in E. discriminate.
Qed.

Lemma fields_assign_relabel p s n name q :
  is_null (deref p s) = false ->
  fields (assign p s (relabel (deref p s) n name)) q
  = if ptr_eqb q s then (false, n, name) else fields p q.
Proof.
  intros Hs. destruct (ptr_eqb q s) eqn:E.
  - apply ptr_eqb_eq in E. subst q. unfold fields.
    rewrite deref_assign_same by exact Hs.
    destruct (deref p s); [discriminate|reflexivity].
  - apply fields_assign_other; [exact Hs|apply same_children_relabel|].
    intros ->. rewrite ptr_eqb_refl in E. discriminate.
Qed.

Lemma fields_null p q : fst (fst (fields p q)) = is_null (deref p q).
Proof. reflexivity. Qed.

Lemma fields_classed p s1 s2 n q :
  is_null (deref p s1) = false -> is_null (deref p s2) = false ->
  fields (classed p s1 s2 n) q
  = if ptr_eqb q s1 || ptr_eqb q s2
    then (false, n, abstract_class_name (deref p q))
    else fields p q.
Proof.
  intros H1 H2. unfold classed.
  set (rt1 := assign p s1 (set_class (deref p s1) n)).
  assert (F1 : forall q, fields rt1 q
                = if ptr_eqb q s1
                  then (false, n, abstract_class_name (deref p s1))
                  else fields p q).
  { intros q0. apply fields_assign_set_class. exact H1. }
  assert (N2 : is_null (deref rt1 s2) = false).
  { rewrite <- fields_null, F1. destruct (ptr_eqb s2 s1); [reflexivity|].
    exact H2. }
  rewrite fields_assign_set_class by exact N2.
  destruct (ptr_eqb q s2) eqn:E2.
  - apply ptr_eqb_eq in E2. subst q. rewrite orb_true_r.
    pose proof (F1 s2) as F. unfold fields in F.
    destruct (ptr_eqb s2 s1) eqn:E1.
    + apply ptr_eqb_eq in E1. subst s2. injection F as _ _ ->. reflexivity.
    + injection F as _ _ ->. reflexivity.
  - rewrite orb_false_r, F1. destruct (ptr_eqb q s1) eqn:E1; [|reflexivity].
    apply ptr_eqb_eq in E1. subst q. reflexivity.
Qed.

Lemma next_seq_migrated p a b n name c :
  next_seq (migrated p a b n name) c = migrated (next_seq p c) a b n name.
Proof.
  destruct p as [|z o t nm k]; [reflexivity|]. cbn [migrated]. cbv zeta.
  destruct (negb (k =? -1) && ((k =? a) || (k =? b))); simpl;
    destruct (c =? "0")%char; try reflexivity;
    destruct (c =? "1")%char; try reflexivity;
    destruct (c =? "2")%char; reflexivity.
Qed.

Lemma deref_migrated p a b n name q :
  deref (migrated p a b n name) q = migrated (deref p q) a b n name.
Proof.
  revert p. induction q as [|c q IH]; intros p; simpl; [reflexivity|].
  rewrite next_seq_migrated. apply IH.
Qed.

Lemma fields_migrated p a b n name q :
  fields (migrated p a b n name) q
  = let '(null, c, nm) := fields p q in
    if negb null && negb (c =? -1) && ((c =? a) || (c =? b))
    then (false, n, name) else (null, c, nm).
Proof.
  unfold fields. rewrite deref_migrated.
  destruct (deref p q) as [|z o t nm k]; [reflexivity|].
  cbn [migrated is_null abstract_class abstract_class_name negb andb].
  cbv zeta. destruct (negb (k =? -1) && ((k =? a) || (k =? b))); reflexivity.
Qed.

Lemma fields_root_children rt z o t q :
  is_null rt = false ->
  fields (set_next_two (set_next_one (set_next_zero rt z) o) t) q
  = match q with
    | [] => fields rt []
    | c :: q' =>
        fields (if (c =? "0")%char then z
                else if (c =? "1")%char then o
                else if (c =? "2")%char then t else NULL) q'
    end.
Proof.
  destruct rt as [|z0 o0 t0 nm k]; [discriminate|]. intros _.
  destruct q as [|c q]; reflexivity.
Qed.

Lemma fields_cons p c q : fields p (c :: q) = fields (next_seq p c) q.
Proof. reflexivity. Qed.

Lemma next_seq_cases p c :
  next_seq p c = if (c =? "0")%char then next_zero p
                 else if (c =? "1")%char then next_one p
                 else if (c =? "2")%char then next_two p else NULL.
Proof.
  destruct p; simpl; [|reflexivity].
  destruct (c =? "0")%char, (c =? "1")%char, (c =? "2")%char; reflexivity.
Qed.

Lemma fields_merged p s1 s2 n name q :
  is_null p = false -> s1 <> [] -> s2 <> [] ->
  is_null (deref p s1) = false -> is_null (deref p s2) = false ->
  fields (merged p s1 s2 n name) q
  = if member p s1 s2 q then (false, n, name) else fields p q.
Proof.
  intros Hp Hs1 Hs2 H1 H2. unfold merged. cbv zeta.
  set (c1 := abstract_class (deref p s1)).
  set (c2 := abstract_class (deref p s2)).
  set (rt2 := classed p s1 s2 n).
  assert (F2 : forall q, fields rt2 q
                = if ptr_eqb q s1 || ptr_eqb q s2
                  then (false, n, abstract_class_name (deref p q))
                  else fields p q).
  { intros q0. apply fields_classed; assumption. }
  assert (N21 : is_null (deref rt2 s1) = false).
  { rewrite <- fields_null, F2, ptr_eqb_refl. reflexivity. }
  set (rt3 := assign rt2 s1 (relabel (deref rt2 s1) n name)).
  assert (F3 : forall q, fields rt3 q
                = if ptr_eqb q s1 then (false, n, name) else fields rt2 q).
  { intros q0. apply fields_assign_relabel. exact N21. }
  assert (N32 : is_null (deref rt3 s2) = false).
  { rewrite <- fields_null, F3. destruct (ptr_eqb s2 s1); [reflexivity|].
    rewrite F2, ptr_eqb_refl, orb_true_r. reflexivity. }
  set (rt4 := assign rt3 s2 (relabel (deref rt3 s2) n name)).
  assert (F4 : forall q, fields rt4 q
                = if ptr_eqb q s1 || ptr_eqb q s2 then (false, n, name)
                  else fields p q).
  { intros q0. unfold rt4. rewrite fields_assign_relabel by exact N32.
    rewrite F3, F2.
    destruct (ptr_eqb q0 s1), (ptr_eqb q0 s2); reflexivity. }
  assert (N4 : is_null rt4 = false).
  { change (is_null rt4) with (fst (fst (fields rt4 []))). rewrite F4.
    replace (ptr_eqb [] s1) with false
      by (symmetry; destruct (ptr_eqb [] s1) eqn:E; [|reflexivity];
          apply ptr_eqb_eq in E; congruence).
    replace (ptr_eqb [] s2) with false
      by (symmetry; destruct (ptr_eqb [] s2) eqn:E; [|reflexivity];
          apply ptr_eqb_eq in E; congruence).
    exact Hp. }
  replace (next_one (set_next_zero rt4 (migrated (next_zero rt4) c1 c2 n name)))
    with (next_one rt4) by (destruct rt4; [discriminate|reflexivity]).
  replace (next_two
             (set_next_one
                (set_next_zero rt4 (migrated (next_zero rt4) c1 c2 n name))
                (migrated (next_one rt4) c1 c2 n name)))
    with (next_two rt4) by (destruct rt4; [discriminate|reflexivity]).
  rewrite fields_root_children by exact N4.
  unfold member. fold c1 c2.
  destruct q as [|c q].
  - rewrite F4.
    replace (ptr_eqb [] s1) with false
      by (symmetry; destruct (ptr_eqb [] s1) eqn:E; [|reflexivity];
          apply ptr_eqb_eq in E; congruence).
    replace (ptr_eqb [] s2) with false
      by (symmetry; destruct (ptr_eqb [] s2) eqn:E; [|reflexivity];
          apply ptr_eqb_eq in E; congruence).
    rewrite ptr_eqb_refl. cbn [negb andb orb]. rewrite andb_false_r.
    reflexivity.
  - replace (if (c =? "0")%char then migrated (next_zero rt4) c1 c2 n name
             else if (c =? "1")%char then migrated (next_one rt4) c1 c2 n name
             else if (c =? "2")%char then migrated (next_two rt4) c1 c2 n name
             else NULL)
      with (migrated (next_seq rt4 c) c1 c2 n name)
      by (rewrite next_seq_cases;
          destruct (c =? "0")%char, (c =? "1")%char, (c =? "2")%char;
          reflexivity).
    rewrite fields_migrated, <- fields_cons, F4.
    replace (ptr_eqb (c :: q) []) with false
      by (symmetry; destruct (ptr_eqb (c :: q) []) eqn:E; [|reflexivity];
          apply ptr_eqb_eq in E; congruence).
    destruct (ptr_eqb (c :: q) s1 || ptr_eqb (c :: q) s2) eqn:E.
    + cbn [orb negb andb].
      destruct (negb (n =? -1) && ((n =? c1) || (n =? c2))); reflexivity.
    + cbn [orb]. unfold fields. cbn [negb andb]. rewrite andb_true_r.
      destruct (negb (is_null (deref p (c :: q)))
                && negb (abstract_class (deref p (c :: q)) =? -1)
                && ((abstract_class (deref p (c :: q)) =? c1)
                    || (abstract_class (deref p (c :: q)) =? c2)));
        reflexivity.
Qed.

Lemma class_in_classes p q :
  is_null (deref p q) = false -> In (abstract_class (deref p q)) (classes p).
Proof.
  intros H. apply (classes_deref p q).
  destruct (deref p q); [discriminate|]. simpl. auto.
Qed.

(** [seq_equiv] on two sequences of the store that are not yet in one class,
    given at different addresses, when no allocation fails and it is not the
    second endpoint alone that has a name: the call returns 1, the counter
    advances, and the nodes of the store are as before except for the members
    of the new class, which all carry the new class and the merged name. *)
Lemma seq_equiv_names p s1 s2 e :
  is_null (root p) = false -> valid (chars s1) -> valid (chars s2) ->
  address s1 <> address s2 ->
  present (root p) (chars s1) = true -> present (root p) (chars s2) = true ->
  negb (abstract_class (deref (root p) (chars s1)) =? -1)
  && (abstract_class (deref (root p) (chars s1))
      =? abstract_class (deref (root p) (chars s2))) = false ->
  let n := wrap_int (abstract_classes_amount p + 1) in
  let name_1 := abstract_class_name (deref (root p) (chars s1)) in
  let name_2 := abstract_class_name (deref (root p) (chars s2)) in
  (name_1 = None -> name_2 = None) ->
  all_succeed e ->
  exists p' e',
    seq_equiv p (Some s1) (Some s2) e = Done (1, p') e' /\
    abstract_classes_amount p' = n /\
    (forall q,
       fields (root p') q
       = if member (root p) (chars s1) (chars s2) q
         then (false, n, merged_name name_1 name_2)
         else fields (root p) q) /\
    (store_inv p -> abstract_classes_amount p < INT_MAX ->
     forall q,
       abstract_class (deref (root p') q) = n ->
       member (root p) (chars s1) (chars s2) q = true /\
       abstract_class_name (deref (root p') q) = merged_name name_1 name_2).
Proof.
  intros Hr Hv1 Hv2 Ha Hp1 Hp2 Hcls n name_1 name_2 Hn He.
  pose proof (present_node _ _ Hp1) as N1.
  pose proof (present_node _ _ Hp2) as N2.
  pose proof (fields_classed (root p) (chars s1) (chars s2) n (chars s1) N1 N2)
    as F1.
  pose proof (fields_classed (root p) (chars s1) (chars s2) n (chars s2) N1 N2)
    as F2.
  rewrite ptr_eqb_refl in F1. rewrite ptr_eqb_refl, orb_true_r in F2.
  cbn [orb] in F1. unfold fields in F1, F2.
  injection F1 as _ _ F1. injection F2 as _ _ F2.
  destruct (seq_equiv_merges p s1 s2 e Hr Hv1 Hv2 Ha Hp1 Hp2 Hcls)
    as (e' & Hrun & _); [|exact He|].
  { cbv zeta. fold n. rewrite F1, F2. exact Hn. }
  cbv zeta in Hrun. fold n in Hrun. rewrite F1, F2 in Hrun.
  fold name_1 name_2 in Hrun.
  do 2 eexists. split; [exact Hrun|]. split; [reflexivity|].
  assert (HF : forall q,
             fields (merged (root p) (chars s1) (chars s2) n
                       (merged_name name_1 name_2)) q
             = if member (root p) (chars s1) (chars s2) q
               then (false, n, merged_name name_1 name_2)
               else fields (root p) q).
  { intros q. apply fields_merged; auto; [apply Hv1|apply Hv2]. }
  split; [exact HF|].
  intros [Hamt Hinv] Hlt q Hq. cbn [root] in Hq |- *.
  specialize (HF q). unfold fields in HF.
  destruct (member (root p) (chars s1) (chars s2) q).
  - injection HF as _ _ ->. auto.
  - exfalso. injection HF as Hnull Hc _. rewrite Hq in Hc.
    unfold n in Hc. rewrite wrap_int_succ in Hc by lia.
    destruct (is_null (deref (root p) q)) eqn:E.
    + destruct (deref (root p) q); [simpl in Hc; lia|discriminate].
    + pose proof (Hinv _ (class_in_classes _ _ E)). lia.
Qed.

(** ** C6: [seq_equiv] twice *)

(** C6.  For two sequences in the store: when their nodes carry the same
    class, not -1, [seq_equiv] returns 0 and the store and the environment
    are what they were.  When a call of [seq_equiv] has returned 1, the same
    call made again returns 0 and leaves the store of the first call as it
    is.  And the first call does return 1 when the two arguments are held at
    different addresses, the nodes are not already in one class, no
    allocation fails and it is not the second node alone that has a name. *)
Theorem seq_equiv_idempotent p s1 s2 e :
  valid (chars s1) -> valid (chars s2) ->
  contains p (chars s1) -> contains p (chars s2) ->
  (abstract_class (deref (root p) (chars s1)) <> -1 ->
   abstract_class (deref (root p) (chars s1))
   = abstract_class (deref (root p) (chars s2)) ->
   seq_equiv p (Some s1) (Some s2) e = Done (0, p) e) /\
  (forall p' e',
     0 <= abstract_classes_amount p <= INT_MAX ->
     seq_equiv p (Some s1) (Some s2) e = Done (1, p') e' ->
     forall e2, seq_equiv p' (Some s1) (Some s2) e2 = Done (0, p') e2) /\
  (0 <= abstract_classes_amount p <= INT_MAX ->
   address s1 <> address s2 ->
   ~ (abstract_class (deref (root p) (chars s1)) <> -1 /\
      abstract_class (deref (root p) (chars s1))
      = abstract_class (deref (root p) (chars s2))) ->
   (abstract_class_name (deref (root p) (chars s1)) = None ->
    abstract_class_name (deref (root p) (chars s2)) = None) ->
   all_succeed e ->
   exists p' e',
     seq_equiv p (Some s1) (Some s2) e = Done (1, p') e' /\
     forall e2, seq_equiv p' (Some s1) (Some s2) e2 = Done (0, p') e2).
Proof.
  intros Hv1 Hv2 Hc1 Hc2.
  assert (Again : forall p' e',
            0 <= abstract_classes_amount p <= INT_MAX ->
            seq_equiv p (Some s1) (Some s2) e = Done (1, p') e' ->
            forall e2, seq_equiv p' (Some s1) (Some s2) e2 = Done (0, p') e2).
  { intros p' e' Hamt Hrun e2.
    apply seq_equiv_outcome in Hrun.
    destruct Hrun as [[_ Hr] | Hrun]; [congruence|].
    destruct Hrun as (c1 & c2 & E1 & E2 & Hr & _ & _ & _ & Hp1 & Hp2 & Hn
                      & R & _ & Hcls).
    injection E1 as <-. injection E2 as <-.
    destruct (Hcls eq_refl) as [Hk1 Hk2].
    assert (Hr' : is_null (root p') = false).
    { rewrite (reclass_null _ _ _ R). exact Hr. }
    apply seq_equiv_same_class; auto.
    - apply contains_present; [exact Hv1|]. split; [exact Hr'|].
      rewrite (reclass_present _ _ _ _ R). exact Hp1.
    - apply contains_present; [exact Hv2|]. split; [exact Hr'|].
      rewrite (reclass_present _ _ _ _ R). exact Hp2.
    - rewrite Hk1, Hn. apply wrap_int_succ_not_none. exact Hamt.
    - congruence. }
  split; [apply seq_equiv_same_class; assumption|].
  split; [exact Again|].
  intros Hamt Ha Hdiff Hnames He.
  apply contains_present in Hc1; [|exact Hv1]. destruct Hc1 as [Hr Hp1].
  apply contains_present in Hc2; [|exact Hv2]. destruct Hc2 as [_ Hp2].
  destruct (seq_equiv_names p s1 s2 e Hr Hv1 Hv2 Ha Hp1 Hp2)
    as (p' & e' & Hrun & _); [|exact Hnames|exact He|].
  { destruct (abstract_class (deref (root p) (chars s1)) =? -1) eqn:E1;
      [reflexivity|].
    destruct (abstract_class (deref (root p) (chars s1))
              =? abstract_class (deref (root p) (chars s2))) eqn:E2;
      [|reflexivity].
    exfalso. apply Hdiff. apply Z.eqb_neq in E1. apply Z.eqb_eq in E2. auto. }
  exists p', e'. split; [exact Hrun|]. eapply Again; eauto.
Qed.

Lemma seq_equiv_idempotent_witness :
  seq_equiv store_class_of_two (at_address 1 "0") (at_address 2 "1") e0
  = Done (0, store_class_of_two) e0 /\
  seq_equiv store_merged (at_address 1 "0") (at_address 2 "01") e0
  = Done (0, store_merged) e0 /\
  exists p' e',
    seq_equiv store_0_01_02 (at_address 1 "0") (at_address 2 "01") e0
    = Done (1, p') e' /\
    forall e2,
      seq_equiv p' (at_address 1 "0") (at_address 2 "01") e2 = Done (0, p') e2.
Proof.
  assert (H0 : valid (list_ascii_of_string "0"))
    by (split; [discriminate|reflexivity]).
  assert (H1 : valid (list_ascii_of_string "1"))
    by (split; [discriminate|reflexivity]).
  assert (H01 : valid (list_ascii_of_string "01"))
    by (split; [discriminate|reflexivity]).
  assert (Hrun : seq_equiv store_0_01_02 (at_address 1 "0")
                   (at_address 2 "01") e0 = Done (1, store_merged) e0)
    by (vm_compute; reflexivity).
  split; [|split].
  - apply (proj1 (seq_equiv_idempotent store_class_of_two
                    (CharPtr 1 (list_ascii_of_string "0"))
                    (CharPtr 2 (list_ascii_of_string "1")) e0 H0 H1
                    (fun e => eq_refl) (fun e => eq_refl))).
    + discriminate.
    + reflexivity.
  - apply (proj1 (proj2 (seq_equiv_idempotent store_0_01_02
                    (CharPtr 1 (list_ascii_of_string "0"))
                    (CharPtr 2 (list_ascii_of_string "01")) e0 H0 H01
                    (fun e => eq_refl) (fun e => eq_refl)))
             store_merged e0).
    + vm_compute. split; discriminate.
    + exact Hrun.
  - apply (proj2 (proj2 (seq_equiv_idempotent store_0_01_02
                    (CharPtr 1 (list_ascii_of_string "0"))
                    (CharPtr 2 (list_ascii_of_string "01")) e0 H0 H01
                    (fun e => eq_refl) (fun e => eq_refl)))).
    + vm_compute. split; discriminate.
    + discriminate.
    + intros [Hne _]. apply Hne. reflexivity.
    + reflexivity.
    + reflexivity.
Defined.


(** ** X1: what the operations turn down *)

Lemma check_str_invalid s e :
  invalid s -> check_str_for_inval s e = Done (-1) (rejected e).
Proof.
  destruct s as [l|]; simpl; [|reflexivity].
  intros [-> | H]; [reflexivity|].
  destruct l as [|c l]; [reflexivity|].
  unfold check_str_for_inval. cbn [List.length Nat.eqb]. rewrite H. reflexivity.
Qed.

Lemma check_str_total s e :
  (exists l, s = Some l /\ valid l /\ check_str_for_inval s e = Done 0 e) \/
  (invalid s /\ check_str_for_inval s e = Done (-1) (rejected e)).
Proof.
  destruct s as [l|].
  - destruct l as [|c l].
    + right. split; [left; reflexivity|reflexivity].
    + destruct (forallb legal (c :: l)) eqn:H.
      * left. exists (c :: l). split; [reflexivity|].
        assert (Hv : valid (c :: l)) by (split; [discriminate|exact H]).
        split; [exact Hv|]. apply check_str_valid. exact Hv.
      * right. split; [right; exact H|].
        apply check_str_invalid. right. exact H.
  - right. split; [exact I|reflexivity].
Qed.

(** X1.  A NULL store, and a sequence that is NULL, empty or holds a character
    other than 0, 1, 2, make every operation return -1 (NULL for
    [seq_get_name]) with [errno] set to EINVAL; so do a NULL or empty name in
    [seq_set_name].  The store is not touched and nothing is allocated,
    wherever the arguments are held. *)
Theorem invalid_arguments_rejected p e :
  (forall s,
     is_null (root p) = true \/ invalid s ->
     seq_add p s e = Done (-1, p) (rejected e) /\
     (forall s_in, seq_remove p s s_in e = Done (-1, p) (rejected e)) /\
     seq_valid p s e = Done (-1) (rejected e) /\
     seq_get_name p s e = Done None (rejected e) /\
     forall n n_in, seq_set_name p s n n_in e = Done (-1, p) (rejected e)) /\
  (forall s n n_in,
     n = None \/ n = Some ""%string ->
     seq_set_name p s n n_in e = Done (-1, p) (rejected e)) /\
  (forall s1 s2,
     is_null (root p) = true \/ invalid (option_map chars s1)
     \/ invalid (option_map chars s2) ->
     seq_equiv p s1 s2 e = Done (-1, p) (rejected e)).
Proof.
  assert (First : forall s,
     is_null (root p) = true \/ invalid s ->
     seq_add p s e = Done (-1, p) (rejected e) /\
     (forall s_in, seq_remove p s s_in e = Done (-1, p) (rejected e)) /\
     seq_valid p s e = Done (-1) (rejected e) /\
     seq_get_name p s e = Done None (rejected e) /\
     forall n n_in, seq_set_name p s n n_in e = Done (-1, p) (rejected e)).
  { intros s H.
    unfold seq_add, seq_remove, seq_valid, seq_get_name, seq_set_name.
    destruct (is_null (root p)) eqn:Hr.
    - repeat split; try reflexivity.
      destruct (check_str_total s e) as [(l & -> & Hv & Hk) | [Hi Hk]];
        rewrite (bind_eq _ _ _ _ _ _ _ Hk); reflexivity.
    - destruct H as [H | H]; [discriminate|].
      pose proof (check_str_invalid s e H) as Hk.
      destruct s as [l|]; repeat split; intros;
        rewrite ?(bind_eq _ _ _ _ _ _ _ Hk); reflexivity. }
  split; [exact First|]. split.
  - intros s n n_in Hn.
    destruct (is_null (root p)) eqn:Hr; [apply First; auto|].
    destruct (check_str_total s e) as [(l & -> & Hv & Hk) | [Hi Hk]];
      [|apply First; auto].
    unfold seq_set_name. rewrite Hr, (bind_eq _ _ _ _ _ _ _ Hk).
    destruct Hn as [-> | ->]; reflexivity.
  - intros s1 s2 H. unfold seq_equiv.
    destruct (is_null (root p)) eqn:Hr; [reflexivity|].
    destruct H as [H | H]; [discriminate|].
    destruct s1 as [c1|]; [|destruct s2; reflexivity].
    destruct s2 as [c2|]; [|reflexivity].
    cbn [option_map] in H.
    destruct (check_str_total (Some (chars c1)) e)
      as [(l & El & Hv & Hk) | [Hi Hk]];
      rewrite (bind_eq _ _ _ _ _ _ _ Hk); [|reflexivity].
    change (0 =? -1) with false. cbv iota.
    destruct H as [H | H].
    + exfalso. injection El as <-. destruct Hv as [Hne Hl].
      destruct H as [H | H]; congruence.
    + rewrite (bind_eq _ _ _ _ _ _ _ (check_str_invalid _ e H)). reflexivity.
Qed.

Lemma invalid_arguments_rejected_witness :
  seq_add store_0_01_02 (sq "01a") e0 = Done (-1, store_0_01_02) (rejected e0)
  /\ seq_valid store_0_01_02 (sq "") e0 = Done (-1) (rejected e0)
  /\ seq_get_name store_0_01_02 (sq "3") e0 = Done None (rejected e0)
  /\ seq_remove store_0_01_02 None None e0
     = Done (-1, store_0_01_02) (rejected e0)
  /\ seq_set_name store_0_01_02 (sq "0") (Some ""%string) None e0
     = Done (-1, store_0_01_02) (rejected e0)
  /\ seq_equiv store_0_01_02 (at_address 1 "0") (at_address 2 "02x") e0
     = Done (-1, store_0_01_02) (rejected e0).
Proof.
  pose proof (invalid_arguments_rejected store_0_01_02 e0) as (H1 & H2 & H3).
  split; [apply (H1 (sq "01a")); right; right; reflexivity|].
  split; [apply (H1 (sq "")); right; left; reflexivity|].
  split; [apply (H1 (sq "3")); right; right; reflexivity|].
  split; [apply (H1 None); right; exact I|].
  split; [apply H2; right; reflexivity|].
  apply H3. right. right. right. reflexivity.
Defined.


(** ** X2, X3: [seq_new] and [seq_delete] *)

Lemma env_eta e : Env (errno e) (mallocs e) (allocated e) = e.
Proof. destruct e; reflexivity. Qed.

Lemma present_leaf s : s <> [] -> present leaf s = false.
Proof.
  destruct s as [|c s]; [congruence|]. intros _. unfold present.
  change (deref leaf (c :: s)) with (deref (next_seq leaf c) s).
  rewrite next_seq_leaf, deref_NULL. reflexivity.
Qed.

(** X2.  [seq_new] either gives a store with a root that has no child, no
    name and no class, and a counter at 0, having allocated two blocks; or,
    when one of its two allocations fails, it gives NULL with [errno] set to
    ENOMEM and leaves no block allocated.  When no allocation fails it is
    the first; and the store it gives holds no sequence. *)
Theorem seq_new_outcomes e :
  exists p e',
    seq_new e = Done p e' /\
    ((p = store_empty /\ errno e' = errno e /\
      allocated e' = allocated e + 2 /\
      forall s, valid s -> lacks p s) \/
     (root p = NULL /\ errno e' = ENOMEM /\ allocated e' = allocated e /\
      ~ all_succeed e)).
Proof.
  assert (Hempty : forall s, valid s -> lacks store_empty s).
  { intros s Hv. apply lacks_present; [exact Hv|]. split; [reflexivity|].
    apply present_leaf. apply Hv. }
  unfold all_succeed, seq_new, bind, malloc.
  destruct (mallocs e) as [|[|] [|[|] ms]]; cbn;
    do 2 eexists; (split; [reflexivity|]);
    try (left; repeat split; try (cbn; lia); exact Hempty);
    right; repeat split; try (cbn; lia); discriminate.
Qed.

Lemma seq_new_outcomes_witness :
  seq_new e0 = Done store_empty (Env 0 [] 2) /\
  lacks store_empty (list_ascii_of_string "0").
Proof.
  destruct (seq_new_outcomes e0) as (p & e' & Hrun & H).
  assert (E : seq_new e0 = Done store_empty (Env 0 [] 2))
    by (vm_compute; reflexivity).
  split; [exact E|].
  rewrite E in Hrun. injection Hrun as <- <-.
  destruct H as [(_ & _ & _ & H) | (H & _)]; [|discriminate].
  apply H. split; [discriminate|reflexivity].
Defined.

Lemma seq_remove_child p c e :
  is_null (root p) = false -> legal c = true ->
  seq_remove p (Some [c]) None e
  = Done ((if is_null (next_seq (root p) c) then 0 else 1),
          Store (set_next (root p) c NULL) (abstract_classes_amount p))
         (Env (errno e) (mallocs e)
              (allocated e - blocks (next_seq (root p) c))).
Proof.
  intros Hr Hc.
  assert (Hv : valid [c]).
  { split; [discriminate|]. simpl. rewrite Hc. reflexivity. }
  destruct (is_null (next_seq (root p) c)) eqn:Hn.
  - rewrite seq_remove_absent; auto.
    + assert (Hb : blocks (next_seq (root p) c) = 0)
        by (destruct (next_seq (root p) c); [reflexivity|discriminate]).
      assert (Hs : set_next (root p) c NULL = root p).
      { destruct (next_seq (root p) c) eqn:E; [|discriminate].
        rewrite <- E. apply set_next_next_seq. }
      rewrite Hb, Hs, Z.sub_0_r, env_eta. destruct p; reflexivity.
    + unfold present. simpl. rewrite Hn. reflexivity.
  - rewrite seq_remove_present; auto.
    unfold present. simpl. rewrite Hn. reflexivity.
Qed.

Lemma seq_delete_blocks p e :
  seq_delete p e
  = Done tt (if is_null (root p) then e
             else Env (errno e) (mallocs e)
                      (allocated e - blocks (root p) - 1)).
Proof.
  unfold seq_delete. destruct (is_null (root p)) eqn:Hr; [reflexivity|].
  destruct p as [rt amt]. cbn [root] in *.
  destruct rt as [|z o t name c]; [discriminate|].
  unfold sq. cbn [list_ascii_of_string].
  rewrite (bind_eq _ _ _ _ _ _ _
             (seq_remove_child (Store (Node z o t name c) amt) "0"%char e
                eq_refl eq_refl)).
  cbv iota beta.
  rewrite (bind_eq _ _ _ _ _ _ _
             (seq_remove_child (Store (Node NULL o t name c) amt) "1"%char _
                eq_refl eq_refl)).
  cbv iota beta.
  rewrite (bind_eq _ _ _ _ _ _ _
             (seq_remove_child (Store (Node NULL NULL t name c) amt) "2"%char
                _ eq_refl eq_refl)).
  cbv iota beta. cbn.
  unfold bind, free, ret. destruct name; cbn; f_equal; f_equal; lia.
Qed.

(** X3.  [seq_delete] of a store gives back every block the store holds:
    each node, each name and the counter.  [errno] is left alone, and for a
    NULL store nothing happens. *)
Theorem seq_delete_frees_all p e :
  seq_delete p e
  = Done tt (if is_null (root p) then e
             else Env (errno e) (mallocs e)
                      (allocated e - blocks (root p) - 1)).
Proof. apply seq_delete_blocks. Qed.


(** ** Prefixes, and the nodes next to a path *)

Lemma strip_prefix_Some s t r : strip_prefix s t = Some r <-> t = s ++ r.
Proof.
  revert t. induction s as [|c s IH]; intros t; simpl.
  - split; congruence.
  - destruct t as [|c' t]; [split; discriminate|].
    destruct (c =? c')%char eqn:E.
    + apply Ascii.eqb_eq in E. subst c'. rewrite IH. split; congruence.
    + apply Ascii.eqb_neq in E. split; [discriminate|congruence].
Qed.

Lemma strip_prefix_app s r : strip_prefix s (s ++ r) = Some r.
Proof. apply strip_prefix_Some. reflexivity. Qed.

Lemma strip_prefix_None s t : strip_prefix s t = None <-> ~ prefix s t.
Proof.
  split.
  - intros H [r Hr]. apply strip_prefix_Some in Hr. congruence.
  - intros H. destruct (strip_prefix s t) as [r|] eqn:E; [|reflexivity].
    exfalso. apply H. exists r. apply strip_prefix_Some. exact E.
Qed.

Lemma prefixb_true s t : prefixb s t = true <-> prefix s t.
Proof.
  unfold prefixb. destruct (strip_prefix s t) as [r|] eqn:E; simpl.
  - split; [|reflexivity]. intros _. exists r. apply strip_prefix_Some. exact E.
  - split; [discriminate|]. intros H. apply strip_prefix_None in E. tauto.
Qed.

Lemma prefix_comparable t a b : prefix t (a ++ b) -> prefix a t \/ prefix t a.
Proof.
  revert t. induction a as [|c a IH]; intros t H.
  - left. exists t. reflexivity.
  - destruct t as [|c' t]; [right; exists (c :: a); reflexivity|].
    destruct H as [r Hr]. simpl in Hr. injection Hr as -> Hr.
    destruct (IH t) as [H | H]; [exists r; exact Hr| |].
    + left. apply prefix_cons. exact H.
    + right. apply prefix_cons. exact H.
Qed.

Lemma prefix_app_inv a r u : prefix (a ++ r) (a ++ u) <-> prefix r u.
Proof.
  induction a as [|c a IH]; simpl; [tauto|].
  rewrite prefix_cons. exact IH.
Qed.

Lemma fields_assign_off_path p s v t :
  is_null (deref p s) = false -> strip_prefix s t = None ->
  fields (assign p s v) t = fields p t.
Proof.
  revert p t. induction s as [|c s IH]; intros p t H Hnp; [discriminate|].
  simpl in H. pose proof (deref_node _ _ H) as Hn.
  destruct t as [|c' t].
  - unfold fields. simpl.
    destruct (set_next_fields p c (assign (next_seq p c) s v)) as (-> & -> & ->).
    reflexivity.
  - simpl in Hnp. unfold fields. simpl.
    destruct (c =? c')%char eqn:E.
    + apply Ascii.eqb_eq in E. subst c'.
      rewrite next_seq_set_next_same.
      * apply (IH (next_seq p c) t H Hnp).
      * eapply next_seq_node; eauto.
      * eapply next_seq_legal; eauto.
    + apply Ascii.eqb_neq in E.
      rewrite next_seq_set_next_other by exact E. reflexivity.
Qed.

Lemma fields_NULL q : fields NULL q = (true, -1, None).
Proof. unfold fields. rewrite deref_NULL. reflexivity. Qed.

Lemma fields_chain u r :
  forallb legal u = true ->
  fields (chain u) r = (negb (prefixb r u), -1, None).
Proof.
  revert r. induction u as [|c u IH]; intros r Hu.
  - destruct r as [|c' r]; [reflexivity|].
    rewrite fields_cons. cbn [chain]. rewrite next_seq_leaf, fields_NULL.
    reflexivity.
  - simpl in Hu. apply andb_true_iff in Hu. destruct Hu as [Hc Hu].
    destruct r as [|c' r].
    + unfold fields. cbn [deref chain].
      destruct (set_next_fields leaf c (chain u)) as (-> & -> & ->).
      reflexivity.
    + rewrite fields_cons. cbn [chain]. unfold prefixb. cbn [strip_prefix].
      rewrite Ascii.eqb_sym.
      destruct (c =? c')%char eqn:E.
      * apply Ascii.eqb_eq in E. subst c'.
        rewrite next_seq_set_next_same by auto. apply IH. exact Hu.
      * apply Ascii.eqb_neq in E.
        rewrite next_seq_set_next_other by exact E.
        rewrite next_seq_leaf, fields_NULL. reflexivity.
Qed.

(** The nodes of the store after [seq_add] has hung the chain of new nodes
    for [c0 :: u] below the node of [pre]. *)
Lemma fields_added q pre c0 u t :
  is_null (deref q pre) = false -> legal c0 = true ->
  is_null (next_seq (deref q pre) c0) = true -> forallb legal u = true ->
  fields (assign q pre (set_next (deref q pre) c0 (chain u))) t
  = match strip_prefix (pre ++ [c0]) t with
    | Some r => (negb (prefixb r u), -1, None)
    | None => fields q t
    end.
Proof.
  intros Hpre Hc0 Hnew Hu.
  destruct (strip_prefix (pre ++ [c0]) t) as [r|] eqn:E.
  - apply strip_prefix_Some in E. subst t. rewrite <- app_assoc.
    unfold fields. rewrite deref_assign_under by exact Hpre. simpl.
    rewrite next_seq_set_next_same by auto.
    apply fields_chain. exact Hu.
  - destruct (strip_prefix pre t) as [r|] eqn:E1.
    + apply strip_prefix_Some in E1. subst t.
      unfold fields. rewrite deref_assign_under by exact Hpre.
      rewrite deref_app.
      destruct r as [|c r].
      * simpl.
        destruct (set_next_fields (deref q pre) c0 (chain u)) as (-> & -> & ->).
        reflexivity.
      * simpl. destruct (ascii_dec c0 c) as [<- | Hne].
        -- exfalso. apply strip_prefix_None in E. apply E.
           exists r. rewrite <- app_assoc. reflexivity.
        -- rewrite next_seq_set_next_other by exact Hne. reflexivity.
    + apply fields_assign_off_path; assumption.
Qed.


(** ** X4, X5: what [seq_add] returns and what it leaves alone *)

Lemma seq_add_loop_present s q rest : forall cur i stl fi added e,
  present q (cur ++ rest) = true ->
  seq_add_loop s rest i q None cur stl fi added e
  = Done ((if added >? 0 then 1 else 0), q) e.
Proof.
  induction rest as [|c rest IH]; intros cur i stl fi added e Hp.
  - reflexivity.
  - cbn [seq_add_loop].
    assert (Hn : is_null (next_seq (deref q cur) c) = false).
    { apply present_node in Hp.
      replace (cur ++ c :: rest) with ((cur ++ [c]) ++ rest) in Hp
        by (rewrite <- app_assoc; reflexivity).
      apply deref_prefix_node in Hp. rewrite deref_app in Hp. exact Hp. }
    unfold bind.
    rewrite new_seq_node_old by (eauto using next_seq_legal).
    change (0 =? 1) with false. rewrite andb_false_r. cbv iota.
    change (0 =? -1) with false. cbv iota.
    rewrite assign_deref, Z.add_0_r. apply IH.
    rewrite <- app_assoc. exact Hp.
Qed.

Lemma seq_add_present p s e :
  is_null (root p) = false -> valid s -> present (root p) s = true ->
  seq_add p (Some s) e = Done (0, p) e.
Proof.
  intros Hr Hv Hp. unfold seq_add. rewrite Hr.
  rewrite (bind_eq _ _ _ _ _ _ _ (check_str_valid s e Hv)).
  change (0 =? -1) with false. cbv iota.
  unfold bind. rewrite seq_add_loop_present by exact Hp.
  destruct p; reflexivity.
Qed.

Lemma new_seq_node_succeeds p c e :
  legal c = true -> all_succeed e ->
  exists r p' e',
    new_seq_node p c e = Done (r, p') e' /\ r <> -1 /\ all_succeed e'.
Proof.
  intros Hc He. destruct (is_null (next_seq p c)) eqn:Hn.
  - rewrite new_seq_node_new by assumption.
    unfold all_succeed in *.
    destruct (mallocs e) as [|[|] ms] eqn:Hm; simpl in He; try discriminate;
      do 3 eexists; (split; [reflexivity|]); split; try lia; auto.
  - rewrite new_seq_node_old by assumption.
    do 3 eexists. split; [reflexivity|]. split; [lia|exact He].
Qed.

Lemma seq_add_loop_succeeds s rest :
  forall i p fa cur stl fi added e,
  forallb legal rest = true -> all_succeed e ->
  exists r p' e',
    seq_add_loop s rest i p fa cur stl fi added e = Done (r, p') e'
    /\ r <> -1 /\ all_succeed e'.
Proof.
  induction rest as [|c rest IH]; intros i p fa cur stl fi added e Hl He.
  - do 3 eexists. split; [reflexivity|].
    split; [destruct (added >? 0); lia|exact He].
  - simpl in Hl. apply andb_true_iff in Hl. destruct Hl as [Hc Hl].
    cbn [seq_add_loop]. unfold bind at 1.
    destruct (new_seq_node_succeeds (deref p cur) c e Hc He)
      as (r & p1 & e1 & -> & Hr & He1).
    apply Z.eqb_neq in Hr. rewrite Hr. apply IH; assumption.
Qed.

Lemma seq_add_all_succeed p s e :
  valid s -> is_null (root p) = false -> all_succeed e ->
  exists r p' e',
    seq_add p (Some s) e = Done (r, p') e' /\ r <> -1 /\ all_succeed e'.
Proof.
  intros Hv Hr He. unfold seq_add. rewrite Hr.
  rewrite (bind_eq _ _ _ _ _ _ _ (check_str_valid s e Hv)).
  change (0 =? -1) with false. cbv iota.
  destruct (seq_add_loop_succeeds s s 0%nat (root p) None [] [] 0%nat 0 e)
    as (r & q & e1 & Hrun & Hne & He1); [apply Hv|exact He|].
  unfold bind. rewrite Hrun. do 3 eexists. split; [reflexivity|]. auto.
Qed.

Lemma seq_add_failure_needs_oom p s e p' e' :
  valid s -> is_null (root p) = false -> all_succeed e ->
  seq_add p (Some s) e = Done (-1, p') e' -> False.
Proof.
  intros Hv Hr He H.
  destruct (seq_add_all_succeed p s e Hv Hr He) as (r & q & e1 & Hrun & Hne & _).
  rewrite Hrun in H. injection H as -> _ _. congruence.
Qed.

(** X4.  On a store and a valid sequence, [seq_add] returns 0 exactly when
    the sequence was there already, and then it changes nothing and does not
    even ask for memory; it returns 1 only when the sequence was not there;
    it returns -1 only when the sequence was not there and an allocation
    failed.  After a call that did not fail, adding the same sequence again
    returns 0 and changes nothing. *)
Theorem seq_add_returns p s e :
  is_null (root p) = false -> valid s ->
  (contains p s -> seq_add p (Some s) e = Done (0, p) e) /\
  (forall r p' e',
     seq_add p (Some s) e = Done (r, p') e' ->
     (r = 0 -> contains p s) /\
     (r = 1 -> lacks p s) /\
     (r = -1 -> lacks p s /\ ~ all_succeed e) /\
     (r <> -1 ->
      forall e2, seq_add p' (Some s) e2 = Done (0, p') e2)).
Proof.
  intros Hr Hv.
  assert (Old : contains p s -> seq_add p (Some s) e = Done (0, p) e).
  { intros Hc. apply contains_present in Hc; [|exact Hv].
    apply seq_add_present; tauto. }
  split; [exact Old|].
  intros r p' e' Hrun.
  destruct (seq_add_spec p s e Hr Hv) as (r1 & q & e1 & Hrun1 & Hres).
  pose proof Hrun as Hrun0.
  rewrite Hrun1 in Hrun. injection Hrun as -> <- ->.
  assert (Hlack : r <> 0 -> lacks p s).
  { intros Hne. apply lacks_present; [exact Hv|]. split; [exact Hr|].
    destruct (present (root p) s) eqn:Hp; [|reflexivity].
    rewrite seq_add_present in Hrun0 by assumption.
    injection Hrun0 as <- _ _. congruence. }
  repeat split.
  - intros ->. destruct Hres as [(_ & _ & _ & Hp) | [(H & _) | (H & _)]];
      try discriminate.
    apply contains_present; auto.
  - intros ->. apply Hlack. lia.
  - apply Hlack. lia.
  - intros He. subst r. eapply seq_add_failure_needs_oom; eauto.
  - intros Hne e2. apply seq_add_present; [|exact Hv|].
    + eapply contains_present; [exact Hv|].
      eapply seq_add_contains; eauto.
    + eapply contains_present; [exact Hv|].
      eapply seq_add_contains; eauto.
Qed.

Lemma seq_add_returns_witness :
  seq_add store_0_01_02 (sq "01") e0 = Done (0, store_0_01_02) e0 /\
  lacks store_0_01_02 (list_ascii_of_string "012") /\
  forall e2,
    seq_add (Store (Node (Node NULL (Node NULL NULL leaf None (-1)) leaf
                            None (-1)) NULL NULL None (-1)) 0)
            (sq "012") e2
    = Done (0, Store (Node (Node NULL (Node NULL NULL leaf None (-1)) leaf
                              None (-1)) NULL NULL None (-1)) 0) e2.
Proof.
  assert (Hv1 : valid (list_ascii_of_string "01"))
    by (split; [discriminate|reflexivity]).
  assert (Hv2 : valid (list_ascii_of_string "012"))
    by (split; [discriminate|reflexivity]).
  assert (Hrun : seq_add store_0_01_02 (sq "012") e0
                 = Done (1, Store (Node (Node NULL
                                           (Node NULL NULL leaf None (-1))
                                           leaf None (-1))
                                     NULL NULL None (-1)) 0) (Env 0 [] 1))
    by (vm_compute; reflexivity).
  split; [|split].
  - apply (proj1 (seq_add_returns store_0_01_02 _ e0 eq_refl Hv1)).
    intros e. reflexivity.
  - apply (proj1 (proj2 (proj2 (seq_add_returns store_0_01_02 _ e0 eq_refl
                                   Hv2) _ _ _ Hrun))).
    reflexivity.
  - apply (proj2 (proj2 (proj2 (proj2 (seq_add_returns store_0_01_02 _ e0
                                          eq_refl Hv2) _ _ _ Hrun)))).
    discriminate.
Defined.

Lemma present_fields p q : present p q = negb (fst (fst (fields p q))).
Proof. reflexivity. Qed.

Lemma seq_add_fields p s e p' e' :
  valid s -> seq_add p (Some s) e = Done (1, p') e' ->
  abstract_classes_amount p' = abstract_classes_amount p /\
  (forall q,
     fields (root p') q
     = if present (root p) q then fields (root p) q
       else (negb (prefixb q s), -1, None)) /\
  (forall t, valid t -> (contains p' t <-> contains p t \/ prefix t s)).
Proof.
  intros Hv Hrun.
  destruct (is_null (root p)) eqn:Hr.
  { destruct (seq_add_null p (Some s) e Hr) as (e1 & H1).
    rewrite H1 in Hrun. discriminate. }
  destruct (seq_add_spec p s e Hr Hv) as (r1 & q & e1 & Hrun1 & Hres).
  rewrite Hrun1 in Hrun. injection Hrun as -> <- ->.
  destruct Hres as [(H & _) | [(_ & _ & Hex) | (H & _)]]; try discriminate.
  destruct Hex as (pre & c0 & u & Hs & Hpre & Hnew & -> & _).
  assert (Hl : legal c0 = true /\ forallb legal u = true).
  { destruct Hv as [_ Hl]. rewrite Hs, forallb_app in Hl.
    apply andb_true_iff in Hl. destruct Hl as [_ Hl]. simpl in Hl.
    apply andb_true_iff in Hl. exact Hl. }
  destruct Hl as [Hc0 Hu].
  assert (HF : forall t,
             fields (assign (root p) pre
                       (set_next (deref (root p) pre) c0 (chain u))) t
             = if present (root p) t then fields (root p) t
               else (negb (prefixb t s), -1, None)).
  { intros t. rewrite fields_added by assumption.
    destruct (strip_prefix (pre ++ [c0]) t) as [r|] eqn:E.
    - apply strip_prefix_Some in E. subst t.
      assert (Hnp : present (root p) ((pre ++ [c0]) ++ r) = false).
      { unfold present. rewrite <- app_assoc, deref_app. simpl.
        destruct (next_seq (deref (root p) pre) c0); [|discriminate].
        rewrite deref_NULL. reflexivity. }
      rewrite Hnp. f_equal. f_equal. f_equal.
      apply eq_true_iff_eq. rewrite !prefixb_true, Hs.
      replace (pre ++ c0 :: u) with ((pre ++ [c0]) ++ u)
        by (rewrite <- app_assoc; reflexivity).
      symmetry. apply prefix_app_inv.
    - destruct (present (root p) t) eqn:Hp; [reflexivity|].
      assert (Hnull : deref (root p) t = NULL).
      { unfold present in Hp. destruct (deref (root p) t); [reflexivity|].
        discriminate. }
      unfold fields. rewrite Hnull. cbn.
      destruct (prefixb t s) eqn:Hpre'; [|reflexivity].
      exfalso. apply prefixb_true in Hpre'. rewrite Hs in Hpre'.
      replace (pre ++ c0 :: u) with ((pre ++ [c0]) ++ u) in Hpre'
        by (rewrite <- app_assoc; reflexivity).
      destruct (prefix_comparable _ _ _ Hpre') as [H | H].
      + apply strip_prefix_None in E. tauto.
      + destruct (prefix_comparable _ _ _ H) as [H1 | H1].
        * destruct H1 as [r1 ->]. destruct H as [r2 H].
          rewrite <- app_assoc in H. apply app_inv_head in H.
          destruct r1 as [|c1 r1].
          -- rewrite app_nil_r in Hp. unfold present in Hp.
             rewrite Hpre in Hp. discriminate.
          -- simpl in H. injection H as <- H.
             apply strip_prefix_None in E. apply E. exists r1.
             rewrite <- app_assoc. reflexivity.
        * assert (Hpp : present (root p) pre = true)
            by (unfold present; rewrite Hpre; reflexivity).
          rewrite (present_prefix _ _ _ H1 Hpp) in Hp. discriminate. }
  split; [reflexivity|]. split; [exact HF|].
  intros t Ht. rewrite !contains_present by exact Ht. cbn [root].
  assert (Hr' : is_null (assign (root p) pre
                           (set_next (deref (root p) pre) c0 (chain u)))
                = false).
  { change (is_null ?x) with (fst (fst (fields x []))). rewrite HF.
    unfold present. cbn [deref]. rewrite Hr. cbn [negb]. unfold fields.
    cbn [deref fst]. exact Hr. }
  rewrite Hr, Hr', present_fields, HF.
  destruct (present (root p) t) eqn:Hp.
  - rewrite <- present_fields, Hp. tauto.
  - cbn. rewrite negb_involutive, prefixb_true. split.
    + intros [_ H]. right. exact H.
    + intros [[_ H] | H]; [discriminate|]. split; [reflexivity|exact H].
Qed.

(** X5.  When [seq_add] of [s] returns 1, the counter is as before, the
    nodes that were in the store keep their class and their name, and the
    nodes that are new are exactly those of the prefixes of [s] that were
    missing; they have no class and no name.  So afterwards a valid sequence
    is in the store exactly when it was there before or is a prefix of
    [s]. *)
Theorem seq_add_frame p s e p' e' :
  valid s -> seq_add p (Some s) e = Done (1, p') e' ->
  abstract_classes_amount p' = abstract_classes_amount p /\
  (forall q,
     fields (root p') q
     = if present (root p) q then fields (root p) q
       else (negb (prefixb q s), -1, None)) /\
  (forall t, valid t -> (contains p' t <-> contains p t \/ prefix t s)).
Proof. apply seq_add_fields. Qed.

Lemma seq_add_frame_witness :
  contains (Store (Node (Node NULL (Node NULL NULL leaf None (-1)) leaf
                           None (-1)) NULL NULL None (-1)) 0)
           (list_ascii_of_string "012") /\
  fields (Node (Node NULL (Node NULL NULL leaf None (-1)) leaf None (-1))
               NULL NULL None (-1)) (list_ascii_of_string "012")
  = (false, -1, None).
Proof.
  assert (Hv2 : valid (list_ascii_of_string "012"))
    by (split; [discriminate|reflexivity]).
  assert (Hrun : seq_add store_0_01_02 (sq "012") e0
                 = Done (1, Store (Node (Node NULL
                                           (Node NULL NULL leaf None (-1))
                                           leaf None (-1))
                                     NULL NULL None (-1)) 0) (Env 0 [] 1))
    by (vm_compute; reflexivity).
  destruct (seq_add_frame store_0_01_02 _ e0 _ _ Hv2 Hrun) as (_ & HF & HC).
  split.
  - apply (HC _ Hv2). right. exists []. reflexivity.
  - exact (HF (list_ascii_of_string "012")).
Defined.


(** ** X6: what [seq_remove] leaves alone *)

Lemma fields_removed p s q :
  is_null (deref p s) = false ->
  fields (assign p s NULL) q
  = if prefixb s q then (true, -1, None) else fields p q.
Proof.
  intros Hs. unfold prefixb.
  destruct (strip_prefix s q) as [r|] eqn:E; cbn [is_some].
  - apply strip_prefix_Some in E. subst q. unfold fields.
    rewrite deref_assign_under by exact Hs. rewrite deref_NULL. reflexivity.
  - apply fields_assign_off_path; assumption.
Qed.

(** X6.  [seq_remove] of a sequence of the store, with the argument held in
    a buffer that the removal does not free (a buffer of the caller, or a
    name away from the subtree removed), returns 1, gives back exactly the
    blocks of the nodes and names below and at the node of the sequence, and
    leaves [errno], the counter, and the class and name of every node that
    is not removed as they were.  With the argument held in the name of a
    node at the sequence or below, the call reads the argument after it has
    freed it, and has no defined behaviour. *)
Theorem seq_remove_frame p s s_in e :
  valid s -> contains p s ->
  (freed_with (root p) s s_in = true ->
   seq_remove p (Some s) s_in e = Undefined) /\
  (freed_with (root p) s s_in = false ->
   exists p',
     seq_remove p (Some s) s_in e
     = Done (1, p') (Env (errno e) (mallocs e)
                         (allocated e - blocks (deref (root p) s))) /\
     abstract_classes_amount p' = abstract_classes_amount p /\
     forall q,
       fields (root p') q
       = if prefixb s q then (true, -1, None) else fields (root p) q).
Proof.
  intros Hv Hc. apply contains_present in Hc; [|exact Hv].
  destruct Hc as [Hr Hp].
  rewrite seq_remove_found by assumption.
  split; intros Hf; rewrite Hf; [reflexivity|].
  eexists. split; [reflexivity|]. split; [reflexivity|].
  intros q. apply fields_removed. apply present_node. exact Hp.
Qed.

Lemma seq_remove_frame_witness :
  (exists p',
     seq_remove store_three_named (sq "0") None (Env 0 [] 9)
     = Done (1, p') (Env 0 [] 6) /\
     fields (root p') (list_ascii_of_string "1")
     = (false, 2, Some "B"%string) /\
     fields (root p') (list_ascii_of_string "00") = (true, -1, None)) /\
  seq_remove store_three_named (sq "0") (Some (list_ascii_of_string "0"))
    (Env 0 [] 9)
  = Undefined.
Proof.
  assert (Hv : valid (list_ascii_of_string "0"))
    by (split; [discriminate|reflexivity]).
  split.
  - destruct (proj2 (seq_remove_frame store_three_named _ None (Env 0 [] 9)
                       Hv (fun e => eq_refl)) eq_refl)
      as (p' & Hrun & _ & HF).
    exists p'. split; [exact Hrun|]. split.
    + rewrite HF. reflexivity.
    + rewrite HF. reflexivity.
  - exact (proj1 (seq_remove_frame store_three_named _
                    (Some (list_ascii_of_string "0")) (Env 0 [] 9)
                    Hv (fun e => eq_refl)) eq_refl).
Defined.

(** ** X7, X8, X9: [seq_set_name] on a node without a class, and its
    returns of 0 *)

Lemma fields_assign_node p s z o t name c name' c' q :
  deref p s = Node z o t name c ->
  fields (assign p s (Node z o t name' c')) q
  = if ptr_eqb q s then (false, c', name') else fields p q.
Proof.
  intros Hs. assert (Hn : is_null (deref p s) = false) by (rewrite Hs; auto).
  destruct (ptr_eqb q s) eqn:E.
  - apply ptr_eqb_eq in E. subst q. unfold fields.
    rewrite deref_assign_same by exact Hn. reflexivity.
  - apply fields_assign_other; [exact Hn| |].
    + rewrite Hs. split; reflexivity.
    + intros ->. rewrite ptr_eqb_refl in E. discriminate.
Qed.

Lemma seq_set_name_first p s n n_in e :
  valid s -> n <> ""%string -> contains p s ->
  abstract_class (deref (root p) s) = -1 ->
  seq_set_name p (Some s) (Some n) n_in e
  = match mallocs e with
    | false :: rest =>
        Done (-1, Store (assign (root p) s (set_name (deref (root p) s) None))
                        (abstract_classes_amount p))
             (Env ENOMEM rest (allocated e))
    | _ =>
        Done (1, Store (assign (root p) s
                          (set_class (set_name (deref (root p) s) (Some n))
                             (wrap_int (abstract_classes_amount p + 1))))
                       (wrap_int (abstract_classes_amount p + 1)))
             (Env (errno e) (tl (mallocs e)) (allocated e + 1))
    end.
Proof.
  intros Hv Hn Hc Hcls.
  apply contains_present in Hc; [|exact Hv]. destruct Hc as [Hr Hp].
  unfold seq_set_name. rewrite Hr.
  rewrite (bind_eq _ _ _ _ _ _ _ (check_str_valid s e Hv)).
  change (0 =? -1) with false. cbv iota.
  rewrite name_nonempty by exact Hn. unfold chars_of.
  rewrite walk_root, Hp by exact Hr. cbv zeta.
  rewrite Hcls. change (-1 =? -1) with true. cbv iota.
  unfold bind, malloc. destruct (mallocs e) as [|[|] ms]; reflexivity.
Qed.

(** X7.  Naming a sequence of the store whose node has no class, when the
    allocation succeeds: [seq_set_name] returns 1, the counter goes up by
    one, the node gets the new counter value as its class and [n] as its
    name, and every other node keeps its class and name.  Afterwards
    [seq_get_name] gives [n] for the sequence, and naming it [n] again
    returns 0 and changes nothing.  Nothing is freed on this path, so it
    holds wherever [n] is held. *)
Theorem seq_set_name_round_trip p s n n_in e :
  valid s -> n <> ""%string -> contains p s ->
  abstract_class (deref (root p) s) = -1 ->
  0 <= abstract_classes_amount p < INT_MAX ->
  all_succeed e ->
  exists p' e',
    seq_set_name p (Some s) (Some n) n_in e = Done (1, p') e' /\
    abstract_classes_amount p' = abstract_classes_amount p + 1 /\
    allocated e' = allocated e + 1 /\
    (forall q,
       fields (root p') q
       = if ptr_eqb q s
         then (false, abstract_classes_amount p + 1, Some n)
         else fields (root p) q) /\
    (forall e2, seq_get_name p' (Some s) e2 = Done (Some n) e2) /\
    (forall e2, seq_set_name p' (Some s) (Some n) n_in e2 = Done (0, p') e2).
Proof.
  intros Hv Hn Hc Hcls Hamt He.
  rewrite (seq_set_name_first p s n n_in e Hv Hn Hc Hcls).
  rewrite wrap_int_succ by exact Hamt.
  apply contains_present in Hc; [|exact Hv]. destruct Hc as [Hr Hp].
  pose proof (present_node _ _ Hp) as Hnode.
  destruct (deref (root p) s) as [|z o t name c] eqn:Hd; [discriminate|].
  cbn [set_name set_class].
  set (p' := Store (assign (root p) s
                      (Node z o t (Some n) (abstract_classes_amount p + 1)))
                   (abstract_classes_amount p + 1)).
  assert (HF : forall q,
             fields (root p') q
             = if ptr_eqb q s
               then (false, abstract_classes_amount p + 1, Some n)
               else fields (root p) q).
  { intros q. apply fields_assign_node with (name := name) (c := c).
    exact Hd. }
  assert (Hr' : is_null (root p') = false).
  { change (is_null (root p')) with (fst (fst (fields (root p') []))).
    rewrite HF. destruct (ptr_eqb [] s); [reflexivity|exact Hr]. }
  assert (HFs : fields (root p') s
                = (false, abstract_classes_amount p + 1, Some n)).
  { rewrite HF, ptr_eqb_refl. reflexivity. }
  unfold fields in HFs. injection HFs as Hnull Hclass Hname.
  assert (Hp' : present (root p') s = true)
    by (unfold present; apply negb_true_iff; exact Hnull).
  assert (Hres : exists e',
            match mallocs e with
            | false :: rest =>
                Done (-1, Store (assign (root p) s (Node z o t None c))
                                (abstract_classes_amount p))
                     (Env ENOMEM rest (allocated e))
            | _ => Done (1, p')
                        (Env (errno e) (tl (mallocs e)) (allocated e + 1))
            end = Done (1, p') e' /\ allocated e' = allocated e + 1).
  { unfold all_succeed in He.
    destruct (mallocs e) as [|[|] ms]; simpl in He; try discriminate;
      eexists; split; reflexivity. }
  destruct Hres as (e' & Hres & Ha).
  exists p', e'. split; [exact Hres|]. split; [reflexivity|].
  split; [exact Ha|]. split; [exact HF|]. split.
  - intros e2. rewrite seq_get_name_cases, Hp' by assumption.
    change (abstract_class_name (deref (root p') s)) with
      (snd (fields (root p') s)).
    rewrite HF, ptr_eqb_refl. reflexivity.
  - intros e2. unfold seq_set_name. rewrite Hr'.
    rewrite (bind_eq _ _ _ _ _ _ _ (check_str_valid s e2 Hv)).
    change (0 =? -1) with false. cbv iota.
    rewrite name_nonempty by exact Hn. unfold chars_of.
    rewrite walk_root, Hp' by exact Hr'. cbv zeta.
    change (abstract_class (deref (root p') s)) with
      (snd (fst (fields (root p') s))).
    change (abstract_class_name (deref (root p') s)) with
      (snd (fields (root p') s)).
    rewrite HF, ptr_eqb_refl. cbn [fst snd].
    replace (abstract_classes_amount p + 1 =? -1) with false
      by (symmetry; apply Z.eqb_neq; lia).
    unfold bind at 1. unfold bind at 1. rewrite strcmp_some.
    unfold ret at 1. rewrite string_compare_refl. reflexivity.
Qed.

Lemma seq_set_name_round_trip_witness :
  exists p' e',
    seq_set_name store_0_01_02 (sq "01") (Some "A"%string) None e0
    = Done (1, p') e' /\
    seq_get_name p' (sq "01") e0 = Done (Some "A"%string) e0.
Proof.
  assert (Hv : valid (list_ascii_of_string "01"))
    by (split; [discriminate|reflexivity]).
  destruct (seq_set_name_round_trip store_0_01_02 _ "A"%string None e0 Hv)
    as (p' & e' & Hrun & _ & _ & _ & Hget & _).
  - discriminate.
  - intros e. reflexivity.
  - reflexivity.
  - vm_compute. split; [discriminate|reflexivity].
  - reflexivity.
  - exists p', e'. split; [exact Hrun|]. apply Hget.
Defined.

(** X8.  Naming a sequence of the store whose node has no class, when the
    allocation fails: [seq_set_name] returns -1 with [errno] set to ENOMEM,
    asks for no other block, and leaves the counter and every node as they
    were, but for the name of that node, which is NULL afterwards; a node
    without a name is left as it was.  This holds wherever [n] is held. *)
Theorem seq_set_name_first_oom p s n n_in e rest :
  valid s -> n <> ""%string -> contains p s ->
  abstract_class (deref (root p) s) = -1 ->
  mallocs e = false :: rest ->
  exists p',
    seq_set_name p (Some s) (Some n) n_in e
    = Done (-1, p') (Env ENOMEM rest (allocated e)) /\
    abstract_classes_amount p' = abstract_classes_amount p /\
    (forall q,
       fields (root p') q
       = if ptr_eqb q s then (false, -1, None) else fields (root p) q) /\
    (abstract_class_name (deref (root p) s) = None -> p' = p).
Proof.
  intros Hv Hn Hc Hcls Hm.
  rewrite (seq_set_name_first p s n n_in e Hv Hn Hc Hcls), Hm.
  apply contains_present in Hc; [|exact Hv]. destruct Hc as [Hr Hp].
  pose proof (present_node _ _ Hp) as Hnode.
  destruct (deref (root p) s) as [|z o t name c] eqn:Hd; [discriminate|].
  cbn [set_name abstract_class] in *. subst c.
  eexists. split; [reflexivity|]. split; [reflexivity|]. split.
  - intros q. cbn [root].
    apply fields_assign_node with (name := name) (c := -1). exact Hd.
  - cbn. intros ->. rewrite <- Hd, assign_deref. destruct p; reflexivity.
Qed.

Lemma seq_set_name_first_oom_witness :
  seq_set_name store_0_01_02 (sq "01") (Some "A"%string) None (Env 0 [false] 3)
  = Done (-1, store_0_01_02) (Env ENOMEM [] 3).
Proof.
  assert (Hv : valid (list_ascii_of_string "01"))
    by (split; [discriminate|reflexivity]).
  destruct (seq_set_name_first_oom store_0_01_02 _ "A"%string None
              (Env 0 [false] 3) [] Hv) as (p' & Hrun & _ & _ & Hsame).
  - discriminate.
  - intros e. reflexivity.
  - reflexivity.
  - reflexivity.
  - etransitivity; [exact Hrun|]. rewrite (Hsame eq_refl). reflexivity.
Defined.

(** X9.  [seq_set_name] returns 0 and changes nothing, neither the store nor
    [errno], in two cases: the sequence is not in the store; or its node is
    in a class and already has the name asked for.  This holds wherever [n]
    is held. *)
Theorem seq_set_name_unchanged p s n n_in e :
  valid s -> n <> ""%string ->
  (lacks p s -> seq_set_name p (Some s) (Some n) n_in e = Done (0, p) e) /\
  (contains p s -> abstract_class (deref (root p) s) <> -1 ->
   abstract_class_name (deref (root p) s) = Some n ->
   seq_set_name p (Some s) (Some n) n_in e = Done (0, p) e).
Proof.
  intros Hv Hn. split.
  - intros Hl. apply lacks_present in Hl; [|exact Hv].
    destruct Hl as [Hr Hp]. unfold seq_set_name. rewrite Hr.
    rewrite (bind_eq _ _ _ _ _ _ _ (check_str_valid s e Hv)).
    change (0 =? -1) with false. cbv iota.
    rewrite name_nonempty by exact Hn. unfold chars_of.
    rewrite walk_root, Hp by exact Hr. reflexivity.
  - intros Hc Hcls Hname. apply contains_present in Hc; [|exact Hv].
    destruct Hc as [Hr Hp]. unfold seq_set_name. rewrite Hr.
    rewrite (bind_eq _ _ _ _ _ _ _ (check_str_valid s e Hv)).
    change (0 =? -1) with false. cbv iota.
    rewrite name_nonempty by exact Hn. unfold chars_of.
    rewrite walk_root, Hp by exact Hr. cbv zeta.
    apply Z.eqb_neq in Hcls. rewrite Hcls, Hname.
    unfold bind at 1. unfold bind at 1. rewrite strcmp_some.
    unfold ret at 1. rewrite string_compare_refl. reflexivity.
Qed.

Lemma seq_set_name_unchanged_witness :
  seq_set_name store_named (sq "1") (Some "A"%string) None e0
  = Done (0, store_named) e0 /\
  seq_set_name store_named (sq "0") (Some "A"%string) None e0
  = Done (0, store_named) e0.
Proof.
  assert (Hv0 : valid (list_ascii_of_string "0"))
    by (split; [discriminate|reflexivity]).
  assert (Hv1 : valid (list_ascii_of_string "1"))
    by (split; [discriminate|reflexivity]).
  split.
  - apply (proj1 (seq_set_name_unchanged store_named _ "A"%string None e0 Hv1
                    ltac:(discriminate))).
    intros e. reflexivity.
  - apply (proj2 (seq_set_name_unchanged store_named _ "A"%string None e0 Hv0
                    ltac:(discriminate))).
    + intros e. reflexivity.
    + discriminate.
    + reflexivity.
Defined.


(** ** X10: naming and merging keep the sequences *)

Lemma contains_valid p t : contains p t -> valid t.
Proof.
  intros H. destruct (check_str_cases t e0) as [[Hv _] | [e' Hk]];
    [exact Hv|].
  specialize (H e0). unfold seq_valid in H.
  rewrite (bind_eq _ _ _ _ _ _ _ Hk) in H. discriminate.
Qed.

Lemma reclass_contains n p p' t :
  reclass n (root p) (root p') -> contains p' t <-> contains p t.
Proof.
  intros R. split; intros H; pose proof (contains_valid _ _ H) as Hv;
    apply contains_present in H; try exact Hv;
    apply contains_present; try exact Hv;
    rewrite (reclass_null _ _ _ R), (reclass_present _ _ _ t R) in *;
    exact H.
Qed.

(** X10.  Whatever [seq_set_name] and [seq_equiv] are given and whatever
    they return, the store afterwards holds exactly the sequences it held
    before: naming and merging add no sequence and remove none. *)
Theorem naming_keeps_sequences p e r p' e' :
  (exists s n n_in, seq_set_name p s n n_in e = Done (r, p') e') \/
  (exists s1 s2, seq_equiv p s1 s2 e = Done (r, p') e') ->
  forall t, contains p' t <-> contains p t.
Proof.
  intros [(s & n & n_in & H) | (s1 & s2 & H)] t.
  - destruct (seq_set_name_outcome _ _ _ _ _ _ _ _ H) as [[_ R] | [_ R]];
      eapply reclass_contains; exact R.
  - destruct (seq_equiv_outcome _ _ _ _ _ _ _ H)
      as [[-> _] | (c1 & c2 & _ & _ & _ & _ & _ & _ & _ & _ & _ & R & _)];
      [reflexivity|].
    eapply reclass_contains; exact R.
Qed.

Lemma naming_keeps_sequences_witness :
  exists p' e',
    seq_equiv store_three_named (at_address 1 "0") (at_address 2 "1") e0
    = Done (1, p') e' /\
    contains p' (list_ascii_of_string "00").
Proof.
  assert (H : exists p' e',
             seq_equiv store_three_named (at_address 1 "0")
               (at_address 2 "1") e0 = Done (1, p') e')
    by (vm_compute; eauto).
  destruct H as (p' & e' & H). exists p', e'. split; [exact H|].
  apply (proj2 (naming_keeps_sequences store_three_named e0 1 p' e'
                  (or_intror (ex_intro _ _ (ex_intro _ _ H)))
                  (list_ascii_of_string "00"))).
  intros e. reflexivity.
Defined.

(** ** X11 to X14: [seq_equiv] *)

Lemma node_change_second_only z o t name c b v e :
  node_change (Node z o t name c) None (Some b) v e = Undefined.
Proof. unfold node_change, bind, free, ret. destruct name; reflexivity. Qed.

Lemma classed_names p s1 s2 n :
  is_null (deref p s1) = false -> is_null (deref p s2) = false ->
  abstract_class_name (deref (classed p s1 s2 n) s1)
  = abstract_class_name (deref p s1) /\
  abstract_class_name (deref (classed p s1 s2 n) s2)
  = abstract_class_name (deref p s2).
Proof.
  intros N1 N2.
  pose proof (fields_classed p s1 s2 n s1 N1 N2) as F1.
  pose proof (fields_classed p s1 s2 n s2 N1 N2) as F2.
  rewrite ptr_eqb_refl in F1. rewrite ptr_eqb_refl, orb_true_r in F2.
  cbn [orb] in F1. unfold fields in F1, F2.
  injection F1 as _ _ F1. injection F2 as _ _ F2. auto.
Qed.

(** The start of [seq_equiv] on two sequences of the store that are not yet
    in one class: the checks pass and the two nodes get the new class. *)
Ltac enter_seq_equiv e Hr Hv1 Hv2 Ha Hp1 Hp2 Hcls :=
  unfold seq_equiv; rewrite Hr;
  rewrite (bind_eq _ _ _ _ _ _ _ (check_str_valid _ e Hv1));
  change (0 =? -1) with false; cbv iota;
  rewrite (bind_eq _ _ _ _ _ _ _ (check_str_valid _ e Hv2));
  change (0 =? -1) with false; cbv iota;
  rewrite (proj2 (Z.eqb_neq _ _) Ha);
  rewrite !walk_root, Hp1, Hp2 by exact Hr; cbv zeta; rewrite Hcls;
  match goal with
  | |- context [assign (assign ?rt ?a (set_class (deref ?rt ?a) ?n)) ?b _] =>
      change (assign (assign rt a (set_class (deref rt a) n)) b
                (set_class (deref (assign rt a (set_class (deref rt a) n)) b)
                   n))
        with (classed rt a b n)
  end.

Lemma not_same_class c1 c2 :
  ~ (c1 <> -1 /\ c1 = c2) -> negb (c1 =? -1) && (c1 =? c2) = false.
Proof.
  intros H. destruct (c1 =? -1) eqn:E1; [reflexivity|].
  destruct (c1 =? c2) eqn:E2; [|reflexivity].
  apply Z.eqb_neq in E1. apply Z.eqb_eq in E2. tauto.
Qed.

(** X11.  Two sequences of the store, held at different addresses, whose
    nodes are not yet in one class; no allocation fails and it is not the
    second node alone that has a name.  Then [seq_equiv] returns 1 and the
    counter goes up by one.  The nodes that change are the two nodes and
    every node that was in the class of either of them: each gets the new
    counter value as its class and the merged name (the name of the one that
    has one; one copy when the two names are equal; else the first followed
    by the second).  Every other node keeps its class and name, and the new
    class has no other node. *)
Theorem seq_equiv_joins_classes p s1 s2 e :
  valid (chars s1) -> valid (chars s2) ->
  contains p (chars s1) -> contains p (chars s2) ->
  address s1 <> address s2 ->
  ~ (abstract_class (deref (root p) (chars s1)) <> -1 /\
     abstract_class (deref (root p) (chars s1))
     = abstract_class (deref (root p) (chars s2))) ->
  (abstract_class_name (deref (root p) (chars s1)) = None ->
   abstract_class_name (deref (root p) (chars s2)) = None) ->
  all_succeed e ->
  store_inv p -> abstract_classes_amount p < INT_MAX ->
  exists p' e',
    seq_equiv p (Some s1) (Some s2) e = Done (1, p') e' /\
    abstract_classes_amount p' = abstract_classes_amount p + 1 /\
    (forall q,
       fields (root p') q
       = if member (root p) (chars s1) (chars s2) q
         then (false, abstract_classes_amount p + 1,
               merged_name (abstract_class_name (deref (root p) (chars s1)))
                           (abstract_class_name (deref (root p) (chars s2))))
         else fields (root p) q) /\
    (forall q,
       abstract_class (deref (root p') q) = abstract_classes_amount p + 1
       <-> member (root p) (chars s1) (chars s2) q = true).
Proof.
  intros Hv1 Hv2 Hc1 Hc2 Ha Hcls Hn He Hinv Hlt.
  apply contains_present in Hc1; [|exact Hv1]. destruct Hc1 as [Hr Hp1].
  apply contains_present in Hc2; [|exact Hv2]. destruct Hc2 as [_ Hp2].
  apply not_same_class in Hcls.
  destruct (seq_equiv_names p s1 s2 e Hr Hv1 Hv2 Ha Hp1 Hp2 Hcls Hn He)
    as (p' & e' & Hrun & Hamt & HF & Hnew).
  assert (Hw : wrap_int (abstract_classes_amount p + 1)
               = abstract_classes_amount p + 1).
  { apply wrap_int_succ. destruct Hinv as [? _]. lia. }
  rewrite Hw in *.
  exists p', e'. split; [exact Hrun|]. split; [exact Hamt|].
  split; [exact HF|].
  intros q. split.
  - intros Hq. apply (Hnew Hinv Hlt q Hq).
  - intros Hm. specialize (HF q). rewrite Hm in HF. unfold fields in HF.
    injection HF as _ Hc _. exact Hc.
Qed.

Lemma seq_equiv_joins_classes_witness :
  exists p' e',
    seq_equiv store_three_named (at_address 1 "0") (at_address 2 "1") e0
    = Done (1, p') e' /\
    fields (root p') (list_ascii_of_string "0") = (false, 4, Some "AB"%string)
    /\ fields (root p') (list_ascii_of_string "1")
       = (false, 4, Some "AB"%string)
    /\ fields (root p') (list_ascii_of_string "2")
       = (false, 3, Some "A"%string).
Proof.
  assert (Hv0 : valid (list_ascii_of_string "0"))
    by (split; [discriminate|reflexivity]).
  assert (Hv1 : valid (list_ascii_of_string "1"))
    by (split; [discriminate|reflexivity]).
  destruct (seq_equiv_joins_classes store_three_named
              (CharPtr 1 (list_ascii_of_string "0"))
              (CharPtr 2 (list_ascii_of_string "1")) e0 Hv0 Hv1)
    as (p' & e' & Hrun & _ & HF & _).
  - intros e. reflexivity.
  - intros e. reflexivity.
  - discriminate.
  - intros [_ H]. vm_compute in H. discriminate.
  - discriminate.
  - reflexivity.
  - split; [vm_compute; split; discriminate|].
    intros c Hc. vm_compute in Hc.
    repeat (destruct Hc as [<- | Hc]; [vm_compute; intuition congruence|]).
    destruct Hc.
  - reflexivity.
  - exists p', e'. split; [exact Hrun|].
    repeat split; rewrite HF; reflexivity.
Defined.

(** X12.  [seq_equiv] with a valid sequence that is not in the store, as
    either argument, returns 0 and changes nothing. *)
Theorem seq_equiv_absent p s1 s2 e :
  valid (chars s1) -> valid (chars s2) ->
  lacks p (chars s1) \/ lacks p (chars s2) ->
  seq_equiv p (Some s1) (Some s2) e = Done (0, p) e.
Proof.
  intros Hv1 Hv2 Hl.
  assert (Hr : is_null (root p) = false).
  { destruct Hl as [Hl | Hl]; apply lacks_present in Hl; tauto. }
  unfold seq_equiv. rewrite Hr.
  rewrite (bind_eq _ _ _ _ _ _ _ (check_str_valid _ e Hv1)).
  change (0 =? -1) with false. cbv iota.
  rewrite (bind_eq _ _ _ _ _ _ _ (check_str_valid _ e Hv2)).
  change (0 =? -1) with false. cbv iota.
  destruct (address s1 =? address s2); [reflexivity|].
  rewrite !walk_root by exact Hr.
  destruct Hl as [Hl | Hl]; apply lacks_present in Hl; try assumption;
    destruct Hl as [_ Hp]; rewrite Hp.
  - reflexivity.
  - destruct (present (root p) (chars s1)); reflexivity.
Qed.

Lemma seq_equiv_absent_witness :
  seq_equiv store_three_named (at_address 1 "0") (at_address 2 "01") e0
  = Done (0, store_three_named) e0.
Proof.
  apply (seq_equiv_absent store_three_named
           (CharPtr 1 (list_ascii_of_string "0"))
           (CharPtr 2 (list_ascii_of_string "01")) e0).
  - split; [discriminate|reflexivity].
  - split; [discriminate|reflexivity].
  - right. intros e. reflexivity.
Defined.

Lemma seq_equiv_strcmp_null p s1 s2 e b :
  valid (chars s1) -> valid (chars s2) ->
  contains p (chars s1) -> contains p (chars s2) ->
  address s1 <> address s2 ->
  ~ (abstract_class (deref (root p) (chars s1)) <> -1 /\
     abstract_class (deref (root p) (chars s1))
     = abstract_class (deref (root p) (chars s2))) ->
  abstract_class_name (deref (root p) (chars s1)) = None ->
  abstract_class_name (deref (root p) (chars s2)) = Some b ->
  hd true (mallocs e) = true ->
  seq_equiv p (Some s1) (Some s2) e = Undefined.
Proof.
  intros Hv1 Hv2 Hc1 Hc2 Ha Hcls Hn1 Hn2 Hm.
  apply contains_present in Hc1; [|exact Hv1]. destruct Hc1 as [Hr Hp1].
  apply contains_present in Hc2; [|exact Hv2]. destruct Hc2 as [_ Hp2].
  apply not_same_class in Hcls.
  pose proof (present_node _ _ Hp1) as N1.
  pose proof (present_node _ _ Hp2) as N2.
  enter_seq_equiv e Hr Hv1 Hv2 Ha Hp1 Hp2 Hcls.
  set (n := wrap_int (abstract_classes_amount p + 1)).
  destruct (classed_names (root p) (chars s1) (chars s2) n N1 N2) as [F1 F2].
  rewrite F1, F2, Hn1, Hn2. cbn [is_some].
  rewrite (bind_eq _ _ _ _ _ _ _ (eq_refl : ret true e = Done true e)).
  cbn [negb]. cbv iota.
  assert (Hmal : exists e1, malloc e = Done true e1).
  { unfold malloc. destruct (mallocs e) as [|[|] ms]; simpl in Hm;
      try discriminate; eauto. }
  destruct Hmal as [e1 Hmal].
  rewrite (bind_eq _ _ _ _ _ _ _ Hmal). cbn [negb]. cbv iota.
  assert (Nc : is_null (deref (classed (root p) (chars s1) (chars s2) n)
                          (chars s1)) = false).
  { apply present_node.
    rewrite (reclass_present n (root p) _ _ (reclass_classed n _ _ _)).
    exact Hp1. }
  destruct (deref (classed (root p) (chars s1) (chars s2) n) (chars s1))
    as [|z o t name c]; [discriminate|].
  unfold bind at 1. rewrite node_change_second_only. reflexivity.
Qed.

(** X13.  Two sequences of the store, held at different addresses, whose
    nodes are not yet in one class: when the first node has no name and the
    second has one, and the allocation of the copy of that name succeeds,
    [seq_equiv] hands a NULL first name to [strcmp] and has no defined
    behaviour. *)
Theorem seq_equiv_first_unnamed_undefined p s1 s2 e b :
  valid (chars s1) -> valid (chars s2) ->
  contains p (chars s1) -> contains p (chars s2) ->
  address s1 <> address s2 ->
  ~ (abstract_class (deref (root p) (chars s1)) <> -1 /\
     abstract_class (deref (root p) (chars s1))
     = abstract_class (deref (root p) (chars s2))) ->
  abstract_class_name (deref (root p) (chars s1)) = None ->
  abstract_class_name (deref (root p) (chars s2)) = Some b ->
  hd true (mallocs e) = true ->
  seq_equiv p (Some s1) (Some s2) e = Undefined.
Proof. apply seq_equiv_strcmp_null. Qed.

Lemma seq_equiv_first_unnamed_undefined_witness :
  seq_equiv store_second_named (at_address 1 "0") (at_address 2 "1") e0
  = Undefined.
Proof.
  apply (seq_equiv_first_unnamed_undefined store_second_named
           (CharPtr 1 (list_ascii_of_string "0"))
           (CharPtr 2 (list_ascii_of_string "1")) e0 "B"%string).
  - split; [discriminate|reflexivity].
  - split; [discriminate|reflexivity].
  - intros e. reflexivity.
  - intros e. reflexivity.
  - discriminate.
  - intros [H _]. apply H. reflexivity.
  - reflexivity.
  - reflexivity.
  - reflexivity.
Defined.

(** X14.  [seq_equiv] does not undo its start when an allocation fails.
    Two sequences of the store, held at different addresses, whose nodes are
    not yet in one class, the first with a name: when the allocation of the
    copy of the first name fails, or the second node has a name too and the
    allocation of its copy fails, [seq_equiv] returns -1 with [errno] set to
    ENOMEM, but the counter has gone up and the two nodes are in the new
    class, with the names they had; every other node is as before.  In the
    second case the copy of the first name is not given back. *)
Theorem seq_equiv_oom_keeps_new_class p s1 s2 e a :
  valid (chars s1) -> valid (chars s2) ->
  contains p (chars s1) -> contains p (chars s2) ->
  address s1 <> address s2 ->
  ~ (abstract_class (deref (root p) (chars s1)) <> -1 /\
     abstract_class (deref (root p) (chars s1))
     = abstract_class (deref (root p) (chars s2))) ->
  abstract_class_name (deref (root p) (chars s1)) = Some a ->
  exists p',
    abstract_classes_amount p' = wrap_int (abstract_classes_amount p + 1) /\
    (forall q,
       fields (root p') q
       = if ptr_eqb q (chars s1) || ptr_eqb q (chars s2)
         then (false, wrap_int (abstract_classes_amount p + 1),
               abstract_class_name (deref (root p) q))
         else fields (root p) q) /\
    (forall rest,
       mallocs e = false :: rest ->
       seq_equiv p (Some s1) (Some s2) e
       = Done (-1, p') (Env ENOMEM rest (allocated e))) /\
    (forall b rest,
       abstract_class_name (deref (root p) (chars s2)) = Some b ->
       mallocs e = true :: false :: rest ->
       seq_equiv p (Some s1) (Some s2) e
       = Done (-1, p') (Env ENOMEM rest (allocated e + 1))).
Proof.
  intros Hv1 Hv2 Hc1 Hc2 Ha Hcls Hn1.
  apply contains_present in Hc1; [|exact Hv1]. destruct Hc1 as [Hr Hp1].
  apply contains_present in Hc2; [|exact Hv2]. destruct Hc2 as [_ Hp2].
  apply not_same_class in Hcls.
  pose proof (present_node _ _ Hp1) as N1.
  pose proof (present_node _ _ Hp2) as N2.
  set (n := wrap_int (abstract_classes_amount p + 1)).
  destruct (classed_names (root p) (chars s1) (chars s2) n N1 N2) as [F1 F2].
  exists (Store (classed (root p) (chars s1) (chars s2) n) n).
  split; [reflexivity|]. split.
  { intros q. apply fields_classed; assumption. }
  split.
  - intros rest Hm. enter_seq_equiv e Hr Hv1 Hv2 Ha Hp1 Hp2 Hcls.
    fold n. rewrite F1, Hn1. cbn [is_some].
    unfold bind at 1. unfold malloc at 1. rewrite Hm. reflexivity.
  - intros b rest Hn2 Hm. enter_seq_equiv e Hr Hv1 Hv2 Ha Hp1 Hp2 Hcls.
    fold n. rewrite F1, F2, Hn1, Hn2. cbn [is_some].
    unfold bind at 1. unfold malloc at 1. rewrite Hm. cbn [negb]. cbv iota.
    unfold bind at 1. unfold malloc at 1. cbn [mallocs]. reflexivity.
Qed.

Lemma seq_equiv_oom_keeps_new_class_witness :
  exists p',
    seq_equiv store_three_named (at_address 1 "0") (at_address 2 "1")
      (Env 0 [true; false] 9)
    = Done (-1, p') (Env ENOMEM [] 10) /\
    abstract_classes_amount p' = 4 /\
    fields (root p') (list_ascii_of_string "0") = (false, 4, Some "A"%string)
    /\ fields (root p') (list_ascii_of_string "1")
       = (false, 4, Some "B"%string).
Proof.
  destruct (seq_equiv_oom_keeps_new_class store_three_named
              (CharPtr 1 (list_ascii_of_string "0"))
              (CharPtr 2 (list_ascii_of_string "1"))
              (Env 0 [true; false] 9) "A"%string)
    as (p' & Hamt & HF & _ & Hrun).
  - split; [discriminate|reflexivity].
  - split; [discriminate|reflexivity].
  - intros e. reflexivity.
  - intros e. reflexivity.
  - discriminate.
  - intros [_ H]. vm_compute in H. discriminate.
  - reflexivity.
  - exists p'. split; [exact (Hrun "B"%string [] eq_refl eq_refl)|].
    split; [exact Hamt|]. split; rewrite HF; reflexivity.
Defined.


(** ** Blocks held by the store, and names without a class *)

Lemma blocks_set_next p c v :
  is_null p = false -> legal c = true ->
  blocks (set_next p c v) = blocks p - blocks (next_seq p c) + blocks v.
Proof.
  intros Hp Hc. destruct p as [|z o t name k]; [discriminate|].
  destruct (legal_cases c Hc) as [-> | [-> | ->]]; cbn; lia.
Qed.

Lemma blocks_assign s : forall p v,
  is_null (deref p s) = false ->
  blocks (assign p s v) = blocks p - blocks (deref p s) + blocks v.
Proof.
  induction s as [|c s IH]; intros p v H; simpl in *; [lia|].
  pose proof (deref_node _ _ H) as Hn.
  rewrite blocks_set_next, IH; eauto using next_seq_node, next_seq_legal.
  lia.
Qed.

Lemma blocks_set_class p v : blocks (set_class p v) = blocks p.
Proof. destruct p; reflexivity. Qed.

Lemma tidy_Node z o t name c :
  tidy (Node z o t name c) = true <->
  (c = -1 -> name = None) /\
  tidy z = true /\ tidy o = true /\ tidy t = true.
Proof.
  cbn [tidy]. rewrite !andb_true_iff, orb_true_iff, !negb_true_iff.
  rewrite Z.eqb_neq. destruct name; cbn [is_some]; split;
    intros [[[H ?] ?] ?] || intros (H & ? & ? & ?); repeat split; auto.
  - intros ->. destruct H; congruence.
  - destruct (Z.eq_dec c (-1)) as [E|E]; [specialize (H E); discriminate|auto].
Qed.

Lemma tidy_next_seq p c : tidy p = true -> tidy (next_seq p c) = true.
Proof.
  destruct p as [|z o t name k]; [auto|]. intros H.
  apply tidy_Node in H. destruct H as (_ & ? & ? & ?). simpl.
  repeat match goal with |- context [if ?b then _ else _] => destruct b end;
    auto.
Qed.

Lemma tidy_deref q : forall p, tidy p = true -> tidy (deref p q) = true.
Proof. induction q; simpl; auto using tidy_next_seq. Qed.

Lemma tidy_set_next p c v :
  tidy p = true -> tidy v = true -> tidy (set_next p c v) = true.
Proof.
  intros Hp Hv. destruct p as [|z o t name k]; unfold set_next.
  - repeat match goal with |- context [if ?b then _ else _] => destruct b end;
      reflexivity.
  - apply tidy_Node in Hp. destruct Hp as (? & ? & ? & ?).
    repeat match goal with |- context [if ?b then _ else _] => destruct b end;
      cbn [set_next_zero set_next_one set_next_two]; apply tidy_Node; auto.
Qed.

Lemma tidy_assign s : forall p v,
  tidy p = true -> tidy v = true -> tidy (assign p s v) = true.
Proof.
  induction s; simpl; intros; auto using tidy_set_next, tidy_next_seq.
Qed.

Lemma tidy_chain u : tidy (chain u) = true.
Proof. induction u; simpl; auto using tidy_set_next. Qed.

Lemma tidy_set_class p v :
  v <> -1 -> tidy p = true -> tidy (set_class p v) = true.
Proof.
  intros Hv H. destruct p as [|z o t name k]; [auto|].
  apply tidy_Node in H. cbn [set_class]. apply tidy_Node.
  destruct H as (_ & ? & ? & ?). repeat split; auto. congruence.
Qed.

Lemma tidy_unnamed p : tidy p = true -> tidy (set_name p None) = true.
Proof.
  intros H. destruct p as [|z o t name k]; [auto|].
  apply tidy_Node in H. cbn [set_name]. apply tidy_Node.
  destruct H as (_ & ? & ? & ?). repeat split; auto.
Qed.

Lemma all_succeed_env e v a :
  all_succeed e -> all_succeed (Env v (mallocs e) a).
Proof. auto. Qed.

Lemma all_succeed_tl e v a :
  all_succeed e -> all_succeed (Env v (tl (mallocs e)) a).
Proof.
  unfold all_succeed. cbn [mallocs]. destruct (mallocs e) as [|b ms]; auto.
  simpl. intros H. apply andb_true_iff in H. tauto.
Qed.

Lemma malloc_succeeds e :
  all_succeed e ->
  malloc e = Done true (Env (errno e) (tl (mallocs e)) (allocated e + 1)).
Proof.
  unfold all_succeed, malloc. destruct (mallocs e) as [|[|] ms]; simpl;
    intros H; try discriminate; reflexivity.
Qed.

Lemma check_str_heap s e r e' :
  check_str_for_inval s e = Done r e' ->
  mallocs e' = mallocs e /\ allocated e' = allocated e.
Proof.
  destruct (check_str_total s e) as [(l & _ & _ & Hk) | [_ Hk]];
    rewrite Hk; intros H; injection H as <- <-; auto.
Qed.

(** A call that kept the account: no allocation failed, no name is left on
    a node without a class, and the blocks out are those the tree holds. *)
Lemma replace_or_set_seq_name_kept z o t name c n h e r p' f e' :
  replace_or_set_seq_name (Node z o t name c) n h e = Done (r, p', f) e' ->
  all_succeed e ->
  exists name',
    p' = Node z o t name' c /\ all_succeed e' /\
    allocated e' - (if is_some name' then 1 else 0)
    = allocated e - (if is_some name then 1 else 0).
Proof.
  destruct (freed h) eqn:Hf.
  { unfold replace_or_set_seq_name. rewrite Hf. discriminate. }
  rewrite replace_or_set_seq_name_node by exact Hf. cbv zeta. intros H He.
  assert (He1 : all_succeed
                  (if is_some name
                   then Env (errno e) (mallocs e) (allocated e - 1) else e))
    by (destruct (is_some name); auto).
  revert H He1. unfold all_succeed.
  destruct (mallocs _) as [|[|] ms] eqn:Em; intros H He1;
    try discriminate; destruct (is_some name && here h);
    try discriminate; injection H as <- <- <- <-; eexists;
    (split; [reflexivity|]); cbn [mallocs allocated is_some tl];
    (split; [simpl in He1 |- *; auto|]);
    destruct (is_some name); cbn [allocated]; lia.
Qed.

Lemma recur_seq_name_kept p n cls : forall h e r p' f e',
  cls <> -1 ->
  recur_seq_name p n h cls e = Done (r, p', f) e' ->
  all_succeed e -> tidy p = true ->
  all_succeed e' /\ tidy p' = true /\
  allocated e' - blocks p' = allocated e - blocks p.
Proof.
  induction p as [|z IHz o IHo t IHt name c];
    intros h e r p' f e' Hcls H He Ht.
  - injection H as _ <- _ <-. auto.
  - apply tidy_Node in Ht. destruct Ht as (Hc & Tz & To & Tt).
    cbn [recur_seq_name] in H.
    inv_bind_as H x e1 H1. destruct x as [[rz z'] fz].
    destruct (IHz _ _ _ _ _ _ Hcls H1 He Tz) as (He1 & Tz' & Az).
    inv_bind_as H x e2 H2. destruct x as [[ro o'] fo].
    destruct (IHo _ _ _ _ _ _ Hcls H2 He1 To) as (He2 & To' & Ao).
    inv_bind_as H x e3 H3. destruct x as [[rt t'] ft].
    destruct (IHt _ _ _ _ _ _ Hcls H3 He2 Tt) as (He3 & Tt' & At).
    cbv zeta in H. destruct ((rz =? -1) || (ro =? -1) || (rt =? -1)).
    + injection H as _ <- _ <-. split; [exact He3|].
      split; [apply tidy_Node; auto|]. cbn [blocks]. lia.
    + cbn [abstract_class] in H. destruct (c =? cls) eqn:E.
      * apply Z.eqb_eq in E. subst c.
        inv_bind_as H x e4 H4. destruct x as [[r1 q] f1].
        destruct (replace_or_set_seq_name_kept _ _ _ _ _ _ _ _ _ _ _ _ H4 He3)
          as (name' & -> & He4 & A4).
        inv_done H. split; [exact He4|].
        split; [apply tidy_Node; repeat split; auto; contradiction|].
        cbn [blocks]. lia.
      * injection H as _ <- _ <-. split; [exact He3|].
        split; [apply tidy_Node; auto|]. cbn [blocks]. lia.
Qed.

Lemma node_change_kept z o t name c n1 n2 v e r p' e' :
  node_change (Node z o t name c) n1 n2 v e = Done (r, p') e' ->
  all_succeed e ->
  exists name',
    p' = Node z o t name' v /\ r <> -1 /\ all_succeed e' /\
    allocated e' - (if is_some name' then 1 else 0)
    = allocated e - (if is_some name then 1 else 0).
Proof.
  unfold all_succeed.
  unfold node_change, singular_name, merge_names, strcmp, bind, malloc,
    free, ret, set_errno, undefined.
  destruct e as [en ml al].
  destruct name, n1 as [a|], n2 as [b|]; cbn;
    try destruct (a ?= b)%string; cbn;
    destruct ml as [|[|] ms]; cbn;
    intros H He; try discriminate; injection H as <- <- <-;
    eexists; (split; [reflexivity|]); cbn;
    (split; [lia|]); (split; [auto|lia]).
Qed.

Lemma recur_equiv_kept p a b n n1 n2 : forall e r p' e',
  n <> -1 ->
  recur_equiv p a b n n1 n2 e = Done (r, p') e' ->
  all_succeed e -> tidy p = true ->
  r <> -1 /\ all_succeed e' /\ tidy p' = true /\
  allocated e' - blocks p' = allocated e - blocks p.
Proof.
  induction p as [|z IHz o IHo t IHt name c]; intros e r p' e' Hn H He Ht.
  - injection H as <- <- <-. repeat split; auto. lia.
  - apply tidy_Node in Ht. destruct Ht as (Hc & Tz & To & Tt).
    cbn [recur_equiv] in H.
    inv_bind_as H x e1 H1. destruct x as [rz z'].
    destruct (IHz _ _ _ _ Hn H1 He Tz) as (Rz & He1 & Tz' & Az).
    inv_bind_as H x e2 H2. destruct x as [ro o'].
    destruct (IHo _ _ _ _ Hn H2 He1 To) as (Ro & He2 & To' & Ao).
    inv_bind_as H x e3 H3. destruct x as [rt t'].
    destruct (IHt _ _ _ _ Hn H3 He2 Tt) as (Rt & He3 & Tt' & At).
    apply Z.eqb_neq in Rz, Ro, Rt. cbv zeta in H. rewrite Rz, Ro, Rt in H.
    cbn [orb] in H.
    destruct (negb (c =? -1) && ((c =? a) || (c =? b))).
    + destruct (node_change_kept _ _ _ _ _ _ _ _ _ _ _ _ H He3)
        as (name' & -> & Hr & He4 & A4).
      split; [exact Hr|]. split; [exact He4|].
      split; [apply tidy_Node; repeat split; auto; contradiction|].
      cbn [blocks]. lia.
    + injection H as <- <- <-. split; [lia|]. split; [exact He3|].
      split; [apply tidy_Node; auto|]. cbn [blocks]. lia.
Qed.


(** ** The account of blocks along the operations *)

Lemma account_heap p e e' k :
  account p e k ->
  mallocs e' = mallocs e -> allocated e' = allocated e -> account p e' k.
Proof.
  intros (Hr & Ht & He & Hk) Hm Ha. unfold account, all_succeed in *.
  rewrite Hm, Ha. auto.
Qed.

Ltac unchanged Hacc :=
  eapply account_heap; [exact Hacc|reflexivity|reflexivity].

Ltac errno_only H Hacc :=
  let u := fresh "u" in
  let eu := fresh "eu" in
  let Hu := fresh "Hu" in
  inv_bind_as H u eu Hu; inv_done H; inv_done Hu; unchanged Hacc.

Lemma is_null_blocks p : is_null p = true -> blocks p = 0.
Proof. destruct p; [reflexivity|discriminate]. Qed.

Lemma is_null_assign s p v :
  is_null (deref p s) = false -> is_null v = false ->
  is_null (assign p s v) = false.
Proof.
  intros H Hv. destruct s as [|c s]; [exact Hv|].
  rewrite assign_node by discriminate. eapply deref_node; exact H.
Qed.

Lemma seq_add_account p s e r p' e' k :
  account p e k -> seq_add p s e = Done (r, p') e' -> account p' e' k.
Proof.
  intros Hacc H. pose proof Hacc as (Hr & Ht & He & Hk).
  destruct s as [l|].
  2:{ unfold seq_add in H. rewrite Hr in H. errno_only H Hacc. }
  destruct (check_str_total (Some l) e) as [(l' & El & Hv & Hc) | [_ Hc]].
  2:{ unfold seq_add in H. rewrite Hr in H.
      rewrite (bind_eq _ _ _ _ _ _ _ Hc) in H.
      change (-1 =? -1) with true in H. cbv iota in H. inv_done H.
      unchanged Hacc. }
  injection El as <-.
  destruct (seq_add_all_succeed p l e Hv Hr He)
    as (r1 & p1 & e1 & Hrun1 & _ & He1).
  rewrite H in Hrun1. injection Hrun1 as <- <- <-.
  destruct (seq_add_spec p l e Hr Hv) as (r0 & q & e0' & Hrun & Hres).
  rewrite H in Hrun. injection Hrun as <- -> <-.
  destruct Hres as [(_ & -> & -> & _) |
                    [(_ & _ & pre & c0 & u & Es & Npre & Nnext & -> & Ha) |
                     (_ & -> & _ & Ha)]].
  - exact Hacc.
  - assert (Hl : forallb legal (pre ++ c0 :: u) = true)
      by (rewrite <- Es; apply Hv).
    rewrite forallb_app in Hl. apply andb_true_iff in Hl.
    destruct Hl as [_ Hl]. simpl in Hl. apply andb_true_iff in Hl.
    destruct Hl as [Hc0 Hu].
    assert (Nn : is_null (set_next (deref (root p) pre) c0 (chain u)) = false)
      by (rewrite set_next_null; exact Npre).
    unfold account. cbn [root].
    split; [apply is_null_assign; assumption|].
    split; [apply tidy_assign;
            [exact Ht|apply tidy_set_next;
                      [apply tidy_deref; exact Ht|apply tidy_chain]]|].
    split; [exact He1|].
    rewrite blocks_assign, blocks_set_next, blocks_chain by assumption.
    rewrite (is_null_blocks _ Nnext). lia.
  - unfold account. cbn [root]. repeat split; auto. lia.
Qed.

Lemma seq_remove_account p s s_in e r p' e' k :
  account p e k -> seq_remove p s s_in e = Done (r, p') e' ->
  account p' e' k.
Proof.
  intros Hacc H. pose proof Hacc as (Hr & Ht & He & Hk).
  destruct (check_str_total s e) as [(l & -> & Hv & Hc) | [_ Hc]].
  2:{ unfold seq_remove in H. rewrite Hr in H.
      rewrite (bind_eq _ _ _ _ _ _ _ Hc) in H.
      change (-1 =? -1) with true in H. cbv iota in H. inv_done H.
      unchanged Hacc. }
  destruct (present (root p) l) eqn:Hp.
  - rewrite seq_remove_found in H by assumption.
    destruct (freed_with _ _ _); [discriminate|].
    injection H as <- <- <-. pose proof (present_node _ _ Hp) as Nl.
    unfold account. cbn [root allocated].
    split; [rewrite assign_node; [exact Hr|apply Hv]|].
    split; [apply tidy_assign; auto|].
    split; [exact He|].
    rewrite blocks_assign by exact Nl. cbn [blocks]. lia.
  - rewrite seq_remove_absent in H by assumption.
    injection H as <- <- <-. exact Hacc.
Qed.

Lemma seq_valid_heap p s e r e' :
  seq_valid p s e = Done r e' ->
  mallocs e' = mallocs e /\ allocated e' = allocated e.
Proof.
  unfold seq_valid. intros H. inv_bind_as H x e1 Hc.
  apply check_str_heap in Hc. destruct Hc as [Hm Ha].
  destruct (x =? -1); [inv_done H; auto|].
  destruct (is_null (root p)); [inv_bind_as H u eu Hu; inv_done H; inv_done Hu; auto|].
  destruct (walk _ _ _); inv_done H; auto.
Qed.

Lemma seq_get_name_heap p s e r e' :
  seq_get_name p s e = Done r e' ->
  mallocs e' = mallocs e /\ allocated e' = allocated e.
Proof.
  unfold seq_get_name. intros H.
  destruct (is_null (root p)); [inv_bind_as H u eu Hu; inv_done H; inv_done Hu; auto|].
  inv_bind_as H x e1 Hc.
  apply check_str_heap in Hc. destruct Hc as [Hm Ha].
  destruct (x =? -1); [inv_done H; auto|].
  destruct (walk _ _ _); [|inv_bind_as H u eu Hu; inv_done H; inv_done Hu; auto].
  destruct (negb _ && _); [inv_bind_as H u eu Hu; inv_done H; inv_done Hu; auto|inv_done H; auto].
Qed.

Lemma seq_set_name_account p s n n_in e r p' e' k :
  account p e k -> store_inv p ->
  seq_set_name p s n n_in e = Done (r, p') e' -> account p' e' k.
Proof.
  intros Hacc [Hamt _] H. pose proof Hacc as (Hr & Ht & He & Hk).
  unfold seq_set_name in H. rewrite Hr in H.
  destruct (check_str_total s e) as [(l & -> & Hv & Hc) | [_ Hc]];
    rewrite (bind_eq _ _ _ _ _ _ _ Hc) in H.
  2:{ change (-1 =? -1) with true in H. cbv iota in H. inv_done H.
      unchanged Hacc. }
  change (0 =? -1) with false in H. cbv iota in H.
  destruct n as [n|]; [|errno_only H Hacc].
  destruct (Z.of_nat (String.length n) + 1 - 1 =? 0);
    [errno_only H Hacc|].
  unfold chars_of in H. rewrite walk_root in H by exact Hr.
  destruct (present (root p) l) eqn:Hp; [|inv_done H; exact Hacc].
  cbv zeta in H. pose proof (present_node _ _ Hp) as Nl.
  pose proof (tidy_deref l _ Ht) as Tl.
  destruct (deref (root p) l) as [|z o t name c] eqn:Hd; [discriminate|].
  cbn [abstract_class abstract_class_name set_name set_class] in H.
  apply tidy_Node in Tl. destruct Tl as (Hc1 & Tz & To & Tt).
  destruct (c =? -1) eqn:E.
  - apply Z.eqb_eq in E. rewrite (Hc1 E) in *.
    rewrite (bind_eq _ _ _ _ _ _ _ (malloc_succeeds e He)) in H.
    cbn [negb] in H. inv_done H.
    unfold account. cbn [root allocated].
    split; [apply is_null_assign; [rewrite Hd|]; reflexivity|].
    split; [apply tidy_assign; [exact Ht|]; apply tidy_Node; repeat split;
            auto; intros Hw; apply wrap_int_succ_not_none in Hw;
            [destruct Hw|exact Hamt]|].
    split; [apply all_succeed_tl; exact He|].
    rewrite blocks_assign by (rewrite Hd; reflexivity).
    rewrite Hd. cbn [blocks is_some]. lia.
  - apply Z.eqb_neq in E. inv_bind_as H same e1 Hs.
    assert (e1 = e).
    { destruct name; [|inv_done Hs; reflexivity].
      unfold bind, strcmp, ret in Hs. injection Hs as _ <-. reflexivity. }
    subst e1. destruct same; [inv_done H; exact Hacc|].
    inv_bind_as H x e2 Hrec. destruct x as [[r1 rt] f1]. inv_done H.
    pose proof (recur_seq_name_reclass 0 _ _ _ _ _ _ _ _ _ Hrec) as R.
    destruct (recur_seq_name_kept _ _ _ _ _ _ _ _ _ E Hrec He Ht)
      as (He2 & Tr & Ar).
    unfold account. cbn [root].
    split; [rewrite (reclass_null _ _ _ R); exact Hr|].
    split; [exact Tr|]. split; [exact He2|]. lia.
Qed.

Lemma maybe_malloc_kept (b : bool) e a e' :
  (if b then malloc else ret true) e = Done a e' -> all_succeed e ->
  a = true /\ all_succeed e' /\
  allocated e' = allocated e + (if b then 1 else 0).
Proof.
  intros H He. destruct b.
  - rewrite malloc_succeeds in H by exact He. injection H as <- <-.
    split; [reflexivity|]. split; [apply all_succeed_tl; exact He|].
    reflexivity.
  - injection H as <- <-. repeat split; auto. lia.
Qed.

Lemma maybe_free_kept (b : bool) e u e' :
  (if b then free else ret tt) e = Done u e' -> all_succeed e ->
  all_succeed e' /\ allocated e' = allocated e - (if b then 1 else 0).
Proof.
  destruct b; intros H He; inv_done H; (split; [exact He|cbn; lia]).
Qed.

Lemma node_change_account p n1 n2 v e r p' e' :
  v <> -1 -> node_change p n1 n2 v e = Done (r, p') e' ->
  all_succeed e -> tidy p = true ->
  r <> -1 /\ all_succeed e' /\ tidy p' = true /\
  allocated e' - blocks p' = allocated e - blocks p.
Proof.
  intros Hv H He Ht. destruct p as [|z o t name c].
  - rewrite node_change_NULL in H. injection H as <- <- <-.
    repeat split; auto. lia.
  - destruct (node_change_kept _ _ _ _ _ _ _ _ _ _ _ _ H He)
      as (name' & -> & Hr & He' & A).
    apply tidy_Node in Ht. destruct Ht as (_ & ? & ? & ?).
    split; [exact Hr|]. split; [exact He'|].
    split; [apply tidy_Node; repeat split; auto; contradiction|].
    cbn [blocks]. lia.
Qed.

Lemma seq_equiv_account p s1 s2 e r p' e' k :
  account p e k -> store_inv p ->
  seq_equiv p s1 s2 e = Done (r, p') e' -> account p' e' k.
Proof.
  intros Hacc [Hamt _]. pose proof Hacc as (Hr & Ht & He & Hk).
  unfold seq_equiv. rewrite Hr.
  destruct s1 as [c1|];
    [|intros H; errno_only H Hacc].
  destruct s2 as [c2|];
    [|intros H; errno_only H Hacc].
  destruct (check_str_cases (chars c1) e) as [[Hv1 Hk1] | [e1 Hk1]];
    rewrite (bind_eq _ _ _ _ _ _ _ Hk1).
  2:{ intros H. inv_done H. apply check_str_heap in Hk1.
      eapply account_heap; [exact Hacc| |]; tauto. }
  change (0 =? -1) with false. cbv iota.
  destruct (check_str_cases (chars c2) e) as [[Hv2 Hk2] | [e2 Hk2]];
    rewrite (bind_eq _ _ _ _ _ _ _ Hk2).
  2:{ intros H. inv_done H. apply check_str_heap in Hk2.
      eapply account_heap; [exact Hacc| |]; tauto. }
  change (0 =? -1) with false. cbv iota.
  destruct (address c1 =? address c2); [intros H; inv_done H; exact Hacc|].
  rewrite !walk_root by exact Hr.
  destruct (present (root p) (chars c1)) eqn:Hp1;
    [|intros H; inv_done H; exact Hacc].
  destruct (present (root p) (chars c2)) eqn:Hp2;
    [|intros H; inv_done H; exact Hacc].
  cbv zeta.
  destruct (negb (abstract_class (deref (root p) (chars c1)) =? -1)
            && (abstract_class (deref (root p) (chars c1))
                =? abstract_class (deref (root p) (chars c2)))).
  { intros H. inv_done H. exact Hacc. }
  set (n := wrap_int (abstract_classes_amount p + 1)).
  assert (Hn : n <> -1) by (apply wrap_int_succ_not_none; exact Hamt).
  set (rt1 := assign (root p) (chars c1)
                (set_class (deref (root p) (chars c1)) n)).
  set (rt2 := assign rt1 (chars c2) (set_class (deref rt1 (chars c2)) n)).
  assert (R1 : reclass n (root p) rt1)
    by apply reclass_assign, reclass_set_class.
  assert (R12 : reclass n rt1 rt2)
    by apply reclass_assign, reclass_set_class.
  assert (P1 : forall q, present rt1 q = present (root p) q)
    by (intros q; apply (reclass_present n); exact R1).
  assert (P2 : forall q, present rt2 q = present rt1 q)
    by (intros q; apply (reclass_present n); exact R12).
  assert (T1 : tidy rt1 = true).
  { apply tidy_assign; [exact Ht|].
    apply tidy_set_class; [exact Hn|]. apply tidy_deref. exact Ht. }
  assert (T2 : tidy rt2 = true).
  { apply tidy_assign; [exact T1|].
    apply tidy_set_class; [exact Hn|]. apply tidy_deref. exact T1. }
  assert (B1 : blocks rt1 = blocks (root p)).
  { unfold rt1. rewrite blocks_assign by (apply present_node; exact Hp1).
    rewrite blocks_set_class. lia. }
  assert (B2 : blocks rt2 = blocks (root p)).
  { unfold rt2. rewrite blocks_assign
      by (apply present_node; rewrite P1; exact Hp2).
    rewrite blocks_set_class. lia. }
  intros H.
  inv_bind_as H a1 e1 Hm1.
  apply maybe_malloc_kept in Hm1; [|exact He].
  destruct Hm1 as (-> & He1 & A1). cbn [negb] in H.
  inv_bind_as H a2 e2 Hm2.
  apply maybe_malloc_kept in Hm2; [|exact He1].
  destruct Hm2 as (-> & He2 & A2). cbn [negb] in H.
  inv_bind_as H x e3 Hc1. destruct x as [r1 node1].
  pose proof (node_change_reclass _ _ _ _ _ _ _ _ Hc1) as [N1 _].
  destruct (node_change_account _ _ _ _ _ _ _ _ Hn Hc1 He2
              (tidy_deref _ _ T2)) as (Hr1 & He3 & Tn1 & A3).
  set (rt3 := assign rt2 (chars c1) node1) in *.
  assert (R3 : reclass n rt2 rt3) by (apply reclass_assign; exact N1).
  assert (P3 : forall q, present rt3 q = present rt2 q)
    by (intros q; apply (reclass_present n); exact R3).
  assert (T3 : tidy rt3 = true) by (apply tidy_assign; assumption).
  assert (B3 : blocks rt3
               = blocks rt2 - blocks (deref rt2 (chars c1)) + blocks node1).
  { apply blocks_assign. apply present_node. rewrite P2, P1. exact Hp1. }
  apply Z.eqb_neq in Hr1. rewrite Hr1 in H.
  inv_bind_as H x e4 Hc2. destruct x as [r2 node2].
  pose proof (node_change_reclass _ _ _ _ _ _ _ _ Hc2) as [N2 _].
  destruct (node_change_account _ _ _ _ _ _ _ _ Hn Hc2 He3
              (tidy_deref _ _ T3)) as (Hr2 & He4 & Tn2 & A4).
  set (rt4 := assign rt3 (chars c2) node2) in *.
  assert (R4 : reclass n rt3 rt4) by (apply reclass_assign; exact N2).
  assert (T4 : tidy rt4 = true) by (apply tidy_assign; assumption).
  assert (B4 : blocks rt4
               = blocks rt3 - blocks (deref rt3 (chars c2)) + blocks node2).
  { apply blocks_assign. apply present_node. rewrite P3, P2, P1. exact Hp2. }
  apply Z.eqb_neq in Hr2. rewrite Hr2 in H.
  assert (Hn4 : is_null rt4 = false).
  { rewrite (reclass_null n rt3 rt4 R4), (reclass_null n rt2 rt3 R3),
      (reclass_null n rt1 rt2 R12), (reclass_null n (root p) rt1 R1).
    exact Hr. }
  destruct rt4 as [|z4 o4 t4 nm4 k4] eqn:E4; [discriminate|].
  apply tidy_Node in T4. destruct T4 as (Hk4 & Tz & To & Tt).
  cbn [set_next_zero next_one next_zero next_two set_next_one set_next_two]
    in H.
  inv_bind_as H x e5 Hz. destruct x as [rz z'].
  destruct (recur_equiv_kept _ _ _ _ _ _ _ _ _ _ Hn Hz He4 Tz)
    as (_ & He5 & Tz' & A5).
  inv_bind_as H x e6 Ho. destruct x as [ro o'].
  destruct (recur_equiv_kept _ _ _ _ _ _ _ _ _ _ Hn Ho He5 To)
    as (_ & He6 & To' & A6).
  inv_bind_as H x e7 Htw. destruct x as [rt t'].
  destruct (recur_equiv_kept _ _ _ _ _ _ _ _ _ _ Hn Htw He6 Tt)
    as (_ & He7 & Tt' & A7).
  inv_bind_as H u1 e8 Hf1.
  apply maybe_free_kept in Hf1; [|exact He7]. destruct Hf1 as (He8 & A8).
  inv_bind_as H u2 e9 Hf2.
  apply maybe_free_kept in Hf2; [|exact He8]. destruct Hf2 as (He9 & A9).
  cbn [blocks] in B4.
  destruct (negb (rz =? -1) && negb (ro =? -1) && negb (rt =? -1));
    inv_done H; unfold account; cbn [root];
    (split; [reflexivity|]);
    (split; [apply tidy_Node; auto|]);
    (split; [assumption|]); cbn [blocks]; lia.
Qed.


Lemma step_account o p e p' e' k :
  account p e k -> store_inv p -> step o p e = Done p' e' -> account p' e' k.
Proof.
  intros Hacc Hinv H. destruct o; cbn [step] in H; inv_bind_as H x e1 Hop.
  - destruct x as [r q]. inv_done H. eapply seq_add_account; eauto.
  - destruct x as [r q]. inv_done H. eapply seq_remove_account; eauto.
  - inv_done H. apply seq_valid_heap in Hop.
    eapply account_heap; [exact Hacc| |]; tauto.
  - destruct x as [r q]. inv_done H. eapply seq_set_name_account; eauto.
  - inv_done H. apply seq_get_name_heap in Hop.
    eapply account_heap; [exact Hacc| |]; tauto.
  - destruct x as [r q]. inv_done H. eapply seq_equiv_account; eauto.
Qed.

Lemma run_account ops : forall p e p' e' k,
  account p e k -> store_inv p ->
  abstract_classes_amount p + Z.of_nat (List.length ops) <= INT_MAX ->
  run ops p e = Done p' e' -> account p' e' k.
Proof.
  induction ops as [|o ops IH]; intros p e p' e' k Hacc Hinv Hlen H.
  - inv_done H. exact Hacc.
  - cbn [run] in H. inv_bind_as H p1 e1 Hstep.
    cbn [List.length] in Hlen.
    destruct (step_inv _ _ _ _ _ Hinv ltac:(lia) Hstep) as [Hinv1 Hamt1].
    eapply IH; [eapply step_account; eauto|exact Hinv1| |exact H]. lia.
Qed.

Lemma seq_new_account e p0 e1 :
  all_succeed e -> seq_new e = Done p0 e1 ->
  account p0 e1 (allocated e + 1).
Proof.
  intros He H. unfold seq_new in H.
  rewrite (bind_eq _ _ _ _ _ _ _ (malloc_succeeds e He)) in H.
  pose proof (all_succeed_tl e (errno e) (allocated e + 1) He) as He1.
  rewrite (bind_eq _ _ _ _ _ _ _ (malloc_succeeds _ He1)) in H.
  cbn [negb orb] in H. inv_done H.
  unfold account. cbn [root allocated blocks is_some].
  split; [reflexivity|]. split; [reflexivity|].
  split; [exact (all_succeed_tl _ _ _ He1)|lia].
Qed.

(** X15.  No block is lost while no allocation fails.  After [seq_new] and
    any run of the public operations (short of 2^31 - 1 calls) whose
    behaviour is defined, in an environment where every allocation succeeds,
    the blocks handed out and not given back are exactly those the store
    holds: its nodes, their names and the counter.  [seq_delete] then gives
    all of them back: as many blocks are out after it as before [seq_new].
    A run in which [seq_remove] or [seq_set_name] reads its argument after
    freeing the name that holds it is [Undefined] and is not covered. *)
Theorem no_block_lost ops e p0 e1 p e2 :
  all_succeed e -> Z.of_nat (List.length ops) <= INT_MAX ->
  seq_new e = Done p0 e1 -> run ops p0 e1 = Done p e2 ->
  allocated e2 = allocated e + blocks (root p) + 1 /\
  exists e3, seq_delete p e2 = Done tt e3 /\ allocated e3 = allocated e.
Proof.
  intros He Hlen Hnew Hrun.
  pose proof (seq_new_account _ _ _ He Hnew) as Hacc.
  destruct (seq_new_inv _ _ _ Hnew) as [Hamt Hinv].
  assert (Hacc' : account p e2 (allocated e + 1)).
  { eapply run_account; [exact Hacc|exact Hinv| |exact Hrun]. lia. }
  destruct Hacc' as (Hr & _ & _ & Hk).
  split; [lia|].
  eexists. split; [apply seq_delete_blocks|]. rewrite Hr. cbn [allocated]. lia.
Qed.

Lemma no_block_lost_witness :
  exists p e2 e3,
    run [OAdd (sq "01"); OAdd (sq "2"); OSetName (sq "0") (Some "A"%string) None;
         OSetName (sq "2") (Some "B"%string) None;
         OEquiv (at_address 1 "0") (at_address 2 "2");
         OSetName (sq "2") (Some "C"%string) None; ORemove (sq "0") None]
      store_empty (Env 0 [] 2) = Done p e2 /\
    allocated e2 = 4 /\
    seq_delete p e2 = Done tt e3 /\ allocated e3 = 0.
Proof.
  assert (Hrun : exists p e2,
             run [OAdd (sq "01"); OAdd (sq "2");
                  OSetName (sq "0") (Some "A"%string) None;
                  OSetName (sq "2") (Some "B"%string) None;
                  OEquiv (at_address 1 "0") (at_address 2 "2");
                  OSetName (sq "2") (Some "C"%string) None; ORemove (sq "0") None]
               store_empty (Env 0 [] 2) = Done p e2 /\
             blocks (root p) = 3)
    by (vm_compute; eauto).
  destruct Hrun as (p & e2 & Hrun & Hb).
  match type of Hrun with
  | run ?ops _ _ = _ =>
      destruct (no_block_lost ops e0 store_empty (Env 0 [] 2) p e2)
        as (Ha & e3 & Hd & Ha3)
  end.
  - reflexivity.
  - vm_compute. discriminate.
  - reflexivity.
  - exact Hrun.
  - exists p, e2, e3. split; [exact Hrun|]. split; [|split; assumption].
    rewrite Ha, Hb. reflexivity.
Defined.


(** ** X16: one name for a class *)

Lemma fields_eq p q nl c nm :
  fields p q = (nl, c, nm) ->
  is_null (deref p q) = nl /\ abstract_class (deref p q) = c /\
  abstract_class_name (deref p q) = nm.
Proof. unfold fields. intros H. injection H as <- <- <-. auto. Qed.

Lemma coherent_sub p p' :
  coherent p ->
  (forall q, fields p' q = fields p q \/ abstract_class (deref p' q) = -1) ->
  coherent p'.
Proof.
  intros Hco H q1 q2 N1 N2 Hc1 Hc12.
  destruct (H q1) as [F1 | C1]; [|contradiction].
  destruct (H q2) as [F2 | C2]; [|congruence].
  apply fields_eq in F1, F2.
  destruct F1 as (A1 & B1 & C1), F2 as (A2 & B2 & C2).
  rewrite C1, C2. apply Hco; congruence.
Qed.

Lemma coherent_fresh p p' (S : ptr -> bool) n name :
  coherent p ->
  (forall q, is_null (deref p q) = false -> abstract_class (deref p q) <> n) ->
  (forall q, fields p' q = if S q then (false, n, name) else fields p q) ->
  coherent p'.
Proof.
  intros Hco Hfresh HF q1 q2 N1 N2 Hc1 Hc12.
  pose proof (HF q1) as F1. pose proof (HF q2) as F2.
  destruct (S q1), (S q2); apply fields_eq in F1, F2;
    destruct F1 as (A1 & B1 & C1), F2 as (A2 & B2 & C2).
  - congruence.
  - exfalso. apply (Hfresh q2); congruence.
  - exfalso. apply (Hfresh q1); congruence.
  - rewrite C1, C2. apply Hco; congruence.
Qed.

Lemma coherent_renamed p n cls : coherent p -> coherent (renamed p n cls).
Proof.
  intros Hco q1 q2. rewrite !deref_renamed.
  specialize (Hco q1 q2).
  destruct (deref p q1) as [|z1 o1 t1 nm1 c1]; [discriminate|].
  destruct (deref p q2) as [|z2 o2 t2 nm2 c2]; [discriminate|].
  cbn in *. intros _ _ Hc1 <-. rewrite Hco; auto.
Qed.

Lemma store_inv_fresh p q :
  store_inv p -> abstract_classes_amount p < INT_MAX ->
  is_null (deref (root p) q) = false ->
  abstract_class (deref (root p) q)
  <> wrap_int (abstract_classes_amount p + 1).
Proof.
  intros [Hamt Hinv] Hlt Hq. rewrite wrap_int_succ by lia.
  pose proof (Hinv _ (class_in_classes _ _ Hq)). lia.
Qed.

Lemma seq_add_coherent p s e r p' e' :
  coherent (root p) -> seq_add p s e = Done (r, p') e' -> coherent (root p').
Proof.
  intros Hco H. destruct (is_null (root p)) eqn:Hr.
  { destruct (seq_add_null p s e Hr) as (e1 & H1). rewrite H1 in H.
    injection H as _ <- _. exact Hco. }
  destruct s as [l|].
  2:{ unfold seq_add in H. rewrite Hr in H. inv_bind H. inv_done H.
      exact Hco. }
  destruct (check_str_total (Some l) e) as [(l' & El & Hv & Hc) | [_ Hc]].
  2:{ unfold seq_add in H. rewrite Hr in H.
      rewrite (bind_eq _ _ _ _ _ _ _ Hc) in H.
      change (-1 =? -1) with true in H. cbv iota in H. inv_done H.
      exact Hco. }
  injection El as <-.
  destruct (seq_add_spec p l e Hr Hv) as (r0 & q & e0' & Hrun & Hres).
  rewrite H in Hrun. injection Hrun as <- -> <-. cbn [root].
  destruct Hres as [(_ & -> & _) |
                    [(_ & _ & pre & c0 & u & Es & Npre & Nnext & -> & _) |
                     (_ & -> & _)]]; try exact Hco.
  assert (Hl : forallb legal (pre ++ c0 :: u) = true)
    by (rewrite <- Es; apply Hv).
  rewrite forallb_app in Hl. apply andb_true_iff in Hl.
  destruct Hl as [_ Hl]. simpl in Hl. apply andb_true_iff in Hl.
  destruct Hl as [Hc0 Hu].
  apply (coherent_sub (root p)); [exact Hco|]. intros t.
  pose proof (fields_added (root p) pre c0 u t Npre Hc0 Nnext Hu) as F.
  destruct (strip_prefix (pre ++ [c0]) t); [right|left; exact F].
  apply fields_eq in F. tauto.
Qed.

Lemma seq_remove_coherent p s s_in e r p' e' :
  coherent (root p) -> seq_remove p s s_in e = Done (r, p') e' ->
  coherent (root p').
Proof.
  intros Hco H. destruct (is_null (root p)) eqn:Hr.
  { unfold seq_remove in H. rewrite Hr in H. inv_bind H. inv_done H.
    exact Hco. }
  destruct (check_str_total s e) as [(l & -> & Hv & Hc) | [_ Hc]].
  2:{ unfold seq_remove in H. rewrite Hr in H.
      rewrite (bind_eq _ _ _ _ _ _ _ Hc) in H.
      change (-1 =? -1) with true in H. cbv iota in H. inv_done H.
      exact Hco. }
  destruct (present (root p) l) eqn:Hp.
  - rewrite seq_remove_found in H by assumption.
    destruct (freed_with _ _ _); [discriminate|].
    injection H as <- <- <-. cbn [root].
    apply (coherent_sub (root p)); [exact Hco|]. intros t.
    pose proof (fields_removed (root p) l t (present_node _ _ Hp)) as F.
    destruct (prefixb l t); [right|left; exact F].
    apply fields_eq in F. tauto.
  - rewrite seq_remove_absent in H by assumption.
    injection H as <- <- <-. exact Hco.
Qed.

Lemma seq_set_name_coherent p s n n_in e r p' e' :
  store_inv p -> abstract_classes_amount p < INT_MAX -> all_succeed e ->
  coherent (root p) -> seq_set_name p s n n_in e = Done (r, p') e' ->
  coherent (root p').
Proof.
  intros Hinv Hlt He Hco H.
  unfold seq_set_name in H. destruct (is_null (root p)) eqn:Hr.
  { inv_bind H. inv_done H. exact Hco. }
  destruct (check_str_total s e) as [(l & -> & Hv & Hc) | [_ Hc]];
    rewrite (bind_eq _ _ _ _ _ _ _ Hc) in H.
  2:{ change (-1 =? -1) with true in H. cbv iota in H. inv_done H.
      exact Hco. }
  change (0 =? -1) with false in H. cbv iota in H.
  destruct n as [n|]; [|inv_bind H; inv_done H; exact Hco].
  destruct (Z.of_nat (String.length n) + 1 - 1 =? 0);
    [inv_bind H; inv_done H; exact Hco|].
  unfold chars_of in H. rewrite walk_root in H by exact Hr.
  destruct (present (root p) l) eqn:Hp; [|inv_done H; exact Hco].
  cbv zeta in H. pose proof (present_node _ _ Hp) as Nl.
  destruct (abstract_class (deref (root p) l) =? -1) eqn:E.
  - rewrite (bind_eq _ _ _ _ _ _ _ (malloc_succeeds e He)) in H.
    cbn [negb] in H. inv_done H. cbn [root].
    destruct (deref (root p) l) as [|z o t name c] eqn:Hd; [discriminate|].
    cbn [set_name set_class].
    apply (coherent_fresh (root p) _ (fun q => ptr_eqb q l)
             (wrap_int (abstract_classes_amount p + 1)) (Some n)).
    + exact Hco.
    + intros q. apply store_inv_fresh; assumption.
    + intros q. apply fields_assign_node with (name := name) (c := c).
      exact Hd.
  - inv_bind_as H same e1 Hs.
    assert (e1 = e).
    { destruct (abstract_class_name (deref (root p) l));
        [|inv_done Hs; reflexivity].
      unfold bind, strcmp, ret in Hs. injection Hs as _ <-. reflexivity. }
    subst e1. destruct same; [inv_done H; exact Hco|].
    inv_bind_as H x e2 Hrec. destruct x as [[r1 rt] f1]. inv_done H.
    destruct (renames_buffer (root p) (origin_of n_in)
                (abstract_class (deref (root p) l))) eqn:Hb.
    { destruct n_in as [q|]; [|discriminate]. cbn [origin_of] in *.
      rewrite recur_seq_name_freed in Hrec by assumption. discriminate. }
    destruct (recur_seq_name_renamed (root p) n
                (abstract_class (deref (root p) l)) e He) as (e3 & Hrun & _).
    apply (recur_seq_name_outside _ _ _ (origin_of n_in)) in Hrun;
      [|destruct n_in; reflexivity|exact Hb].
    rewrite Hrec in Hrun. injection Hrun as _ -> _. cbn [root].
    apply coherent_renamed. exact Hco.
Qed.

Lemma seq_equiv_coherent p s1 s2 e r p' e' :
  store_inv p -> abstract_classes_amount p < INT_MAX -> all_succeed e ->
  coherent (root p) -> seq_equiv p s1 s2 e = Done (r, p') e' ->
  coherent (root p').
Proof.
  intros Hinv Hlt He Hco H.
  destruct (seq_equiv_outcome _ _ _ _ _ _ _ H)
    as [[-> _] | (c1 & c2 & -> & -> & Hr & Hv1 & Hv2 & Ha & Hp1 & Hp2 & _)];
    [exact Hco|].
  assert (Hc1 : contains p (chars c1)) by (apply contains_present; auto).
  assert (Hc2 : contains p (chars c2)) by (apply contains_present; auto).
  destruct (negb (abstract_class (deref (root p) (chars c1)) =? -1)
            && (abstract_class (deref (root p) (chars c1))
                =? abstract_class (deref (root p) (chars c2)))) eqn:Hcls.
  { apply andb_true_iff in Hcls. destruct Hcls as [A B].
    apply negb_true_iff, Z.eqb_neq in A. apply Z.eqb_eq in B.
    rewrite (seq_equiv_same_class p c1 c2 e Hv1 Hv2 Hc1 Hc2 A B) in H.
    injection H as _ <- _. exact Hco. }
  assert (Hname : abstract_class_name (deref (root p) (chars c1)) = None ->
                  abstract_class_name (deref (root p) (chars c2)) = None).
  { intros Hn1.
    destruct (abstract_class_name (deref (root p) (chars c2))) as [b|] eqn:Hn2;
      [exfalso|reflexivity].
    rewrite (seq_equiv_strcmp_null p c1 c2 e b) in H; auto; try discriminate.
    - intros [A B]. apply Z.eqb_neq in A. apply Z.eqb_eq in B.
      rewrite A, B in Hcls. discriminate.
    - unfold all_succeed in He. destruct (mallocs e) as [|[|] ms];
        simpl in *; auto. }
  destruct (seq_equiv_names p c1 c2 e Hr Hv1 Hv2 Ha Hp1 Hp2 Hcls Hname He)
    as (p1 & e1 & Hrun & _ & HF & _).
  rewrite H in Hrun. injection Hrun as _ <- _.
  eapply coherent_fresh; [exact Hco| |exact HF].
  intros q. apply store_inv_fresh; assumption.
Qed.

Lemma step_coherent o p e p' e' :
  store_inv p -> abstract_classes_amount p < INT_MAX -> all_succeed e ->
  coherent (root p) -> step o p e = Done p' e' -> coherent (root p').
Proof.
  intros Hinv Hlt He Hco H.
  destruct o; cbn [step] in H; inv_bind_as H x e1 Hop.
  - destruct x as [r q]. inv_done H. eapply seq_add_coherent; eauto.
  - destruct x as [r q]. inv_done H. eapply seq_remove_coherent; eauto.
  - inv_done H. exact Hco.
  - destruct x as [r q]. inv_done H. eapply seq_set_name_coherent; eauto.
  - inv_done H. exact Hco.
  - destruct x as [r q]. inv_done H. eapply seq_equiv_coherent; eauto.
Qed.

Lemma run_coherent ops : forall p e p' e' k,
  account p e k -> store_inv p ->
  abstract_classes_amount p + Z.of_nat (List.length ops) <= INT_MAX ->
  coherent (root p) -> run ops p e = Done p' e' -> coherent (root p').
Proof.
  induction ops as [|o ops IH]; intros p e p' e' k Hacc Hinv Hlen Hco H.
  - inv_done H. exact Hco.
  - cbn [run] in H. inv_bind_as H p1 e1 Hstep.
    cbn [List.length] in Hlen.
    destruct (step_inv _ _ _ _ _ Hinv ltac:(lia) Hstep) as [Hinv1 Hamt1].
    pose proof (step_account _ _ _ _ _ _ Hacc Hinv Hstep) as Hacc1.
    eapply (IH p1 e1 p' e' k); [exact Hacc1|exact Hinv1|lia| |exact H].
    eapply step_coherent; [exact Hinv|lia|apply Hacc|exact Hco|exact Hstep].
Qed.

(** X16.  One name for a class while no allocation fails.  After [seq_new]
    and any run of the public operations (short of 2^31 - 1 calls) whose
    behaviour is defined, in an environment where every allocation succeeds,
    two sequences of the store whose nodes are in one class carry the same
    name: [seq_get_name] gives the same answer for both.  A node in no class
    has no name.  A run in which [seq_remove] or [seq_set_name] reads its
    argument after freeing the name that holds it is [Undefined] and is not
    covered. *)
Theorem one_name_per_class ops e p0 e1 p e2 :
  all_succeed e -> Z.of_nat (List.length ops) <= INT_MAX ->
  seq_new e = Done p0 e1 -> run ops p0 e1 = Done p e2 ->
  forall s t,
    contains p s -> contains p t ->
    (abstract_class (deref (root p) s) = -1 ->
     forall e3, seq_get_name p (Some s) e3
                = Done None (Env 0 (mallocs e3) (allocated e3))) /\
    (abstract_class (deref (root p) s) <> -1 ->
     abstract_class (deref (root p) s) = abstract_class (deref (root p) t) ->
     forall e3, seq_get_name p (Some s) e3 = seq_get_name p (Some t) e3).
Proof.
  intros He Hlen Hnew Hrun s t Hs Ht.
  pose proof (contains_valid _ _ Hs) as Hvs.
  pose proof (contains_valid _ _ Ht) as Hvt.
  apply contains_present in Hs; [|exact Hvs]. destruct Hs as [Hr Hps].
  apply contains_present in Ht; [|exact Hvt]. destruct Ht as [_ Hpt].
  pose proof (seq_new_account _ _ _ He Hnew) as Hacc.
  destruct (seq_new_inv _ _ _ Hnew) as [Hamt Hinv].
  assert (Hlen0 : abstract_classes_amount p0 + Z.of_nat (List.length ops)
                  <= INT_MAX) by lia.
  pose proof (run_account _ _ _ _ _ _ Hacc Hinv Hlen0 Hrun)
    as (_ & Htidy & _).
  assert (Hco0 : coherent (root p0)).
  { unfold seq_new in Hnew.
    rewrite (bind_eq _ _ _ _ _ _ _ (malloc_succeeds e He)) in Hnew.
    rewrite (bind_eq _ _ _ _ _ _ _
               (malloc_succeeds _ (all_succeed_tl e (errno e)
                                     (allocated e + 1) He))) in Hnew.
    cbn [negb orb] in Hnew. inv_done Hnew. cbn [root].
    intros q1 q2 N1 _ Hc1 _.
    destruct q1 as [|c q1]; [cbn in Hc1; congruence|].
    cbn [deref] in N1. fold leaf in N1. rewrite next_seq_leaf in N1.
    rewrite deref_NULL in N1. discriminate. }
  pose proof (run_coherent _ _ _ _ _ _ Hacc Hinv Hlen0 Hco0 Hrun) as Hco.
  split.
  - intros Hc e3. rewrite seq_get_name_cases, Hps by assumption.
    pose proof (tidy_deref s _ Htidy) as Ts.
    pose proof (present_node _ _ Hps) as Ns.
    destruct (deref (root p) s) as [|z o tt name c]; [discriminate|].
    apply tidy_Node in Ts. destruct Ts as (Hn & _).
    cbn in Hc |- *. rewrite (Hn Hc). reflexivity.
  - intros Hc Heq e3.
    rewrite !seq_get_name_cases, Hps, Hpt by assumption.
    rewrite (Hco s t (present_node _ _ Hps) (present_node _ _ Hpt) Hc Heq).
    reflexivity.
Qed.

Lemma one_name_per_class_witness :
  exists p e2,
    run [OAdd (sq "01"); OAdd (sq "2"); OSetName (sq "0") (Some "A"%string) None;
         OEquiv (at_address 1 "0") (at_address 2 "2")]
      store_empty (Env 0 [] 2) = Done p e2 /\
    seq_get_name p (sq "0") e0 = seq_get_name p (sq "2") e0 /\
    seq_get_name p (sq "01") e0 = Done None e0.
Proof.
  assert (Hrun : exists p e2,
             run [OAdd (sq "01"); OAdd (sq "2");
                  OSetName (sq "0") (Some "A"%string) None;
                  OEquiv (at_address 1 "0") (at_address 2 "2")]
               store_empty (Env 0 [] 2) = Done p e2 /\
             contains p (list_ascii_of_string "0") /\
             contains p (list_ascii_of_string "2") /\
             contains p (list_ascii_of_string "01") /\
             abstract_class (deref (root p) (list_ascii_of_string "0")) = 2 /\
             abstract_class (deref (root p) (list_ascii_of_string "2")) = 2 /\
             abstract_class (deref (root p) (list_ascii_of_string "01")) = -1).
  { vm_compute. do 2 eexists. split; [reflexivity|].
    repeat split; intros e; reflexivity. }
  destruct Hrun as (p & e2 & Hrun & H0 & H2 & H01 & C0 & C2 & C01).
  exists p, e2. split; [exact Hrun|].
  match type of Hrun with
  | run ?ops _ _ = _ =>
      pose proof (one_name_per_class ops e0 store_empty (Env 0 [] 2) p e2
                    eq_refl ltac:(vm_compute; discriminate) eq_refl Hrun)
        as H
  end.
  split.
  - apply (proj2 (H _ _ H0 H2)); [rewrite C0; discriminate|].
    rewrite C0, C2. reflexivity.
  - apply (proj1 (H _ _ H01 H0) C01 e0).
Defined.


(** ** X17: where a NULL string reaches [strcmp] *)

Lemma bind_defined A B (m : M A) (k : A -> M B) e :
  m e <> Undefined ->
  (forall a e1, m e = Done a e1 -> k a e1 <> Undefined) ->
  bind m k e <> Undefined.
Proof. unfold bind. destruct (m e); auto. Qed.

Lemma malloc_defined e : malloc e <> Undefined.
Proof. unfold malloc. destruct (mallocs e) as [|[|] ms]; discriminate. Qed.

Lemma check_str_defined s e : check_str_for_inval s e <> Undefined.
Proof.
  destruct (check_str_total s e) as [(l & _ & _ & H) | [_ H]]; rewrite H;
    discriminate.
Qed.

Ltac returns := cbv [bind set_errno ret free]; discriminate.

Lemma seq_add_defined p s e : seq_add p s e <> Undefined.
Proof.
  destruct (is_null (root p)) eqn:Hr.
  { destruct (seq_add_null p s e Hr) as (e1 & ->). discriminate. }
  destruct s as [l|]; [|unfold seq_add; rewrite Hr; returns].
  destruct (check_str_total (Some l) e) as [(l' & El & Hv & Hc) | [_ Hc]].
  - injection El as <-.
    destruct (seq_add_spec p l e Hr Hv) as (r & q & e1 & -> & _).
    discriminate.
  - unfold seq_add. rewrite Hr, (bind_eq _ _ _ _ _ _ _ Hc). discriminate.
Qed.

Lemma seq_remove_defined p s e : seq_remove p s None e <> Undefined.
Proof.
  destruct (is_null (root p)) eqn:Hr;
    [unfold seq_remove; rewrite Hr; returns|].
  destruct (check_str_total s e) as [(l & -> & Hv & Hc) | [_ Hc]].
  - destruct (present (root p) l) eqn:Hp.
    + rewrite seq_remove_present by assumption. discriminate.
    + rewrite seq_remove_absent by assumption. discriminate.
  - unfold seq_remove. rewrite Hr, (bind_eq _ _ _ _ _ _ _ Hc). discriminate.
Qed.

Lemma seq_valid_defined p s e : seq_valid p s e <> Undefined.
Proof.
  unfold seq_valid. apply bind_defined; [apply check_str_defined|].
  intros r e1 _. destruct (r =? -1); [discriminate|].
  destruct (is_null (root p)); [returns|].
  destruct (walk _ _ _); discriminate.
Qed.

Lemma seq_get_name_defined p s e : seq_get_name p s e <> Undefined.
Proof.
  unfold seq_get_name. destruct (is_null (root p)); [returns|].
  apply bind_defined; [apply check_str_defined|].
  intros r e1 _. destruct (r =? -1); [discriminate|].
  destruct (walk _ _ _); [|returns].
  destruct (negb _ && _); [returns|discriminate].
Qed.

Lemma seq_set_name_defined p s n e :
  seq_set_name p s n None e <> Undefined.
Proof.
  unfold seq_set_name. destruct (is_null (root p)); [returns|].
  apply bind_defined; [apply check_str_defined|].
  intros r e1 _. destruct (r =? -1); [discriminate|].
  destruct n as [n|]; [|returns].
  destruct (_ =? 0); [returns|].
  destruct (walk _ _ _) as [cur|]; [|discriminate].
  cbv zeta. destruct (_ =? -1).
  - apply bind_defined; [apply malloc_defined|].
    intros a e2 _. destruct (negb a); [returns|discriminate].
  - apply bind_defined.
    + destruct (abstract_class_name _); [|discriminate]. returns.
    + intros same e2 _. destruct same; [discriminate|].
      apply bind_defined.
      * cbn [origin_of].
        destruct (recur_seq_name_result (root p) n
                    (abstract_class (deref (root p) cur)) e2)
          as (r1 & q & e3 & -> & _). discriminate.
      * intros [[r1 q] f1] e3 _. discriminate.
Qed.

Lemma node_change_defined p n1 n2 v e :
  (n1 = None -> n2 = None) -> node_change p n1 n2 v e <> Undefined.
Proof.
  destruct p as [|z o t name c]; [discriminate|].
  unfold node_change, singular_name, merge_names, strcmp, bind, malloc,
    free, ret, set_errno, undefined.
  destruct e as [en ml al].
  destruct name, n1 as [a|], n2 as [b|]; cbn;
    try destruct (a ?= b)%string; cbn;
    destruct ml as [|[|] ms]; cbn;
    intros H; try discriminate; specialize (H eq_refl); discriminate.
Qed.

Lemma recur_equiv_defined p a b n n1 n2 :
  (n1 = None -> n2 = None) ->
  forall e, recur_equiv p a b n n1 n2 e <> Undefined.
Proof.
  intros Hn. induction p as [|z IHz o IHo t IHt name c]; intros e;
    [discriminate|].
  cbn [recur_equiv].
  apply bind_defined; [apply IHz|]. intros [rz z'] e1 _.
  apply bind_defined; [apply IHo|]. intros [ro o'] e2 _.
  apply bind_defined; [apply IHt|]. intros [rt t'] e3 _.
  cbv zeta. destruct (_ || _); [discriminate|].
  destruct (_ && _); [apply node_change_defined; exact Hn|discriminate].
Qed.

Lemma seq_equiv_defined p c1 c2 e :
  is_null (root p) = false -> valid (chars c1) -> valid (chars c2) ->
  address c1 <> address c2 ->
  present (root p) (chars c1) = true -> present (root p) (chars c2) = true ->
  negb (abstract_class (deref (root p) (chars c1)) =? -1)
  && (abstract_class (deref (root p) (chars c1))
      =? abstract_class (deref (root p) (chars c2))) = false ->
  (abstract_class_name (deref (root p) (chars c1)) = None ->
   abstract_class_name (deref (root p) (chars c2)) = None \/
   hd true (mallocs e) = false) ->
  seq_equiv p (Some c1) (Some c2) e <> Undefined.
Proof.
  intros Hr Hv1 Hv2 Ha Hp1 Hp2 Hcls Hn.
  pose proof (present_node _ _ Hp1) as N1.
  pose proof (present_node _ _ Hp2) as N2.
  enter_seq_equiv e Hr Hv1 Hv2 Ha Hp1 Hp2 Hcls.
  set (n := wrap_int (abstract_classes_amount p + 1)).
  destruct (classed_names (root p) (chars c1) (chars c2) n N1 N2) as [F1 F2].
  rewrite F1, F2.
  set (name_1 := abstract_class_name (deref (root p) (chars c1))) in *.
  set (name_2 := abstract_class_name (deref (root p) (chars c2))) in *.
  assert (Hrest : (name_1 = None -> name_2 = None) ->
                  forall e2 rt,
                    ('(r1, node) <-
                       node_change (deref rt (chars c1)) name_1 name_2 n ;;
                     let rt := assign rt (chars c1) node in
                     if r1 =? -1 then ret (-1, Store rt n) else
                     '(r2, node) <-
                        node_change (deref rt (chars c2)) name_1 name_2 n ;;
                     let rt := assign rt (chars c2) node in
                     if r2 =? -1 then ret (-1, Store rt n) else
                     '(zero_seqs, z) <-
                        recur_equiv (next_zero rt)
                          (abstract_class (deref (root p) (chars c1)))
                          (abstract_class (deref (root p) (chars c2))) n
                          name_1 name_2 ;;
                     let rt := set_next_zero rt z in
                     '(one_seqs, o) <-
                        recur_equiv (next_one rt)
                          (abstract_class (deref (root p) (chars c1)))
                          (abstract_class (deref (root p) (chars c2))) n
                          name_1 name_2 ;;
                     let rt := set_next_one rt o in
                     '(two_seqs, t) <-
                        recur_equiv (next_two rt)
                          (abstract_class (deref (root p) (chars c1)))
                          (abstract_class (deref (root p) (chars c2))) n
                          name_1 name_2 ;;
                     let rt := set_next_two rt t in
                     (if is_some name_1 then free else ret tt) ;;
                     (if is_some name_2 then free else ret tt) ;;
                     if negb (zero_seqs =? -1) && negb (one_seqs =? -1)
                        && negb (two_seqs =? -1)
                     then ret (1, Store rt n)
                     else ret (-1, Store rt n)) e2 <> Undefined).
  { intros Hn' e2 rt.
    apply bind_defined; [apply node_change_defined; exact Hn'|].
    intros [r1 node1] e3 _. cbv zeta. destruct (r1 =? -1); [discriminate|].
    apply bind_defined; [apply node_change_defined; exact Hn'|].
    intros [r2 node2] e4 _. cbv zeta. destruct (r2 =? -1); [discriminate|].
    apply bind_defined; [apply recur_equiv_defined; exact Hn'|].
    intros [rz z'] e5 _.
    apply bind_defined; [apply recur_equiv_defined; exact Hn'|].
    intros [ro o'] e6 _.
    apply bind_defined; [apply recur_equiv_defined; exact Hn'|].
    intros [rt' t'] e7 _.
    apply bind_defined; [destruct (is_some name_1); returns|].
    intros u1 e8 _.
    apply bind_defined; [destruct (is_some name_2); returns|].
    intros u2 e9 _.
    destruct (rz =? -1), (ro =? -1), (rt' =? -1); discriminate. }
  destruct name_1 as [a|] eqn:E1.
  - cbn [is_some].
    apply bind_defined; [apply malloc_defined|]. intros a1 e1 _.
    destruct (negb a1); [returns|].
    apply bind_defined;
      [destruct (is_some name_2); [apply malloc_defined|discriminate]|].
    intros a2 e2 _. destruct (negb a2); [returns|].
    apply Hrest. discriminate.
  - cbn [is_some].
    rewrite (bind_eq _ _ _ _ _ _ _ (eq_refl : ret true e = Done true e)).
    cbn [negb]. cbv iota.
    destruct name_2 as [b|] eqn:E2; cbn [is_some].
    + destruct (Hn eq_refl) as [Hn2 | Hm]; [discriminate|].
      unfold bind at 1. unfold malloc at 1.
      destruct (mallocs e) as [|[|] ms]; simpl in Hm; discriminate.
    + rewrite (bind_eq _ _ _ _ _ _ _ (eq_refl : ret true e = Done true e)).
      cbn [negb]. cbv iota. apply Hrest. reflexivity.
Qed.

Lemma seq_remove_undefined p s s_in e :
  seq_remove p s s_in e = Undefined ->
  exists t, s = Some t /\ valid t /\ contains p t /\
            freed_with (root p) t s_in = true.
Proof.
  intros H.
  destruct (is_null (root p)) eqn:Hr;
    [exfalso; revert H; unfold seq_remove; rewrite Hr; returns|].
  destruct (check_str_total s e) as [(l & -> & Hv & Hc) | [_ Hc]].
  - destruct (present (root p) l) eqn:Hp.
    + rewrite seq_remove_found in H by assumption.
      destruct (freed_with (root p) l s_in) eqn:Hf; [|discriminate].
      exists l. split; [reflexivity|]. split; [exact Hv|].
      split; [|exact Hf]. apply contains_present; auto.
    + rewrite seq_remove_absent in H by assumption. discriminate.
  - exfalso. revert H. unfold seq_remove.
    rewrite Hr, (bind_eq _ _ _ _ _ _ _ Hc). discriminate.
Qed.

Lemma seq_set_name_undefined p s n n_in e :
  seq_set_name p s n n_in e = Undefined ->
  exists t m, s = Some t /\ n = Some m /\ valid t /\ contains p t /\
    renames_buffer (root p) (origin_of n_in)
      (abstract_class (deref (root p) t)) = true.
Proof.
  destruct (is_null (root p)) eqn:Hr;
    [intros H; exfalso; revert H; unfold seq_set_name; rewrite Hr; returns|].
  destruct (check_str_total s e) as [(l & -> & Hv & Hc) | [_ Hc]].
  2:{ intros H. exfalso. revert H. unfold seq_set_name.
      rewrite Hr, (bind_eq _ _ _ _ _ _ _ Hc). discriminate. }
  destruct n as [m|].
  2:{ intros H. exfalso. revert H. unfold seq_set_name.
      rewrite Hr, (bind_eq _ _ _ _ _ _ _ Hc). returns. }
  destruct (present (root p) l) eqn:Hp.
  2:{ intros H. exfalso. revert H. unfold seq_set_name.
      rewrite Hr, (bind_eq _ _ _ _ _ _ _ Hc).
      change (0 =? -1) with false. cbv iota.
      destruct (_ =? 0); [returns|].
      unfold chars_of. rewrite walk_root, Hp by exact Hr. discriminate. }
  destruct (renames_buffer (root p) (origin_of n_in)
              (abstract_class (deref (root p) l))) eqn:Hb.
  { intros _. exists l, m. split; [reflexivity|]. split; [reflexivity|].
    split; [exact Hv|]. split; [|exact Hb]. apply contains_present; auto. }
  intros H. exfalso. revert H. unfold seq_set_name.
  rewrite Hr, (bind_eq _ _ _ _ _ _ _ Hc).
  change (0 =? -1) with false. cbv iota.
  destruct (_ =? 0); [returns|].
  unfold chars_of. rewrite walk_root, Hp by exact Hr.
  cbv zeta. destruct (_ =? -1).
  - apply bind_defined; [apply malloc_defined|].
    intros a e2 _. destruct (negb a); [returns|discriminate].
  - apply bind_defined.
    + destruct (abstract_class_name _); [|discriminate]. returns.
    + intros same e2 _. destruct same; [discriminate|].
      apply bind_defined.
      * destruct (recur_seq_name_result (root p) m
                    (abstract_class (deref (root p) l)) e2)
          as (r1 & q & e3 & R & _).
        rewrite (recur_seq_name_outside _ _ _ (origin_of n_in) _ _ _ _ R);
          [discriminate|destruct n_in; reflexivity|exact Hb].
      * intros [[r1 q] f1] e3 _. discriminate.
Qed.

(** X17.  Where a NULL string reaches [strcmp].  [seq_new], [seq_add],
    [seq_remove], [seq_valid], [seq_set_name], [seq_get_name] and
    [seq_delete] never hand NULL to [strcmp], whatever the store, the
    arguments and the allocations: with their arguments held in buffers of
    the caller their behaviour is always defined, and the only calls of
    [seq_remove] and [seq_set_name] without a defined behaviour are those
    whose argument is held in a name of the store that the call frees (a
    name at or below the sequence removed; a name of the class renamed).
    [seq_equiv] hands NULL to [strcmp] in one situation, and in no other:
    the two sequences are in the store, held at different addresses, their
    nodes are not yet in one class, the first node has no name, the second
    has one, and the allocation of the copy of that name does not fail. *)
Theorem strcmp_null_only_in_seq_equiv p e :
  seq_new e <> Undefined /\
  (forall s, seq_add p s e <> Undefined) /\
  (forall s, seq_remove p s None e <> Undefined) /\
  (forall s, seq_valid p s e <> Undefined) /\
  (forall s n, seq_set_name p s n None e <> Undefined) /\
  (forall s, seq_get_name p s e <> Undefined) /\
  seq_delete p e <> Undefined /\
  (forall s s_in,
     seq_remove p s s_in e = Undefined ->
     exists t, s = Some t /\ valid t /\ contains p t /\
               freed_with (root p) t s_in = true) /\
  (forall s n n_in,
     seq_set_name p s n n_in e = Undefined ->
     exists t m, s = Some t /\ n = Some m /\ valid t /\ contains p t /\
       renames_buffer (root p) (origin_of n_in)
         (abstract_class (deref (root p) t)) = true) /\
  (forall s1 s2,
     seq_equiv p s1 s2 e = Undefined <->
     exists c1 c2 b,
       s1 = Some c1 /\ s2 = Some c2 /\
       valid (chars c1) /\ valid (chars c2) /\
       contains p (chars c1) /\ contains p (chars c2) /\
       address c1 <> address c2 /\
       ~ (abstract_class (deref (root p) (chars c1)) <> -1 /\
          abstract_class (deref (root p) (chars c1))
          = abstract_class (deref (root p) (chars c2))) /\
       abstract_class_name (deref (root p) (chars c1)) = None /\
       abstract_class_name (deref (root p) (chars c2)) = Some b /\
       hd true (mallocs e) = true).
Proof.
  split.
  { unfold seq_new. apply bind_defined; [apply malloc_defined|].
    intros a1 e1 _. apply bind_defined; [apply malloc_defined|].
    intros a2 e2 _. destruct a1, a2; returns. }
  split; [intros s; apply seq_add_defined|].
  split; [intros s; apply seq_remove_defined|].
  split; [intros s; apply seq_valid_defined|].
  split; [intros s n; apply seq_set_name_defined|].
  split; [intros s; apply seq_get_name_defined|].
  split; [rewrite seq_delete_blocks; discriminate|].
  split; [intros s s_in; apply seq_remove_undefined|].
  split; [intros s n n_in; apply seq_set_name_undefined|].
  intros s1 s2. split.
  2:{ intros (c1 & c2 & b & -> & -> & Hv1 & Hv2 & Hc1 & Hc2 & Ha & Hcls
              & Hn1 & Hn2 & Hm).
      eapply seq_equiv_strcmp_null; eauto. }
  intros H.
  destruct (is_null (root p)) eqn:Hr.
  { exfalso. revert H. unfold seq_equiv. rewrite Hr. returns. }
  destruct s1 as [c1|];
    [|exfalso; revert H; unfold seq_equiv; rewrite Hr; returns].
  destruct s2 as [c2|];
    [|exfalso; revert H; unfold seq_equiv; rewrite Hr; returns].
  destruct (check_str_cases (chars c1) e) as [[Hv1 Hk1] | [e1 Hk1]].
  2:{ exfalso. revert H. unfold seq_equiv.
      rewrite Hr, (bind_eq _ _ _ _ _ _ _ Hk1). discriminate. }
  destruct (check_str_cases (chars c2) e) as [[Hv2 Hk2] | [e2 Hk2]].
  2:{ exfalso. revert H. unfold seq_equiv.
      rewrite Hr, (bind_eq _ _ _ _ _ _ _ Hk1).
      change (0 =? -1) with false. cbv iota.
      rewrite (bind_eq _ _ _ _ _ _ _ Hk2). discriminate. }
  assert (Hstart : seq_equiv p (Some c1) (Some c2) e
                   = if address c1 =? address c2 then Done (0, p) e
                     else if present (root p) (chars c1)
                          then if present (root p) (chars c2)
                               then seq_equiv p (Some c1) (Some c2) e
                               else Done (0, p) e
                          else Done (0, p) e).
  { destruct (address c1 =? address c2) eqn:Ea;
      [|destruct (present (root p) (chars c1)) eqn:Hp1;
        [destruct (present (root p) (chars c2)) eqn:Hp2|]];
      try reflexivity; unfold seq_equiv;
      rewrite Hr, (bind_eq _ _ _ _ _ _ _ Hk1);
      change (0 =? -1) with false; cbv iota;
      rewrite (bind_eq _ _ _ _ _ _ _ Hk2);
      change (0 =? -1) with false; cbv iota; rewrite Ea;
      try reflexivity; rewrite !walk_root, Hp1 by exact Hr;
      try reflexivity; rewrite Hp2; reflexivity. }
  destruct (address c1 =? address c2) eqn:Ea;
    [rewrite Hstart in H; discriminate|].
  destruct (present (root p) (chars c1)) eqn:Hp1;
    [|rewrite Hstart in H; discriminate].
  destruct (present (root p) (chars c2)) eqn:Hp2;
    [|rewrite Hstart in H; discriminate].
  clear Hstart. apply Z.eqb_neq in Ea.
  destruct (negb (abstract_class (deref (root p) (chars c1)) =? -1)
            && (abstract_class (deref (root p) (chars c1))
                =? abstract_class (deref (root p) (chars c2)))) eqn:Hcls.
  { exfalso. apply andb_true_iff in Hcls. destruct Hcls as [A B].
    apply negb_true_iff, Z.eqb_neq in A. apply Z.eqb_eq in B.
    rewrite (seq_equiv_same_class p c1 c2 e Hv1 Hv2) in H;
      auto; try discriminate; apply contains_present; auto. }
  destruct (abstract_class_name (deref (root p) (chars c1))) as [a|] eqn:Hn1.
  { exfalso. revert H. apply seq_equiv_defined; auto.
    rewrite Hn1. discriminate. }
  destruct (abstract_class_name (deref (root p) (chars c2))) as [b|] eqn:Hn2.
  2:{ exfalso. revert H. apply seq_equiv_defined; auto. }
  destruct (hd true (mallocs e)) eqn:Hm.
  2:{ exfalso. revert H. apply seq_equiv_defined; auto. }
  exists c1, c2, b.
  split; [reflexivity|]. split; [reflexivity|].
  split; [exact Hv1|]. split; [exact Hv2|].
  split; [apply contains_present; auto|].
  split; [apply contains_present; auto|].
  split; [exact Ea|]. split; [|auto].
  intros [A B]. apply Z.eqb_neq in A. apply Z.eqb_eq in B.
  rewrite A, B in Hcls. discriminate.
Qed.


(** ** X18: [seq_remove], then [seq_add] *)

Lemma prefix_antisym s q : prefix s q -> prefix q s -> q = s.
Proof.
  intros [u ->] [v H]. rewrite <- app_assoc in H.
  rewrite <- (app_nil_r s) in H at 1. apply app_inv_head in H.
  symmetry in H. apply app_eq_nil in H. destruct H as [-> _].
  apply app_nil_r.
Qed.

(** X18.  Removing a sequence of the store and adding it again, when no
    allocation fails and the argument is held in a buffer that the removal
    does not free (a buffer of the caller, or a name away from the subtree
    removed): both calls return 1, and what comes back is the sequence
    alone, in no class and without a name; the sequences that extended it
    are gone, and every other node is as it was. *)
Theorem seq_remove_then_add p s s_in e :
  valid s -> contains p s -> all_succeed e ->
  freed_with (root p) s s_in = false ->
  exists p1 e1 p2 e2,
    seq_remove p (Some s) s_in e = Done (1, p1) e1 /\
    seq_add p1 (Some s) e1 = Done (1, p2) e2 /\
    abstract_classes_amount p2 = abstract_classes_amount p /\
    forall q,
      fields (root p2) q
      = if prefixb s q then (negb (ptr_eqb q s), -1, None)
        else fields (root p) q.
Proof.
  intros Hv Hc He Hf. apply contains_present in Hc; [|exact Hv].
  destruct Hc as [Hr Hp]. pose proof (present_node _ _ Hp) as Ns.
  set (p1 := Store (assign (root p) s NULL) (abstract_classes_amount p)).
  set (e1 := Env (errno e) (mallocs e) (allocated e - blocks (deref (root p) s))).
  assert (Hrem : seq_remove p (Some s) s_in e = Done (1, p1) e1)
    by (rewrite seq_remove_found, Hf by assumption; reflexivity).
  assert (F1 : forall q,
             fields (root p1) q
             = if prefixb s q then (true, -1, None) else fields (root p) q)
    by (intros q; apply fields_removed; exact Ns).
  assert (Hr1 : is_null (root p1) = false).
  { cbn [p1 root]. rewrite assign_node; [exact Hr|apply Hv]. }
  assert (Hp1 : present (root p1) s = false).
  { rewrite present_fields, F1.
    replace (prefixb s s) with true; [reflexivity|].
    symmetry. apply prefixb_true. exists []. symmetry. apply app_nil_r. }
  destruct (seq_add_all_succeed p1 s e1 Hv Hr1 He)
    as (r & p2 & e2 & Hadd & Hr2 & _).
  destruct (seq_add_spec p1 s e1 Hr1 Hv) as (r' & q' & e' & Hadd' & Hres).
  rewrite Hadd in Hadd'. injection Hadd' as -> -> ->.
  assert (r' = 1).
  { destruct Hres as [(_ & _ & _ & H) | [(H & _) | (H & _)]];
      [congruence|exact H|contradiction]. }
  subst r'.
  exists p1, e1, (Store q' (abstract_classes_amount p1)), e'.
  split; [exact Hrem|]. split; [exact Hadd|]. split; [reflexivity|].
  intros q.
  destruct (seq_add_fields p1 s e1 _ _ Hv Hadd) as (_ & F2 & _).
  rewrite F2, present_fields, F1.
  destruct (prefixb s q) eqn:Esq.
  - cbn [fst negb]. f_equal. f_equal. f_equal.
    apply prefixb_true in Esq.
    destruct (ptr_eqb q s) eqn:Eq.
    + apply ptr_eqb_eq in Eq. subst q. exact (proj2 (prefixb_true s s) Esq).
    + destruct (prefixb q s) eqn:Eqs; [|reflexivity].
      apply prefixb_true in Eqs.
      rewrite (prefix_antisym _ _ Esq Eqs), ptr_eqb_refl in Eq. discriminate.
  - rewrite <- present_fields.
    destruct (present (root p) q) eqn:Hq; [reflexivity|].
    destruct (prefixb q s) eqn:Eqs.
    + apply prefixb_true in Eqs.
      rewrite (present_prefix _ _ _ Eqs Hp) in Hq. discriminate.
    + unfold present in Hq. apply negb_false_iff in Hq. unfold fields.
      destruct (deref (root p) q); [reflexivity|discriminate].
Qed.

Lemma seq_remove_then_add_witness :
  exists p1 e1 p2 e2,
    seq_remove store_three_named (sq "0") None e0 = Done (1, p1) e1 /\
    seq_add p1 (sq "0") e1 = Done (1, p2) e2 /\
    fields (root p2) (list_ascii_of_string "0") = (false, -1, None) /\
    fields (root p2) (list_ascii_of_string "00") = (true, -1, None) /\
    fields (root p2) (list_ascii_of_string "1") = (false, 2, Some "B"%string).
Proof.
  destruct (seq_remove_then_add store_three_named (list_ascii_of_string "0")
              None e0)
    as (p1 & e1 & p2 & e2 & Hrem & Hadd & _ & HF).
  - split; [discriminate|reflexivity].
  - intros e. reflexivity.
  - reflexivity.
  - reflexivity.
  - exists p1, e1, p2, e2. split; [exact Hrem|]. split; [exact Hadd|].
    repeat split; rewrite HF; reflexivity.
Defined.


(** ** X19: what a return of -1 means when the arguments are valid *)

Lemma node_change_errno p n1 n2 v e r p' e' :
  node_change p n1 n2 v e = Done (r, p') e' ->
  (r = -1 -> errno e' = ENOMEM) /\
  (errno e' = errno e \/ errno e' = ENOMEM).
Proof.
  destruct p as [|z o t name c].
  { intros H. injection H as <- <- <-. split; [discriminate|auto]. }
  unfold node_change, singular_name, merge_names, strcmp, bind, malloc,
    free, ret, set_errno, undefined.
  destruct e as [en ml al].
  destruct name, n1 as [a|], n2 as [b|]; cbn;
    try destruct (a ?= b)%string; cbn;
    destruct ml as [|[|] ms]; cbn;
    intros H; try discriminate; injection H as <- <- <-; cbn;
    (split; [try discriminate; reflexivity|auto]).
Qed.

Lemma recur_equiv_errno p a b n n1 n2 : forall e r p' e',
  recur_equiv p a b n n1 n2 e = Done (r, p') e' ->
  (r = -1 -> errno e' = ENOMEM) /\
  (errno e' = errno e \/ errno e' = ENOMEM).
Proof.
  induction p as [|z IHz o IHo t IHt name c]; intros e r p' e' H.
  - injection H as <- <- <-. split; [discriminate|auto].
  - cbn [recur_equiv] in H.
    inv_bind_as H x e1 H1. destruct x as [rz z'].
    destruct (IHz _ _ _ _ H1) as [Fz Ez].
    inv_bind_as H x e2 H2. destruct x as [ro o'].
    destruct (IHo _ _ _ _ H2) as [Fo Eo].
    inv_bind_as H x e3 H3. destruct x as [rt t'].
    destruct (IHt _ _ _ _ H3) as [Ft Et].
    cbv zeta in H.
    destruct (ro =? -1) eqn:Ero; [apply Z.eqb_eq in Ero|];
      [cbn [orb] in H; injection H as <- <- <-;
       split; [intros _|]; intuition congruence|].
    destruct (rt =? -1) eqn:Ert; [apply Z.eqb_eq in Ert|];
      [cbn [orb] in H; injection H as <- <- <-;
       split; [intros _|]; intuition congruence|].
    destruct (rz =? -1) eqn:Erz; [apply Z.eqb_eq in Erz|];
      [cbn [orb] in H; injection H as <- <- <-;
       split; [intros _|]; intuition congruence|].
    cbn [orb] in H.
    destruct (negb (c =? -1) && ((c =? a) || (c =? b))).
    + apply node_change_errno in H. destruct H as [Fn En].
      split; [exact Fn|]. intuition congruence.
    + injection H as <- <- <-. split; [discriminate|].
      intuition congruence.
Qed.

Lemma maybe_malloc_errno (b : bool) e a e' :
  (if b then malloc else ret true) e = Done a e' -> errno e' = errno e.
Proof.
  destruct b; [|intros H; injection H as _ <-; reflexivity].
  unfold malloc. destruct (mallocs e) as [|[|] ms]; intros H;
    injection H as _ <-; reflexivity.
Qed.

Lemma maybe_free_errno (b : bool) e u e' :
  (if b then free else ret tt) e = Done u e' -> errno e' = errno e.
Proof. destruct b; intros H; inv_done H; reflexivity. Qed.

Lemma seq_equiv_errno p c1 c2 e p' e' :
  is_null (root p) = false -> valid (chars c1) -> valid (chars c2) ->
  seq_equiv p (Some c1) (Some c2) e = Done (-1, p') e' ->
  errno e' = ENOMEM.
Proof.
  intros Hr Hv1 Hv2. unfold seq_equiv. rewrite Hr.
  rewrite (bind_eq _ _ _ _ _ _ _ (check_str_valid _ e Hv1)).
  change (0 =? -1) with false. cbv iota.
  rewrite (bind_eq _ _ _ _ _ _ _ (check_str_valid _ e Hv2)).
  change (0 =? -1) with false. cbv iota.
  destruct (address c1 =? address c2); [discriminate|].
  rewrite !walk_root by exact Hr.
  destruct (present (root p) (chars c1)); [|discriminate].
  destruct (present (root p) (chars c2)); [|discriminate].
  cbv zeta. destruct (_ && _); [discriminate|].
  intros H.
  inv_bind_as H a1 e1 Hm1. apply maybe_malloc_errno in Hm1.
  destruct (negb a1).
  { inv_bind_as H u eu Hu. inv_done H. inv_done Hu. reflexivity. }
  inv_bind_as H a2 e2 Hm2. apply maybe_malloc_errno in Hm2.
  destruct (negb a2).
  { inv_bind_as H u eu Hu. inv_done H. inv_done Hu. reflexivity. }
  inv_bind_as H x e3 Hc1. destruct x as [r1 node1].
  apply node_change_errno in Hc1. destruct Hc1 as [F1 E1].
  destruct (r1 =? -1) eqn:Er1.
  { apply Z.eqb_eq in Er1. inv_done H. auto. }
  inv_bind_as H x e4 Hc2. destruct x as [r2 node2].
  apply node_change_errno in Hc2. destruct Hc2 as [F2 E2].
  destruct (r2 =? -1) eqn:Er2.
  { apply Z.eqb_eq in Er2. inv_done H. auto. }
  inv_bind_as H x e5 Hz. destruct x as [rz z'].
  apply recur_equiv_errno in Hz. destruct Hz as [Fz Ez].
  inv_bind_as H x e6 Ho. destruct x as [ro o'].
  apply recur_equiv_errno in Ho. destruct Ho as [Fo Eo].
  inv_bind_as H x e7 Ht. destruct x as [rt t'].
  apply recur_equiv_errno in Ht. destruct Ht as [Ft Et].
  inv_bind_as H u1 e8 Hf1. apply maybe_free_errno in Hf1.
  inv_bind_as H u2 e9 Hf2. apply maybe_free_errno in Hf2.
  destruct (rz =? -1) eqn:Erz; [apply Z.eqb_eq in Erz|];
    [cbn [negb andb] in H; injection H as _ <-; intuition congruence|].
  destruct (ro =? -1) eqn:Ero; [apply Z.eqb_eq in Ero|];
    [cbn [negb andb] in H; injection H as _ <-; intuition congruence|].
  destruct (rt =? -1) eqn:Ert; [apply Z.eqb_eq in Ert|];
    [cbn [negb andb] in H; injection H as _ <-; intuition congruence|].
  discriminate.
Qed.

Lemma seq_equiv_early p c1 c2 e :
  is_null (root p) = false -> valid (chars c1) -> valid (chars c2) ->
  (address c1 =? address c2) || negb (present (root p) (chars c1))
  || negb (present (root p) (chars c2)) = true ->
  seq_equiv p (Some c1) (Some c2) e = Done (0, p) e.
Proof.
  intros Hr Hv1 Hv2 H. unfold seq_equiv. rewrite Hr.
  rewrite (bind_eq _ _ _ _ _ _ _ (check_str_valid _ e Hv1)).
  change (0 =? -1) with false. cbv iota.
  rewrite (bind_eq _ _ _ _ _ _ _ (check_str_valid _ e Hv2)).
  change (0 =? -1) with false. cbv iota.
  destruct (address c1 =? address c2); [reflexivity|].
  rewrite !walk_root by exact Hr.
  destruct (present (root p) (chars c1)); [|reflexivity].
  destruct (present (root p) (chars c2)); [|reflexivity].
  discriminate.
Qed.

Lemma seq_equiv_failure_needs_oom p c1 c2 e p' e' :
  is_null (root p) = false -> valid (chars c1) -> valid (chars c2) ->
  all_succeed e ->
  seq_equiv p (Some c1) (Some c2) e = Done (-1, p') e' -> False.
Proof.
  intros Hr Hv1 Hv2 He H.
  destruct ((address c1 =? address c2)
            || negb (present (root p) (chars c1))
            || negb (present (root p) (chars c2))) eqn:Early.
  { rewrite (seq_equiv_early p c1 c2 e Hr Hv1 Hv2 Early) in H.
    discriminate. }
  apply orb_false_iff in Early. destruct Early as [Early Hp2].
  apply orb_false_iff in Early. destruct Early as [Ha Hp1].
  apply negb_false_iff in Hp1, Hp2. apply Z.eqb_neq in Ha.
  assert (Hc1 : contains p (chars c1)) by (apply contains_present; auto).
  assert (Hc2 : contains p (chars c2)) by (apply contains_present; auto).
  destruct (negb (abstract_class (deref (root p) (chars c1)) =? -1)
            && (abstract_class (deref (root p) (chars c1))
                =? abstract_class (deref (root p) (chars c2)))) eqn:Hcls.
  { apply andb_true_iff in Hcls. destruct Hcls as [A B].
    apply negb_true_iff, Z.eqb_neq in A. apply Z.eqb_eq in B.
    rewrite (seq_equiv_same_class p c1 c2 e Hv1 Hv2 Hc1 Hc2 A B) in H.
    discriminate. }
  assert (Hname : abstract_class_name (deref (root p) (chars c1)) = None ->
                  abstract_class_name (deref (root p) (chars c2)) = None).
  { intros Hn1.
    destruct (abstract_class_name (deref (root p) (chars c2))) as [b|] eqn:Hn2;
      [exfalso|reflexivity].
    rewrite (seq_equiv_strcmp_null p c1 c2 e b) in H; auto; try discriminate.
    - intros [A B]. apply Z.eqb_neq in A. apply Z.eqb_eq in B.
      rewrite A, B in Hcls. discriminate.
    - unfold all_succeed in He. destruct (mallocs e) as [|[|] ms];
        simpl in *; auto. }
  destruct (seq_equiv_names p c1 c2 e Hr Hv1 Hv2 Ha Hp1 Hp2 Hcls Hname He)
    as (p1 & e1 & Hrun & _).
  rewrite H in Hrun. discriminate.
Qed.

(** X19.  What a return of -1 means when the store is there and the
    arguments are valid.  [seq_remove] and [seq_valid] do not return -1 and
    leave [errno] alone.  [seq_add], [seq_set_name] and [seq_equiv] return
    -1 only when an allocation has failed, and [errno] is ENOMEM then.  This
    holds wherever the arguments are held. *)
Theorem error_return_means_no_memory p e :
  is_null (root p) = false ->
  (forall s s_in r p' e',
     valid s -> seq_remove p (Some s) s_in e = Done (r, p') e' ->
     r <> -1 /\ errno e' = errno e) /\
  (forall s r e',
     valid s -> seq_valid p (Some s) e = Done r e' -> r <> -1 /\ e' = e) /\
  (forall s p' e',
     valid s -> seq_add p (Some s) e = Done (-1, p') e' ->
     errno e' = ENOMEM /\ ~ all_succeed e) /\
  (forall s n n_in p' e',
     valid s -> n <> ""%string ->
     seq_set_name p (Some s) (Some n) n_in e = Done (-1, p') e' ->
     errno e' = ENOMEM /\ ~ all_succeed e) /\
  (forall c1 c2 p' e',
     valid (chars c1) -> valid (chars c2) ->
     seq_equiv p (Some c1) (Some c2) e = Done (-1, p') e' ->
     errno e' = ENOMEM /\ ~ all_succeed e).
Proof.
  intros Hr. split; [|split; [|split; [|split]]].
  - intros s s_in r p' e' Hv H. destruct (present (root p) s) eqn:Hp.
    + rewrite seq_remove_found in H by assumption.
      destruct (freed_with _ _ _); [discriminate|].
      injection H as <- _ <-. split; [discriminate|reflexivity].
    + rewrite seq_remove_absent in H by assumption.
      injection H as <- _ <-. split; [discriminate|reflexivity].
  - intros s r e' Hv H. rewrite seq_valid_present in H by assumption.
    injection H as <- <-. split; [|reflexivity].
    destruct (present (root p) s); discriminate.
  - intros s p' e' Hv H. split.
    + destruct (seq_add_spec p s e Hr Hv) as (r & q & e1 & Hrun & Hres).
      rewrite H in Hrun. injection Hrun as <- _ <-.
      destruct Hres as [(A & _) | [(A & _) | (_ & _ & A & _)]];
        [discriminate|discriminate|exact A].
    + intros He. exact (seq_add_failure_needs_oom p s e p' e' Hv Hr He H).
  - intros s n n_in p' e' Hv Hn H. unfold seq_set_name in H.
    rewrite Hr in H.
    rewrite (bind_eq _ _ _ _ _ _ _ (check_str_valid s e Hv)) in H.
    change (0 =? -1) with false in H. cbv iota in H.
    rewrite name_nonempty in H by exact Hn. unfold chars_of in H.
    rewrite walk_root in H by exact Hr.
    destruct (present (root p) s); [|discriminate].
    cbv zeta in H. destruct (_ =? -1).
    + unfold bind, malloc in H. unfold all_succeed.
      destruct (mallocs e) as [|[|] ms]; try discriminate H.
      inv_done H. split; [reflexivity|]. simpl. discriminate.
    + inv_bind_as H same e1 Hs. destruct same; [discriminate|].
      inv_bind_as H x e2 Hrec. destruct x as [[r1 rt] f1]. inv_done H.
      apply recur_seq_name_returns in Hrec. destruct Hrec; discriminate.
  - intros c1 c2 p' e' Hv1 Hv2 H. split.
    + exact (seq_equiv_errno p c1 c2 e p' e' Hr Hv1 Hv2 H).
    + intros He.
      exact (seq_equiv_failure_needs_oom p c1 c2 e p' e' Hr Hv1 Hv2 He H).
Qed.

Lemma error_return_means_no_memory_witness :
  errno (Env ENOMEM [] 3) = ENOMEM /\ ~ all_succeed (Env 0 [false] 3).
Proof.
  assert (H : seq_set_name store_0_01_02 (Some (list_ascii_of_string "01"))
                (Some "A"%string) None (Env 0 [false] 3)
              = Done (-1, store_0_01_02) (Env ENOMEM [] 3))
    by (vm_compute; reflexivity).
  refine (proj1 (proj2 (proj2 (proj2
            (error_return_means_no_memory store_0_01_02 (Env 0 [false] 3)
               eq_refl)))) _ _ _ _ _ _ _ H).
  - split; [discriminate|reflexivity].
  - discriminate.
Defined.
